(** * Intelligent Node Detection: diagram-to-graph pipeline and its dashboard

    A shallow embedding of the React front end (services/api.js,
    components/Upload.jsx, components/GraphView.jsx, App.jsx) and of the
    detection-to-narrative core described by the design document, with the
    properties the design document states about them, followed by further
    properties of the front end read off its code. *)

From Stdlib Require Import Ascii String ZArith QArith Qminmax Lia Lqa.
From stdpp Require Import base option list strings pretty gmap sorting.

Local Open Scope string_scope.
Set Warnings "-register-all".
#[local] Arguments String.append !_ _ / : simpl nomatch.

(** ** JavaScript values and settled promises *)

Module Js.

(** The values [JSON.parse] can produce, plus [undefined]. An object keeps
    its properties in insertion order. *)
Inductive JsVal : Type :=
| JUndefined
| JNull
| JBool (b : bool)
| JNum (q : Q)
| JStr (s : string)
| JArr (items : list JsVal)
| JObj (props : list (string * JsVal)).

(** The constructors of the errors that can travel through the code. *)
Inductive ErrName : Type := Error | TypeError | SyntaxError.

Record JsError : Type := mkError { name : ErrName; message : string }.

(** What an awaited promise (or a synchronous call that may throw) settles
    to. *)
Inductive Outcome (A : Type) : Type :=
| Fulfilled (a : A)
| Rejected (e : JsError).
Arguments Fulfilled {A} a.
Arguments Rejected {A} e.

Definition bind {A B} (m : Outcome A) (k : A -> Outcome B) : Outcome B :=
  match m with
  | Fulfilled a => k a
  | Rejected e => Rejected e
  end.

(** [ToBoolean]. *)
Definition truthy (v : JsVal) : bool :=
  match v with
  | JUndefined | JNull => false
  | JBool b => b
  | JNum q => negb (Qnum q =? 0)%Z
  | JStr s => negb (String.eqb s "")
  | JArr _ | JObj _ => true
  end.

(** [try { m } catch { h }] around an awaited computation. *)
Definition try_catch {A} (m : Outcome A) (h : JsError -> Outcome A) : Outcome A :=
  match m with
  | Fulfilled a => Fulfilled a
  | Rejected e => h e
  end.

(** [a || b]. *)
Definition or_else (a b : JsVal) : JsVal := if truthy a then a else b.

Fixpoint assoc (k : string) (props : list (string * JsVal)) : JsVal :=
  match props with
  | [] => JUndefined
  | (k', v) :: rest => if String.eqb k k' then v else assoc k rest
  end.

(** [v.k] for a data property [k]: reading a property of [null] or
    [undefined] throws a TypeError; a property an object does not have, and
    any data property of a primitive or an array other than its built-in
    ones, reads as [undefined]. *)
Definition get_prop (v : JsVal) (k : string) : Outcome JsVal :=
  match v with
  | JUndefined =>
      Rejected (mkError TypeError
                  ("Cannot read properties of undefined (reading '" ++ k ++ "')"))
  | JNull =>
      Rejected (mkError TypeError
                  ("Cannot read properties of null (reading '" ++ k ++ "')"))
  | JObj props => Fulfilled (assoc k props)
  | _ => Fulfilled JUndefined
  end.

End Js.

Notation "'let!' x ':=' m 'in' k" := (Js.bind m (fun x => k))
  (at level 10, x name, m at level 100, k at level 200).

(** ** services/api.js *)

Module Api.
Import Js.

(** An uploaded file, as far as the client looks at it. *)
Record File : Type := mkFile { file_name : string; file_bytes : list Byte.byte }.

Record Request : Type := mkRequest {
  url : string;
  method : string;
  body : option (list (string * File))   (* FormData entries *)
}.

(** What reading and parsing the body of a response gives. *)
Inductive Body : Type :=
| Parsed (v : JsVal)
| Malformed (msg : string)      (* not JSON: [json()] rejects with a SyntaxError *)
| ReadFailed (msg : string).    (* stream failure: [json()] rejects with a TypeError *)

Record Response : Type := mkResponse {
  ok : bool;
  statusText : string;
  body_of : Body
}.

(** [response.json()]. *)
Definition json (r : Response) : Outcome JsVal :=
  match body_of r with
  | Parsed v => Fulfilled v
  | Malformed msg => Rejected (mkError SyntaxError msg)
  | ReadFailed msg => Rejected (mkError TypeError msg)
  end.

(** The network: [fetch] either resolves with a response (whatever its
    status) or rejects with a TypeError. *)
Inductive FetchResult : Type :=
| Resolved (r : Response)
| NetworkFailure (msg : string).

Definition settle (f : FetchResult) : Outcome Response :=
  match f with
  | Resolved r => Fulfilled r
  | NetworkFailure msg => Rejected (mkError TypeError msg)
  end.

Section Client.
(** [import.meta.env.VITE_API_URL] and the network the client talks to. *)
Variable VITE_API_URL : option string.
Variable fetch : Request -> FetchResult.

Definition API_BASE : string :=
  match VITE_API_URL with
  | Some u => if String.eqb u "" then "http://127.0.0.1:8000" else u
  | None => "http://127.0.0.1:8000"
  end.

Definition analyze_request (file : File) : Request :=
  {| url := API_BASE ++ "/analyze"; method := "POST";
     body := Some [("file", file)] |}.

Definition health_request : Request :=
  {| url := API_BASE ++ "/health"; method := "GET"; body := None |}.

Definition analyzeDiagram (file : File) : Outcome JsVal :=
  let! response := settle (fetch (analyze_request file)) in
  if negb (ok response)
  then Rejected (mkError Error ("Analysis failed: " ++ statusText response))
  else json response.

Definition healthCheck : Outcome bool :=
  try_catch
    (let! response := settle (fetch health_request) in
     Fulfilled (ok response))
    (fun _ => Fulfilled false).
End Client.

End Api.

(** ** App.jsx: the state the root component owns *)

Module App.
Import Js Api.

Record State : Type := mkState {
  analysisResult : JsVal;      (* [null] until an analysis succeeds *)
  apiStatus : string;
  errorMessage : string
}.

Definition initial : State :=
  {| analysisResult := JNull; apiStatus := "checking"; errorMessage := "" |}.

Definition handleUploadSuccess (data : JsVal) (s : State) : Outcome unit * State :=
  (Fulfilled tt,
   {| analysisResult := data; apiStatus := apiStatus s; errorMessage := "" |}).

Definition handleClearResults (s : State) : State :=
  {| analysisResult := JNull; apiStatus := apiStatus s;
     errorMessage := errorMessage s |}.

(** The effect run once on mount. *)
Definition checkApiHealth (env : option string) (fetch : Request -> FetchResult)
    (s : State) : State :=
  let status :=
    match healthCheck env fetch with
    | Fulfilled healthy => if healthy then "connected" else "disconnected"
    | Rejected _ => "disconnected"
    end in
  {| analysisResult := analysisResult s; apiStatus := status;
     errorMessage := errorMessage s |}.

End App.

(** ** components/Upload.jsx *)

Module Upload.
Import Js Api.

Record State : Type := mkState {
  file : option File;
  loading : bool;
  error : JsVal;       (* whatever was last passed to [setError] *)
  preview : string
}.

Section Component.
(** The parent's state and the [onUploadSuccess] prop it passes down. *)
Context {P : Type}.
Variable onUploadSuccess : JsVal -> P -> Outcome unit * P.
Variable VITE_API_URL : option string.
Variable fetch : Request -> FetchResult.

(** Everything [handleUpload] can touch: the component's own state, the
    parent's state, and the log of calls made to [onUploadSuccess]. *)
Record World : Type := mkWorld {
  self : State;
  parent : P;
  calls : list JsVal
}.

Definition M (A : Type) : Type := World -> Outcome A * World.

Definition ret {A} (a : A) : M A := fun w => (Fulfilled a, w).

Definition seq {A B} (m : M A) (k : A -> M B) : M B :=
  fun w => match m w with
           | (Fulfilled a, w') => k a w'
           | (Rejected e, w') => (Rejected e, w')
           end.

(** [await p] / evaluating an expression that may throw. *)
Definition lift {A} (o : Outcome A) : M A := fun w => (o, w).

(** [try { m } catch (err) { h err }]. *)
Definition try_catch {A} (m : M A) (h : JsError -> M A) : M A :=
  fun w => match m w with
           | (Fulfilled a, w') => (Fulfilled a, w')
           | (Rejected e, w') => h e w'
           end.

(** [try { m } finally { f }]: [f] runs whatever [m] did; the completion
    of [m] stands unless [f] itself throws. *)
Definition try_finally {A} (m : M A) (f : M unit) : M A :=
  fun w => match m w with
           | (r, w') => match f w' with
                        | (Fulfilled _, w'') => (r, w'')
                        | (Rejected e, w'') => (Rejected e, w'')
                        end
           end.

Definition modify_self (g : State -> State) : M unit :=
  fun w => (Fulfilled tt,
            {| self := g (self w); parent := parent w; calls := calls w |}).

Definition setLoading (b : bool) : M unit :=
  modify_self (fun s => {| file := file s; loading := b; error := error s;
                           preview := preview s |}).

Definition setError (v : JsVal) : M unit :=
  modify_self (fun s => {| file := file s; loading := loading s; error := v;
                           preview := preview s |}).

Definition setFile (f : option File) : M unit :=
  modify_self (fun s => {| file := f; loading := loading s; error := error s;
                           preview := preview s |}).

Definition setPreview (p : string) : M unit :=
  modify_self (fun s => {| file := file s; loading := loading s;
                           error := error s; preview := p |}).

(** Calling the prop: the call is logged, then the parent's handler runs. *)
Definition call_onUploadSuccess (data : JsVal) : M unit :=
  fun w => match onUploadSuccess data (parent w) with
           | (r, p') => (r, {| self := self w; parent := p';
                               calls := calls w ++ [data] |})
           end.

Definition handleUpload : M unit :=
  fun w =>
    match file (self w) with
    | None => setError (JStr "Please select a file") w
    | Some f =>
        seq (setLoading true) (fun _ =>
        seq (setError (JStr "")) (fun _ =>
        try_finally
          (try_catch
             (seq (lift (analyzeDiagram VITE_API_URL fetch f)) (fun result =>
              seq (lift (get_prop result "success")) (fun success =>
              if truthy success
              then seq (lift (get_prop result "data")) call_onUploadSuccess
              else seq (lift (get_prop result "message")) (fun msg =>
                   setError (or_else msg (JStr "Upload failed"))))))
             (fun err =>
                setError (or_else (JStr (message err))
                                  (JStr "An error occurred during analysis"))))
          (setLoading false))) w
    end.

Definition clearSelection : M unit :=
  seq (setFile None) (fun _ => seq (setPreview "") (fun _ => setError (JStr ""))).

(** [processFile], with the data URL the FileReader comes back with. *)
Definition processFile (selectedFile : File) (data_url : string) : M unit :=
  seq (setFile (Some selectedFile)) (fun _ =>
  seq (setError (JStr "")) (fun _ => setPreview data_url)).
End Component.

Arguments mkWorld {P} _ _ _.
Arguments self {P} _.
Arguments parent {P} _.
Arguments calls {P} _.

(** The API call succeeded and [result.success] is truthy; [data] is
    [result.data]. *)
Definition succeeds (VITE_API_URL : option string) (fetch : Request -> FetchResult)
    (f : File) (result data : JsVal) : Prop :=
  analyzeDiagram VITE_API_URL fetch f = Fulfilled result /\
  (exists success, get_prop result "success" = Fulfilled success /\
                   truthy success = true) /\
  get_prop result "data" = Fulfilled data.

End Upload.

(** ** JavaScript string methods used by the components

    A string is the sequence of its UTF-8 bytes. On well-formed text a
    prefix, substring or separator test on the bytes agrees with the same
    test on the UTF-16 code units JavaScript works on. *)

Module JsString.

(** [s.startsWith(p)]. *)
Definition startsWith (p s : string) : bool := String.prefix p s.

(** [s.includes(sub)]: [sub] occurs somewhere in [s]. *)
Fixpoint includes (sub s : string) : bool :=
  String.prefix sub s ||
  match s with
  | EmptyString => false
  | String _ s' => includes sub s'
  end.

(** [s.split(c)] for a one-character separator: never empty, and the empty
    string splits into one empty piece. *)
Fixpoint split (c : ascii) (s : string) : list string :=
  match s with
  | EmptyString => [EmptyString]
  | String a s' =>
      if Ascii.eqb a c then EmptyString :: split c s'
      else match split c s' with
           | piece :: pieces => String a piece :: pieces
           | [] => [String a EmptyString]
           end
  end.

(** [pieces.join(sep)]. *)
Fixpoint join (sep : string) (pieces : list string) : string :=
  match pieces with
  | [] => ""
  | [p] => p
  | p :: rest => p ++ sep ++ join sep rest
  end.

(** [pieces[0]] ([undefined] never arises: [split] is never empty). *)
Definition first (pieces : list string) : string := hd "" pieces.

(** [pieces.slice(1)]. *)
Definition slice1 (pieces : list string) : list string := tl pieces.

Definition lower_ascii (a : ascii) : ascii :=
  let n := nat_of_ascii a in
  if (65 <=? n)%nat && (n <=? 90)%nat then ascii_of_nat (n + 32) else a.

(** [s.toLowerCase()] on the ASCII letters, which is all the colour switch
    of the node list can tell apart. *)
Fixpoint toLowerCase (s : string) : string :=
  match s with
  | EmptyString => EmptyString
  | String a s' => String (lower_ascii a) (toLowerCase s')
  end.

(** No [c] occurs in [s]. *)
Fixpoint free_of (c : ascii) (s : string) : Prop :=
  match s with
  | EmptyString => True
  | String a s' => a <> c /\ free_of c s'
  end.

(** [a || b] on strings that may be missing: the empty string is falsy. *)
Definition or_str (a : option string) (b : option string) : option string :=
  match a with
  | Some s => if String.eqb s "" then b else Some s
  | None => b
  end.

End JsString.

(** ** components/GraphView.jsx

    The revision of the component that has the "Logical Steps" view and the
    sanity warnings. *)

Module GraphView.
Import JsString.

(** The analysis result handed to the component, typed by the output
    contract of the pipeline; a field the component guards with [||] or
    [?.] is optional. *)
Record Point : Type := mkPoint { px : Q; py : Q }.

Record Node : Type := mkNode {
  id : string;
  type : option string;
  semantic_class : option string;
  labels : option (list string);
  confidence : Q;
  center : option Point;
  area : option Q
}.

Record Edge : Type := mkEdge {
  source : string;
  target : string;
  label : option string
}.

Record Metadata : Type := mkMetadata {
  node_count : option Q;
  node_reduction_pct : option Q;
  sanity_violations : option (list string)
}.

Record LogicalGraph : Type := mkLogicalGraph { narrative : option (list string) }.
Record GraphInfo : Type := mkGraphInfo { metadata : option Metadata }.

Record Data : Type := mkData {
  nodes : option (list Node);
  edges : option (list Edge);
  logical_graph : option LogicalGraph;
  graph : option GraphInfo
}.

Inductive ViewMode : Type := graph_view | steps_view | nodes_view | edges_view | raw_view.

Definition ViewMode_eqb (a b : ViewMode) : bool :=
  match a, b with
  | graph_view, graph_view | steps_view, steps_view | nodes_view, nodes_view
  | edges_view, edges_view | raw_view, raw_view => true
  | _, _ => false
  end.

(** The component's own state: [useState(null)] and [useState('graph')]. *)
Record State : Type := mkState { expandedNode : option nat; viewMode : ViewMode }.

Definition initial : State := {| expandedNode := None; viewMode := graph_view |}.

(** [onClick={() => setViewMode(mode)}] of a control button. *)
Definition setViewMode (mode : ViewMode) (st : State) : State :=
  {| expandedNode := expandedNode st; viewMode := mode |}.

(** [onClick={() => setExpandedNode(expandedNode === idx ? null : idx)}]. *)
Definition toggleExpanded (idx : nat) (st : State) : State :=
  {| expandedNode := match expandedNode st with
                     | Some e => if (e =? idx)%nat then None else Some idx
                     | None => Some idx
                     end;
     viewMode := viewMode st |}.

(** The element tree the component returns. *)
Inductive Html : Type :=
| Elem (tag : string) (className : string) (style : list (string * string))
       (children : list Html)
| Text (s : string)
| Num (q : Q)                 (* a number child *)
| Inner (html : string)       (* a span filled through dangerouslySetInnerHTML *)
| Foreign (name : string).    (* a component of another library *)

Definition el (tag className : string) (children : list Html) : Html :=
  Elem tag className [] children.

(** [cond && element] as a child. *)
Definition when (cond : bool) (h : Html) : list Html := if cond then [h] else [].

(** [const nodes = data.nodes || []] and its three siblings. *)
Definition nodes_of (d : Data) : list Node := default [] (nodes d).
Definition edges_of (d : Data) : list Edge := default [] (edges d).

Definition narrative_of (d : Data) : list string :=
  default [] (lg ← logical_graph d; narrative lg).

(** The text [copyNarrativeToClipboard] writes: [narrative.join('\n')]. *)
Definition clipboard_text (d : Data) : string :=
  join (String (ascii_of_nat 10) EmptyString) (narrative_of d).

Definition empty_metadata : Metadata :=
  {| node_count := None; node_reduction_pct := None; sanity_violations := None |}.

Definition graphMetadata_of (d : Data) : Metadata :=
  default empty_metadata (g ← graph d; metadata g).

Definition getNodeColor (node : Node) : string :=
  let type := default "unknown" (or_str (semantic_class node) (or_str (type node) None)) in
  let t := toLowerCase type in
  if String.eqb t "start" then "#4CAF50"
  else if String.eqb t "end" then "#f44336"
  else if String.eqb t "process" then "#2196F3"
  else if String.eqb t "decision" then "#FF9800"
  else if String.eqb t "data" then "#9C27B0"
  else "#607D8B".

Definition opt_text (o : option string) : list Html :=
  match o with Some s => [Text s] | None => [] end.

Definition opt_num (o : option Q) : list Html :=
  match o with Some q => [Num q] | None => [] end.

Section Render.
(** Library routines the component calls and whose result it only
    displays: the regular-expression rewriting of [highlightText],
    [String.prototype.trim], [Number.prototype.toFixed(1)] and
    [JSON.stringify(data, null, 2)]. *)
Variable highlight : string -> string.
Variable trim : string -> string.
Variable toFixed1 : Q -> string.
Variable stringify : Data -> string.

Definition highlightText (text : string) : Html := Inner (highlight text).

Definition renderNodeDetails (node : Node) : Html :=
  el "div" "node-details"
    [ el "h4" "" (opt_text (type node) ++
                  [Text " ("; Text (default "Unclassified" (or_str (semantic_class node) None));
                   Text ")"]);
      el "p" "" [el "strong" "" [Text "ID:"]; Text " "; Text (id node)];
      el "p" "" [el "strong" "" [Text "Labels:"]; Text " ";
                 Text (default "None"
                         (or_str (join ", " <$> labels node) None))];
      el "p" "" [el "strong" "" [Text "Confidence:"]; Text " ";
                 Text (toFixed1 (confidence node * 100)); Text "%"];
      el "div" "bbox-info"
        [el "p" "" ([el "strong" "" [Text "Location:"]; Text " ("] ++
                    opt_num (px <$> center node) ++ [Text ", "] ++
                    opt_num (py <$> center node) ++ [Text ")"])] ].

Definition control_button (current mode : ViewMode) (caption : list Html) : Html :=
  el "button"
     ("control-btn " ++ (if ViewMode_eqb current mode then "active" else ""))
     caption.

Definition view_controls (d : Data) (st : State) : Html :=
  el "div" "view-controls"
    [ control_button (viewMode st) graph_view [Text "Graph Visual"];
      control_button (viewMode st) steps_view [Text "Logical Steps"];
      control_button (viewMode st) nodes_view
        [Text "Nodes ("; Num (inject_Z (Z.of_nat (length (nodes_of d)))); Text ")"];
      control_button (viewMode st) edges_view
        [Text "Edges ("; Num (inject_Z (Z.of_nat (length (edges_of d)))); Text ")"];
      control_button (viewMode st) raw_view [Text "Raw Data"] ].

Definition graph_section : Html :=
  Elem "div" "force-graph-wrapper"
    [("height", "500px"); ("border", "1px solid #eee"); ("borderRadius", "4px");
     ("overflow", "hidden")]
    [Foreign "ForceGraph2D"].

(** One entry of [narrative.map((step, idx) => ...)]. *)
Definition narrative_item (step : string) : Html :=
  el "div"
     ("narrative-item " ++ (if includes "↳" step then "indent-branch" else ""))
     [ el "span" "step-marker"
          [Text (if startsWith "Step" step then first (split ":" step) else "•")];
       el "span" "step-content"
          [highlightText (if includes ":" step
                          then trim (join ":" (slice1 (split ":" step)))
                          else step)] ].

Definition steps_section (d : Data) : Html :=
  el "div" "steps-section"
    [ el "div" "section-header-flex"
        [ el "h3" "" [Text "Intelligent Workflow Narrative"];
          el "button" "text-copy-btn" [Text "Copy to Clipboard"] ];
      if (length (narrative_of d) =? 0)%nat
      then el "p" "no-items" [Text "No logic could be interpreted from this graph."]
      else el "div" "narrative-list" (narrative_item <$> narrative_of d) ].

Definition is_expanded (st : State) (idx : nat) : bool :=
  match expandedNode st with
  | Some e => (e =? idx)%nat
  | None => false
  end.

Definition node_item (st : State) (idx : nat) (node : Node) : Html :=
  el "div" ("node-item " ++ (if is_expanded st idx then "expanded" else ""))
    ([ Elem "div" "node-header"
         [("borderLeft", "4px solid " ++ getNodeColor node)]
         [ Elem "span" "node-type-badge" [("backgroundColor", getNodeColor node)]
             (opt_text (or_str (semantic_class node) (type node)));
           el "span" "node-id" [Text (id node)];
           el "span" "node-label-preview" (opt_text (ls ← labels node; head ls));
           el "span" "expand-icon" [Text (if is_expanded st idx then "▼" else "▶")] ] ]
     ++ when (is_expanded st idx) (renderNodeDetails node)).

Definition nodes_section (d : Data) (st : State) : Html :=
  el "div" "nodes-section"
    [ el "h3" "" [Text "Detected Nodes ("; Num (inject_Z (Z.of_nat (length (nodes_of d))));
                  Text ")"];
      if (length (nodes_of d) =? 0)%nat
      then el "p" "no-items" [Text "No nodes detected"]
      else el "div" "nodes-list" (imap (node_item st) (nodes_of d)) ].

Definition edge_item (edge : Edge) : Html :=
  el "div" "edge-item"
    ([ el "p" "" [el "strong" "" [Text (source edge)]; Text " → ";
                  el "strong" "" [Text (target edge)]] ]
     ++ match or_str (label edge) None with
        | Some l => [el "p" "" [Text "Label: "; Text l]]
        | None => []
        end).

Definition edges_section (d : Data) : Html :=
  el "div" "edges-section"
    [ el "h3" "" [Text "Detected Edges ("; Num (inject_Z (Z.of_nat (length (edges_of d))));
                  Text ")"];
      if (length (edges_of d) =? 0)%nat
      then el "p" "no-items" [Text "No edges detected"]
      else el "div" "edges-list" (edge_item <$> edges_of d) ].

Definition raw_section (d : Data) : Html :=
  el "div" "raw-section"
    [ el "h3" "" [Text "Raw JSON Data"];
      el "pre" "json-display" [Text (stringify d)] ].

Definition graph_content (d : Data) (st : State) : Html :=
  el "div" "graph-content"
    [ match viewMode st with
      | graph_view => graph_section
      | steps_view => steps_section d
      | nodes_view => nodes_section d st
      | edges_view => edges_section d
      | raw_view => raw_section d
      end ].

(** One entry of [sanity_violations.map((v, i) => <li key={i}>{v}</li>)]. *)
Definition violation_item (v : string) : Html := el "li" "" [Text v].

(** [sanity_violations && sanity_violations.length > 0 && (...)]. *)
Definition sanity_check_area (m : Metadata) : list Html :=
  match sanity_violations m with
  | Some vs =>
      when (0 <? length vs)%nat
        (el "div" "sanity-check-area"
           [ el "h5" "warning-title" [Text "⚠️ Logic Sanity Warnings"];
             el "ul" "violations-list" (violation_item <$> vs) ])
  | None => []
  end.

Definition graph_metadata (m : Metadata) : Html :=
  el "div" "graph-metadata"
    ([ el "div" "metadata-header"
         [ el "h4" "" [Text "Accuracy Metrics & Logic"];
           el "span" "accuracy-badge" [Text "High Improvement"] ];
       el "div" "metrics-grid"
         [ el "div" "metric-card"
             [ el "span" "metric-label" [Text "Nodes Detected"];
               el "span" "metric-value" (opt_num (node_count m)) ];
           el "div" "metric-card highlight"
             [ el "span" "metric-label" [Text "Noise Reduction"];
               el "span" "metric-value" (opt_num (node_reduction_pct m) ++ [Text "%"]) ] ] ]
     ++ sanity_check_area m).

Definition GraphView (data : option Data) (st : State) : Html :=
  match data with
  | None =>
      el "div" "graph-view"
        [el "p" "no-data" [Text "No data to display. Upload an image first."]]
  | Some d =>
      el "div" "graph-view-container"
        [ view_controls d st; graph_content d st;
          graph_metadata (graphMetadata_of d) ]
  end.
End Render.

(** *** Reading an element tree *)

(** The class tokens of a [className]. *)
Definition class_list (className : string) : list string := split " " className.

Definition has_class (c : string) (h : Html) : bool :=
  match h with
  | Elem _ className _ _ => existsb (String.eqb c) (class_list className)
  | _ => false
  end.

(** All elements carrying class [c], in document order. *)
Fixpoint select (c : string) (h : Html) : list Html :=
  ((if has_class c h then [h] else []) ++
   match h with
   | Elem _ _ _ children =>
       (fix go (hs : list Html) : list Html :=
          match hs with
          | [] => []
          | k :: hs' => select c k ++ go hs'
          end) children
   | _ => []
   end)%list.

(** All elements with tag [t], in document order. *)
Fixpoint by_tag (t : string) (h : Html) : list Html :=
  match h with
  | Elem tag _ _ children =>
      ((if String.eqb t tag then [h] else []) ++
       (fix go (hs : list Html) : list Html :=
          match hs with
          | [] => []
          | k :: hs' => by_tag t k ++ go hs'
          end) children)%list
  | _ => []
  end.

Definition children_of (h : Html) : list Html :=
  match h with
  | Elem _ _ _ children => children
  | _ => []
  end.

End GraphView.

(** ** The detection core: Shape Detector & Merger

    The Python backend is not among the sources; this module and the two
    after it follow the design document, section by section. *)

Module Detector.

Local Open Scope Z_scope.

Inductive ShapeType : Type := circle | rectangle | diamond | polygon | unknown_shape.

Inductive SemanticClass : Type :=
| start_class | end_class | process_class | decision_class | data_class | unknown_class.

(** An axis-aligned box in pixel coordinates, by its two corners. *)
Record BBox : Type := mkBBox { x1 : Z; y1 : Z; x2 : Z; y2 : Z }.

Definition width (b : BBox) : Z := x2 b - x1 b.
Definition height (b : BBox) : Z := y2 b - y1 b.
Definition box_area (b : BBox) : Z := width b * height b.
Definition diagonal_sq (b : BBox) : Z := width b * width b + height b * height b.

(** Twice the centre, so that it stays an integer. *)
Definition centre2 (b : BBox) : Z * Z := (x1 b + x2 b, y1 b + y2 b).

Definition box_union (a b : BBox) : BBox :=
  {| x1 := Z.min (x1 a) (x1 b); y1 := Z.min (y1 a) (y1 b);
     x2 := Z.max (x2 a) (x2 b); y2 := Z.max (y2 a) (y2 b) |}.

(** [inner] lies within [outer]. *)
Definition inside (inner outer : BBox) : Prop :=
  x1 outer <= x1 inner /\ y1 outer <= y1 inner /\
  x2 inner <= x2 outer /\ y2 inner <= y2 outer.

Definition intersection_area (a b : BBox) : Z :=
  Z.max 0 (Z.min (x2 a) (x2 b) - Z.max (x1 a) (x1 b)) *
  Z.max 0 (Z.min (y2 a) (y2 b) - Z.max (y1 a) (y1 b)).

(** Modelled from the spec: the RawShape record handed over by the vision
    pre-pass (section 3 of the design document); the detector itself is not
    among the sources. *)
Record RawShape : Type := mkRawShape {
  contour : list (Z * Z);
  raw_bbox : BBox;
  raw_area : Q;
  perimeter : Q;
  circularity : Q;
  raw_confidence : Q;
  raw_type : ShapeType
}.

(** Modelled from the spec: what a merged cluster collapses into: the union
    bounding region, its area, the best confidence and the type that goes
    with it. *)
Record Merged : Type := mkMerged {
  m_bbox : BBox;
  m_area : Q;
  m_confidence : Q;
  m_type : ShapeType
}.

(** Modelled from the spec: the LogicalNode of section 3; [geometry] is the
    union bounding region the node was created with. *)
Record LogicalNode : Type := mkLogicalNode {
  id : nat;
  type : ShapeType;
  semantic_class : SemanticClass;
  center : Q * Q;
  area : Q;
  confidence : Q;
  labels : list string;
  geometry : BBox
}.

(** Modelled from the spec: the thresholds threaded through the detector
    (section 9: an explicit configuration object). *)
Record Config : Type := mkConfig {
  guard_threshold : Q;     (* Confidence Guard *)
  noise_threshold : Q;     (* Noise Flush, px^2 *)
  overlap_fraction : Q;    (* Proximal Merging: overlap beyond this fraction *)
  centre_factor : Q        (* Proximal Merging: distance / diagonal *)
}.

Definition default_thresholds (overlap centre : Q) : Config :=
  {| guard_threshold := 4 # 10; noise_threshold := 500;
     overlap_fraction := overlap; centre_factor := centre |}.

Definition Qlt_bool (a b : Q) : bool := negb (Qle_bool b a).

(** What the merger reads off a detection; both a RawShape and an
    already-merged node provide it. *)
Class Detection (A : Type) : Type := {
  bbox_of : A -> BBox;
  area_of : A -> Q;
  confidence_of : A -> Q;
  type_of : A -> ShapeType
}.

#[export] Instance RawShape_Detection : Detection RawShape :=
  {| bbox_of := raw_bbox; area_of := raw_area;
     confidence_of := raw_confidence; type_of := raw_type |}.

#[export] Instance Merged_Detection : Detection Merged :=
  {| bbox_of := m_bbox; area_of := m_area;
     confidence_of := m_confidence; type_of := m_type |}.

#[export] Instance LogicalNode_Detection : Detection LogicalNode :=
  {| bbox_of := geometry; area_of := area;
     confidence_of := confidence; type_of := type |}.

Section Merger.
Context {A : Type} `{Detection A}.
Variable cfg : Config.

(** Modelled from the spec: "drop any RawShape with confidence below a
    configured threshold before merging". *)
Definition confidence_guard (shapes : list A) : list A :=
  filter (fun s => Qle_bool (guard_threshold cfg) (confidence_of s) = true) shapes.

(** Modelled from the spec: "their bounding boxes overlap beyond a
    configured fraction", the fraction being taken of the smaller box. *)
Definition overlaps (a b : A) : bool :=
  Qlt_bool
    (overlap_fraction cfg *
     inject_Z (Z.min (box_area (bbox_of a)) (box_area (bbox_of b))))
    (inject_Z (intersection_area (bbox_of a) (bbox_of b))).

Definition smaller_box (a b : A) : BBox :=
  if box_area (bbox_of a) <=? box_area (bbox_of b) then bbox_of a else bbox_of b.

(** Modelled from the spec: "their centers lie within a distance
    proportional to the smaller shape's diagonal"; both sides squared, the
    centres doubled. *)
Definition centres_close (a b : A) : bool :=
  let '(ax, ay) := centre2 (bbox_of a) in
  let '(bx, by_) := centre2 (bbox_of b) in
  Qle_bool 0 (centre_factor cfg) &&
  Qle_bool (inject_Z ((ax - bx) * (ax - bx) + (ay - by_) * (ay - by_)))
           (4 * centre_factor cfg * centre_factor cfg *
            inject_Z (diagonal_sq (smaller_box a b))).

Definition mergeable (a b : A) : bool := overlaps a b || centres_close a b.

(** The other common reading of "overlap beyond a fraction": the fraction
    taken of the union of the two boxes; kept for comparison only. *)
Definition overlaps_of_union (a b : A) : bool :=
  Qlt_bool
    (overlap_fraction cfg *
     inject_Z (box_area (bbox_of a) + box_area (bbox_of b)
               - intersection_area (bbox_of a) (bbox_of b)))
    (inject_Z (intersection_area (bbox_of a) (bbox_of b))).

(** *** Union-find over shape indices *)

(** [parent !! i] is the parent of index [i]; a root is its own parent. *)
Fixpoint find_root (fuel : nat) (parent : list nat) (i : nat) : nat :=
  match fuel with
  | O => i
  | S fuel' =>
      match parent !! i with
      | Some p => if (p =? i)%nat then i else find_root fuel' parent p
      | None => i
      end
  end.

Definition find (parent : list nat) (i : nat) : nat :=
  find_root (length parent) parent i.

(** The root seen first (the smaller index) stays the root. *)
Definition union (parent : list nat) (i j : nat) : list nat :=
  let ri := find parent i in
  let rj := find parent j in
  if (ri =? rj)%nat then parent
  else <[Nat.max ri rj := Nat.min ri rj]> parent.

(** All index pairs [i < j] below [n], in row order. *)
Definition index_pairs (n : nat) : list (nat * nat) :=
  i ← seq 0 n; (fun j => (i, j)) <$> seq (S i) (n - S i).

Definition link_if_mergeable (shapes : list A) (parent : list nat)
    (ij : nat * nat) : list nat :=
  match shapes !! ij.1, shapes !! ij.2 with
  | Some a, Some b => if mergeable a b then union parent ij.1 ij.2 else parent
  | _, _ => parent
  end.

Definition connect (shapes : list A) : list nat :=
  foldl (link_if_mergeable shapes) (seq 0 (length shapes))
        (index_pairs (length shapes)).

(** The members of the cluster rooted at [r], in input order. *)
Definition members (shapes : list A) (parent : list nat) (r : nat) : list A :=
  omap (fun i => if (find parent i =? r)%nat then shapes !! i else None)
       (seq 0 (length shapes)).

Definition roots (parent : list nat) : list nat :=
  filter (fun i => find parent i = i) (seq 0 (length parent)).

(** *** Collapsing a cluster *)

(** The running result: the union box and the best contributor so far. *)
Record Best : Type := mkBest {
  b_bbox : BBox; b_conf : Q; b_area : Q; b_type : ShapeType
}.

Definition single (s : A) : Best :=
  {| b_bbox := bbox_of s; b_conf := confidence_of s; b_area := area_of s;
     b_type := type_of s |}.

(** Modelled from the spec: "merged type = the type of the
    highest-confidence contributor; ties broken by larger area". *)
Definition beats (s : A) (acc : Best) : bool :=
  Qlt_bool (b_conf acc) (confidence_of s) ||
  (Qeq_bool (b_conf acc) (confidence_of s) && Qlt_bool (b_area acc) (area_of s)).

(** Modelled from the spec: "merged geometry = union bounding region;
    merged confidence = maximum (not average)". *)
Definition absorb (acc : Best) (s : A) : Best :=
  {| b_bbox := box_union (b_bbox acc) (bbox_of s);
     b_conf := Qmax (b_conf acc) (confidence_of s);
     b_area := if beats s acc then area_of s else b_area acc;
     b_type := if beats s acc then type_of s else b_type acc |}.

Definition finish (b : Best) : Merged :=
  {| m_bbox := b_bbox b; m_area := inject_Z (box_area (b_bbox b));
     m_confidence := b_conf b; m_type := b_type b |}.

Definition collapse (cluster : list A) : option Merged :=
  match cluster with
  | [] => None
  | s :: rest => Some (finish (foldl absorb (single s) rest))
  end.

(** A detection read back as the merged record it stands for. *)
Definition read_back (s : A) : Merged :=
  {| m_bbox := bbox_of s; m_area := area_of s;
     m_confidence := confidence_of s; m_type := type_of s |}.

(** Parents never point forward, so a walk to the root only descends. *)
Definition descending (parent : list nat) : Prop :=
  forall i p, parent !! i = Some p -> (p <= i)%nat.

(** Modelled from the spec: Proximal Merging: connect the mergeable
    pairs, then collapse every connected component, clusters in the order
    their roots were first seen. *)
Definition merge_step (shapes : list A) : list Merged :=
  let parent := connect shapes in
  omap (fun r => collapse (members shapes parent r)) (roots parent).

(** Modelled from the spec: "after merging, drop any resulting
    LogicalNode whose area is below a configured threshold". *)
Definition noise_flush (nodes : list LogicalNode) : list LogicalNode :=
  filter (fun n => Qle_bool (noise_threshold cfg) (area n) = true) nodes.

(** Ids are given at merge time, in cluster order. *)
Definition to_node (i : nat) (m : Merged) : LogicalNode :=
  {| id := i; type := m_type m; semantic_class := unknown_class;
     center := (let '(cx, cy) := centre2 (m_bbox m) in (cx # 2, cy # 2));
     area := m_area m; confidence := m_confidence m; labels := [];
     geometry := m_bbox m |}.

(** Modelled from the spec: the Shape Detector & Merger of section 4.1:
    Confidence Guard, Proximal Merging, Noise Flush. *)
Definition detect (shapes : list A) : list LogicalNode :=
  noise_flush (imap to_node (merge_step (confidence_guard shapes))).
End Merger.

(** Modelled from the spec: the later stages only fill in [labels]
    (Label Associator) and [semantic_class] (Semantic Classifier); the
    geometry and the confidence of a node stay as the merger made them. *)
Definition populate (labels_for : LogicalNode -> list string)
    (class_for : LogicalNode -> SemanticClass) (n : LogicalNode) : LogicalNode :=
  {| id := id n; type := type n; semantic_class := class_for n;
     center := center n; area := area n; confidence := confidence n;
     labels := labels_for n; geometry := geometry n |}.

(** The node list handed to the Graph Builder and returned to the caller. *)
Definition output_nodes (cfg : Config) (labels_for : LogicalNode -> list string)
    (class_for : LogicalNode -> SemanticClass) (shapes : list RawShape)
    : list LogicalNode :=
  populate labels_for class_for <$> detect cfg shapes.

(** The merged geometry a node stands for, as the merger reads it back. *)
Definition as_merged (n : LogicalNode) : Merged :=
  {| m_bbox := geometry n; m_area := area n; m_confidence := confidence n;
     m_type := type n |}.

(** No two of the given detections are mergeable. *)
Definition none_mergeable {A} `{Detection A} (cfg : Config) (shapes : list A) : bool :=
  forallb (fun ij => negb (match shapes !! ij.1, shapes !! ij.2 with
                           | Some a, Some b => mergeable cfg a b
                           | _, _ => false
                           end))
          (index_pairs (length shapes)).

End Detector.

(** ** The detection core: Graph Builder *)

Module GraphBuilder.
Import Detector.

(** Modelled from the spec: the polarity the Semantic Classifier gives an
    edge label (section 4.3), over the closed vocabulary Yes, No, True,
    False; any other label, and no label, is [unlabeled]. *)
Inductive Polarity : Type := affirmative | negative | unlabeled.

Definition polarity_of_text (text : string) : Polarity :=
  let t := JsString.toLowerCase text in
  if String.eqb t "yes" || String.eqb t "true" then affirmative
  else if String.eqb t "no" || String.eqb t "false" then negative
  else unlabeled.

(** Modelled from the spec: the Edge of section 3. *)
Record Edge : Type := mkEdge {
  source : nat;
  target : nat;
  label : option string
}.

Definition polarity (e : Edge) : Polarity :=
  match label e with
  | Some text => polarity_of_text text
  | None => unlabeled
  end.

(** Modelled from the spec: the derived metadata of a Graph. *)
Record Metadata : Type := mkMetadata {
  node_count : nat;
  edge_count : nat;
  node_reduction_pct : Q;
  graph_type : string;
  sanity_violations : list string
}.

(** Modelled from the spec: the Graph of section 3: the nodes in detection
    order and the edges. *)
Record Graph : Type := mkGraph {
  nodes : list LogicalNode;
  edges : list Edge
}.

Definition clamp (lo hi x : Q) : Q := Qmax lo (Qmin hi x).

Definition count (n : nat) : Q := inject_Z (Z.of_nat n).

(** Modelled from the spec: "node_reduction_pct = (raw_shape_count -
    final_node_count) / raw_shape_count * 100, clamped to [0,100]; 0 if
    raw_shape_count is 0" (section 4.4); the Graph Builder is not among the
    sources. *)
Definition compute_node_reduction_pct (raw_shape_count final_node_count : nat) : Q :=
  if (raw_shape_count =? 0)%nat then 0
  else clamp 0 100
         ((count raw_shape_count - count final_node_count) / count raw_shape_count * 100).

End GraphBuilder.

(** ** The detection core: Narrative Generator *)

Module Narrative.
Import Detector GraphBuilder.

(** Modelled from the spec: one line of the Narrative of section 3, before
    it is put into words; the Narrative Generator is not among the
    sources. *)
Inductive Line : Type :=
| Linear (n : nat) (v : LogicalNode)          (* "Step n: ..." *)
| Branch (e : Edge) (revisit : bool).         (* an indented continuation *)

Definition SemanticClass_eqb (a b : SemanticClass) : bool :=
  match a, b with
  | start_class, start_class | end_class, end_class
  | process_class, process_class | decision_class, decision_class
  | data_class, data_class | unknown_class, unknown_class => true
  | _, _ => false
  end.

Definition is_start (v : LogicalNode) : bool :=
  SemanticClass_eqb (semantic_class v) start_class.

Definition is_decision (v : LogicalNode) : bool :=
  SemanticClass_eqb (semantic_class v) decision_class.

(** Modelled from the spec: "breadth-first from the (first, by node id, if
    multiple) start node". *)
Definition lowest_id (a b : LogicalNode) : LogicalNode :=
  if (id b <? id a)%nat then b else a.

Definition start_node (g : Graph) : option LogicalNode :=
  match filter (fun v => is_start v = true) (nodes g) with
  | [] => None
  | v :: rest => Some (foldl lowest_id v rest)
  end.

Definition lookup_node (g : Graph) (i : nat) : option LogicalNode :=
  List.find (fun v => (id v =? i)%nat) (nodes g).

Definition out_edges (g : Graph) (v : LogicalNode) : list Edge :=
  filter (fun e => source e = id v) (edges g).

Definition priority (p : Polarity) : nat :=
  match p with
  | affirmative => 0
  | negative => 1
  | unlabeled => 2
  end.

Definition rank (e : Edge) : nat := priority (polarity e).

(** Modelled from the spec: "polarity priority: Yes/True before No/False
    before unlabeled"; edges of one polarity keep their order. *)
Definition by_polarity (es : list Edge) : list Edge :=
  filter (fun e => rank e = 0%nat) es ++ filter (fun e => rank e = 1%nat) es ++
  filter (fun e => rank e = 2%nat) es.

(** Modelled from the spec: the outgoing edges in the order the generator
    walks them: polarity order at a decision node, edge order elsewhere. *)
Definition ordered_out_edges (g : Graph) (v : LogicalNode) : list Edge :=
  if is_decision v then by_polarity (out_edges g v) else out_edges g v.

(** Modelled from the spec: the walk over the outgoing edges of the node
    being emitted. A target not seen before is marked and queued; a
    continuation line to a node that already has its step only refers back
    to it ("a back-edge to an already-emitted node terminates that branch
    with a reference"). *)
Fixpoint expand (emitted visited : gset nat) (outs : list Edge)
    : gset nat * list nat * list Line :=
  match outs with
  | [] => (visited, [], [])
  | e :: rest =>
      if decide (target e ∈ visited)
      then let '(visited', queued, lines) := expand emitted visited rest in
           (visited', queued, Branch e (bool_decide (target e ∈ emitted)) :: lines)
      else let '(visited', queued, lines) :=
             expand emitted ({[target e]} ∪ visited) rest in
           (visited', target e :: queued, Branch e false :: lines)
  end.

(** Modelled from the spec: the breadth-first walk of section 4.5 with an
    explicit work queue and visited set. Every dequeued node is emitted as
    one linear step; a decision node is followed by one continuation line
    per outgoing edge. *)
Fixpoint bfs (fuel : nat) (g : Graph) (queue : list nat)
    (visited emitted : gset nat) (n : nat) : list Line :=
  match fuel with
  | O => []
  | S fuel' =>
      match queue with
      | [] => []
      | i :: queue' =>
          match lookup_node g i with
          | None => bfs fuel' g queue' visited emitted n
          | Some v =>
              let '(visited', queued, lines) :=
                expand ({[i]} ∪ emitted) visited (ordered_out_edges g v) in
              Linear n v :: (if is_decision v then lines else []) ++
              bfs fuel' g (queue' ++ queued) visited' ({[i]} ∪ emitted) (S n)
          end
      end
  end.

(** Every dequeue but the first answers to an edge whose target was new. *)
Definition enough_fuel (g : Graph) : nat := S (length (edges g)).

(** Modelled from the spec: "if no start node exists, return an empty
    narrative". *)
Definition generate (g : Graph) : list Line :=
  match start_node g with
  | None => []
  | Some s => bfs (enough_fuel g) g [id s] {[id s]} ∅ 1
  end.

Definition class_name (c : SemanticClass) : string :=
  match c with
  | start_class => "Start"
  | end_class => "End"
  | process_class => "Process"
  | decision_class => "Decision"
  | data_class => "Data"
  | unknown_class => "Unknown"
  end.

(** Modelled from the spec: the "semantic_class-driven phrase referencing
    labels": the labels of the node, or its class when it has none. *)
Definition phrase (v : LogicalNode) : string :=
  match labels v with
  | [] => class_name (semantic_class v)
  | ls => JsString.join " " ls
  end.

Definition target_phrase (g : Graph) (e : Edge) : string :=
  match lookup_node g (target e) with
  | Some v => phrase v
  | None => "?"
  end.

(** Modelled from the spec: the two step forms of section 3: "Step N: ..."
    and the indented "↳ ..." continuation. *)
Definition render (g : Graph) (l : Line) : string :=
  match l with
  | Linear n v => "Step " ++ pretty n ++ ": " ++ phrase v
  | Branch e revisit =>
      "  ↳ " ++ match label e with Some text => text ++ ": " | None => "" end
      ++ target_phrase g e ++ (if revisit then " (see above)" else "")
  end.

Definition narrative (g : Graph) : list string := render g <$> generate g.

Definition is_branch (l : Line) : bool :=
  match l with Branch _ _ => true | Linear _ _ => false end.

Definition branch_edge (l : Line) : option Edge :=
  match l with Branch e _ => Some e | Linear _ _ => None end.

(** The id of the node a linear step is about. *)
Definition linear_id (l : Line) : option nat :=
  match l with Linear _ v => Some (id v) | Branch _ _ => None end.

(** The number of a linear step. *)
Definition step_number (l : Line) : option nat :=
  match l with Linear n _ => Some n | Branch _ _ => None end.

(** The linear steps emitted for node [i]. *)
Definition steps_of (i : nat) (lines : list Line) : list Line :=
  filter (fun l => linear_id l = Some i) lines.

(** The ids that occur as the target of some edge. *)
Definition targets (g : Graph) : gset nat := list_to_set (target <$> edges g).

(** What is left to do: the queued nodes, and the targets not yet seen. *)
Definition potential (g : Graph) (queue : list nat) (visited : gset nat) : nat :=
  length queue + size (targets g ∖ visited).

End Narrative.

(** ** Sample inputs *)

Module Samples.
Import Js Api.

Definition diagram : File := {| file_name := "flow.png"; file_bytes := [] |}.

Definition analysis : JsVal :=
  JObj [("nodes", JArr []); ("edges", JArr [])].

(** A backend that answers every request with a successful analysis. *)
Definition backend_ok (_ : Request) : FetchResult :=
  Resolved {| ok := true; statusText := "OK";
              body_of := Parsed (JObj [("success", JBool true); ("data", analysis)]) |}.

(** A backend that answers with HTTP 500. *)
Definition backend_down (_ : Request) : FetchResult :=
  Resolved {| ok := false; statusText := "Internal Server Error";
              body_of := Malformed "Unexpected token" |}.

Definition ready : Upload.World (P := App.State) :=
  Upload.mkWorld {| Upload.file := Some diagram; Upload.loading := false;
                    Upload.error := JStr ""; Upload.preview := "data:image/png" |}
                 App.initial [].

End Samples.

Module Shapes.
Import Detector GraphBuilder.

Definition square (x1 y1 x2 y2 : Z) (conf : Q) : RawShape :=
  {| contour := [(x1, y1); (x2, y1); (x2, y2); (x1, y2)];
     raw_bbox := mkBBox x1 y1 x2 y2;
     raw_area := inject_Z ((x2 - x1) * (y2 - y1));
     perimeter := inject_Z (2 * ((x2 - x1) + (y2 - y1)));
     circularity := 785 # 1000;
     raw_confidence := conf;
     raw_type := rectangle |}.

(** The default guard and noise thresholds; shapes merge when they overlap
    by more than a tenth, or their centres are within half a diagonal. *)
Definition thresholds : Config := default_thresholds (1 # 10) (1 # 2).

(** Three detections: two squares overlapping at a corner, and a third
    square in the empty corner of their union box, touching neither. *)
Definition corner_shapes : list RawShape :=
  [ square 0 0 100 100 (9 # 10); square 50 50 150 150 (8 # 10);
    square 101 0 150 49 (7 # 10) ].

(** Thresholds under which overlap never merges (no overlap exceeds the
    whole of the smaller box): only the centre criterion is left, at three
    quarters of a diagonal. *)
Definition centre_only : Config := default_thresholds 1 (3 # 4).

(** Two broad bars forming an L, and a small square in the free corner,
    next to the centre of the L's bounding box. *)
Definition ell_shapes : list RawShape :=
  [ square 0 0 200 100 (9 # 10); square 0 0 100 200 (8 # 10);
    square 100 100 140 140 (7 # 10) ].

(** Two detections far from each other. *)
Definition apart_shapes : list RawShape :=
  [ square 0 0 100 100 (9 # 10); square 1000 1000 1100 1100 (8 # 10) ].

Definition node (i : nat) (c : SemanticClass) (t : ShapeType) (text : string)
    : LogicalNode :=
  {| id := i; type := t; semantic_class := c; center := (50 # 1, 50 # 1);
     area := 10000; confidence := 9 # 10; labels := [text];
     geometry := mkBBox 0 0 100 100 |}.

Definition check : LogicalNode := node 1 decision_class diamond "Valid?".

(** Start, a decision with a "No" and a "Yes" edge (in that order), two
    processes, End. *)
Definition flow : Graph :=
  {| nodes := [ node 0 start_class circle "Start"; check;
                node 2 process_class rectangle "Reject";
                node 3 process_class rectangle "Accept";
                node 4 end_class circle "End" ];
     edges := [ mkEdge 0 1 None; mkEdge 1 2 (Some "No"); mkEdge 1 3 (Some "Yes");
                mkEdge 2 4 None; mkEdge 3 4 None ] |}.

(** The three-node scenario of the design document: Start, Process A,
    End. *)
Definition straight : Graph :=
  {| nodes := [ node 0 start_class circle "Start";
                node 1 process_class rectangle "Process A";
                node 2 end_class circle "End" ];
     edges := [ mkEdge 0 1 None; mkEdge 1 2 None ] |}.

(** The same diagram cut short, its first circle classified as a process:
    no node is a start. *)
Definition headless : Graph :=
  {| nodes := [ node 0 process_class circle "Begin"; check;
                node 2 process_class rectangle "Reject" ];
     edges := [ mkEdge 0 1 None; mkEdge 1 2 (Some "No") ] |}.

End Shapes.

(** ** components/GraphView.jsx: the markup of [highlightText] *)

Module Highlight.
Import JsString.

(** [\w] of a regular expression without the [u] flag: [A-Za-z0-9_]. A
    byte of a multi-byte character is no word character, as the
    character itself is none. *)
Definition is_word_char (a : ascii) : bool :=
  let n := nat_of_ascii a in
  ((65 <=? n)%nat && (n <=? 90)%nat) || ((97 <=? n)%nat && (n <=? 122)%nat) ||
  ((48 <=? n)%nat && (n <=? 57)%nat) || (n =? 95)%nat.

Definition quote : string := String (ascii_of_nat 34) EmptyString.

(** The replacement [<span class="hl-${word.toLowerCase()}">$&</span>] for
    the matched text [found]. *)
Definition mark (word found : string) : string :=
  "<span class=" ++ quote ++ "hl-" ++ toLowerCase word ++ quote ++ ">" ++
  found ++ "</span>".

(** Whether a run of word characters is what [\bword\b] matches under
    the [i] flag. *)
Definition matches (word run : string) : bool :=
  String.eqb (toLowerCase run) (toLowerCase word).

Definition close (word run : string) : string :=
  if matches word run then mark word run else run.

(** [text.replace(new RegExp(`\\b${word}\\b`, 'gi'), ...)]. A match of
    [\bword\b] starts and ends at a word boundary and holds word characters
    only, so it is a maximal run of word characters; the scan collects each
    maximal run in [run] and replaces the runs that spell [word]. *)
Fixpoint replace_from (word run s : string) : string :=
  match s with
  | EmptyString => close word run
  | String a s' =>
      if is_word_char a then replace_from word (run ++ String a EmptyString) s'
      else close word run ++ String a (replace_from word EmptyString s')
  end.

Definition replace_word (word text : string) : string :=
  replace_from word EmptyString text.

Definition words : list string := ["Start"; "End"; "Decision"; "action"].

(** The markup [highlightText] hands to [dangerouslySetInnerHTML]:
    [words.forEach(word => { highlighted = highlighted.replace(...) })]. *)
Definition highlight (text : string) : string :=
  fold_left (fun highlighted word => replace_word word highlighted) words text.

Fixpoint all_word_chars (s : string) : bool :=
  match s with
  | EmptyString => true
  | String a s' => is_word_char a && all_word_chars s'
  end.

End Highlight.

(** ** components/GraphView.jsx: what the tree can carry *)

Module Dom.
Import JsString GraphView.

(** Every class token that occurs in a tree, in document order. *)
Fixpoint classes (h : Html) : list string :=
  match h with
  | Elem _ className _ children =>
      (class_list className ++
       (fix go (hs : list Html) : list string :=
          match hs with
          | [] => []
          | k :: hs' => classes k ++ go hs'
          end) children)%list
  | _ => []
  end.

(** The class tokens each part of the view is written with. *)
Definition details_classes : list string := ["node-details"; ""; "bbox-info"].

Definition controls_classes : list string :=
  ["view-controls"; "control-btn"; "active"; ""].

Definition narrative_item_classes : list string :=
  ["narrative-item"; "indent-branch"; ""; "step-marker"; "step-content"].

Definition node_item_classes : list string :=
  ["node-item"; "expanded"; ""; "node-header"; "node-type-badge"; "node-id";
   "node-label-preview"; "expand-icon"; "node-details"; "bbox-info"].

Definition edge_item_classes : list string := ["edge-item"; ""].

(** The class that marks the section of a view mode, and the classes
    written inside that section. *)
Definition section_class (mode : ViewMode) : string :=
  match mode with
  | graph_view => "force-graph-wrapper"
  | steps_view => "steps-section"
  | nodes_view => "nodes-section"
  | edges_view => "edges-section"
  | raw_view => "raw-section"
  end.

Definition inner_classes (mode : ViewMode) : list string :=
  match mode with
  | graph_view => []
  | steps_view =>
      (["section-header-flex"; ""; "text-copy-btn"; "no-items"; "narrative-list"] ++
       narrative_item_classes)%list
  | nodes_view => ([""; "no-items"; "nodes-list"] ++ node_item_classes)%list
  | edges_view => ([""; "no-items"; "edges-list"] ++ edge_item_classes)%list
  | raw_view => [""; "json-display"]
  end.

Definition content_classes (mode : ViewMode) : list string :=
  "graph-content" :: section_class mode :: inner_classes mode.

Definition metadata_inner_classes : list string :=
  ["metadata-header"; ""; "accuracy-badge"; "metrics-grid"; "metric-card";
   "highlight"; "metric-label"; "metric-value"; "sanity-check-area";
   "warning-title"; "violations-list"].

Definition metadata_classes : list string := "graph-metadata" :: metadata_inner_classes.

(** The caption of the control button of a view mode. *)
Definition caption (d : Data) (mode : ViewMode) : list Html :=
  match mode with
  | graph_view => [Text "Graph Visual"]
  | steps_view => [Text "Logical Steps"]
  | nodes_view =>
      [Text "Nodes ("; Num (inject_Z (Z.of_nat (length (nodes_of d)))); Text ")"]
  | edges_view =>
      [Text "Edges ("; Num (inject_Z (Z.of_nat (length (edges_of d)))); Text ")"]
  | raw_view => [Text "Raw Data"]
  end.

(** The section [graph_content] holds for the current view mode. *)
Definition current_section (highlight trim : string -> string) (toFixed1 : Q -> string)
    (stringify : Data -> string) (d : Data) (st : State) : Html :=
  match viewMode st with
  | graph_view => graph_section
  | steps_view => steps_section highlight trim d
  | nodes_view => nodes_section toFixed1 d st
  | edges_view => edges_section d
  | raw_view => raw_section stringify d
  end.

(** The line break [copyNarrativeToClipboard] joins the steps with. *)
Definition newline : ascii := ascii_of_nat 10.

(** A node with its [semantic_class] replaced. *)
Definition with_class (node : Node) (c : option string) : Node :=
  {| id := id node; type := type node; semantic_class := c; labels := labels node;
     confidence := confidence node; center := center node; area := area node |}.

(** The cases of the colour switch. *)
Definition palette : list (string * string) :=
  [("start", "#4CAF50"); ("end", "#f44336"); ("process", "#2196F3");
   ("decision", "#FF9800"); ("data", "#9C27B0")].

End Dom.

(** ** components/Upload.jsx: the handlers around [handleUpload] *)

Module UploadEvents.
Import Js Api Upload.

(** [classList.add(token)] and [classList.remove(token)] on the ordered
    token set of an element. *)
Definition classList_add (token : string) (classList : list string) : list string :=
  if bool_decide (token ∈ classList) then classList else (classList ++ [token])%list.

Definition classList_remove (token : string) (classList : list string) : list string :=
  filter (fun t => t <> token) classList.

(** [handleDragOver] and [handleDragLeave], on [e.currentTarget.classList]. *)
Definition handleDragOver (classList : list string) : list string :=
  classList_add "drag-active" classList.

Definition handleDragLeave (classList : list string) : list string :=
  classList_remove "drag-active" classList.

Section Component.
Context {P : Type}.
Variable onUploadSuccess : JsVal -> P -> Outcome unit * P.
Variable VITE_API_URL : option string.

(** What [processFile] does before it returns: the file and the error are
    set and the FileReader is started. *)
Definition processFile_started (selectedFile : File) : M (P := P) unit :=
  seq (setFile (Some selectedFile)) (fun _ => setError (JStr "")).

(** [reader.onload]: the reader comes back, later, with the data URL. *)
Definition reader_onload (result : string) : M (P := P) unit := setPreview result.

(** [handleFileSelect], on [event.target.files]. *)
Definition handleFileSelect (files : list File) : M (P := P) unit :=
  match files with
  | selectedFile :: _ => processFile_started selectedFile
  | [] => ret tt
  end.

(** [handleDrop], on [e.currentTarget.classList] and [e.dataTransfer.files]. *)
Definition handleDrop (classList : list string) (droppedFiles : list File)
    : list string * M (P := P) unit :=
  (classList_remove "drag-active" classList,
   if (0 <? length droppedFiles)%nat
   then match droppedFiles with
        | first :: _ => processFile_started first
        | [] => ret tt
        end
   else ret tt).

(** The world an upload attempt ends in: only the error, the parent and
    the call log can differ from the world it started in. *)
Definition settled (w : World (P := P)) (err : JsVal) (p : P) (cs : list JsVal)
    : World :=
  mkWorld {| file := file (self w); loading := false; error := err;
             preview := preview (self w) |} p cs.

(** [err.message || 'An error occurred during analysis']. *)
Definition shown (e : JsError) : JsVal :=
  or_else (JStr (message e)) (JStr "An error occurred during analysis").

(** What can happen to the component, one handler run at a time. The
    button that runs [handleUpload] is disabled while no file is selected
    or an upload is under way; the handler is modelled whether or not the
    button lets the click through. *)
Inductive Event : Type :=
| FilesSelected (files : list File)
| FilesDropped (files : list File)
| ReaderLoaded (result : string)
| RemoveClicked
| AnalyzeClicked (fetch : Request -> FetchResult).

Definition handler (e : Event) : M (P := P) unit :=
  match e with
  | FilesSelected files => handleFileSelect files
  | FilesDropped files => (handleDrop [] files).2
  | ReaderLoaded result => reader_onload result
  | RemoveClicked => clearSelection
  | AnalyzeClicked fetch => handleUpload onUploadSuccess VITE_API_URL fetch
  end.

Definition after (es : list Event) (w : World) : World :=
  fold_left (fun w e => (handler e w).2) es w.

(** [useState(null)], [useState(false)], [useState('')], [useState('')]. *)
Definition mounted (p : P) : World :=
  mkWorld {| file := None; loading := false; error := JStr ""; preview := "" |} p [].

Definition is_attempt (e : Event) : bool :=
  match e with AnalyzeClicked _ => true | _ => false end.

Definition attempts (es : list Event) : nat := length (List.filter is_attempt es).
End Component.

End UploadEvents.

(** ** App.jsx: what the root component renders *)

Module AppView.
Import Js Api GraphView App.

Section Render.
(** [new Date().getFullYear()] and the elements of the two child
    components, [<Upload onUploadSuccess={handleUploadSuccess} />] and
    [<GraphView data={analysisResult} />]. *)
Variable year : Q.
Variable Upload_element : Html.
Variable GraphView_element : JsVal -> Html.

Definition status_pill (s : State) : Html :=
  el "div" ("status-pill " ++ apiStatus s)
    ([el "span" "status-dot" []] ++
     when (String.eqb (apiStatus s) "connected") (Text "System Ready") ++
     when (String.eqb (apiStatus s) "checking") (Text "Connecting...") ++
     when (String.eqb (apiStatus s) "disconnected") (Text "Offline"))%list.

Definition main_nav (s : State) : Html :=
  el "header" "main-nav"
    [ el "div" "nav-content"
        [ el "div" "brand"
            [ el "span" "brand-logo" [];
              el "div" ""
                [ el "h1" "" [Text "NodeDetection"];
                  el "p" "brand-tagline" [Text "Structured Graph Extraction"] ] ];
          status_pill s ] ].

(** [{errorMessage && (<div className="critical-alert">...</div>)}]. *)
Definition critical_alert (s : State) : list Html :=
  when (negb (String.eqb (errorMessage s) ""))
       (el "div" "critical-alert" [Text (errorMessage s)]).

Definition tool_panel : Html :=
  el "aside" "tool-panel"
    [ el "div" "panel-header"
        [ el "h3" "" [Text "Input Diagram"];
          el "p" "" [Text "Upload your image for AI processing"] ];
      Upload_element ].

(** [analysisResult ? (...) : (...)]. *)
Definition viewport_panel (s : State) : Html :=
  el "section" "viewport-panel"
    [ if truthy (analysisResult s)
      then el "div" "result-container"
             [ el "div" "viewport-header"
                 [ el "h3" "" [Text "Graph Visualization"];
                   el "button" "ghost-btn" [Text "Reset"] ];
               el "div" "canvas-wrapper" [GraphView_element (analysisResult s)] ]
      else el "div" "empty-state"
             [ el "div" "empty-icon" [Text "📊"];
               el "h3" "" [Text "No Data Processed"];
               el "p" "" [Text "Upload a file on the left to begin analysis"] ] ].

Definition workspace (s : State) : Html :=
  el "main" "workspace"
    (critical_alert s ++
     [el "div" "grid-layout" [tool_panel; viewport_panel s]])%list.

Definition main_footer : Html :=
  el "footer" "main-footer"
    [el "p" "" [Text "© "; Num year; Text " NodeDetection System • v1.0.4"]].

Definition App (s : State) : Html :=
  el "div" "app-shell" [main_nav s; workspace s; main_footer].
End Render.

(** What can happen to the root component: the effect run on mount, with
    the network it meets; [Upload] calling [onUploadSuccess(data)]; a
    click on Reset. *)
Inductive Event : Type :=
| Mounted (fetch : Request -> FetchResult)
| UploadSucceeded (data : JsVal)
| ResetClicked.

Definition handler (env : option string) (e : Event) (s : State) : State :=
  match e with
  | Mounted fetch => checkApiHealth env fetch s
  | UploadSucceeded data => (handleUploadSuccess data s).2
  | ResetClicked => handleClearResults s
  end.

Definition after (env : option string) (es : list Event) (s : State) : State :=
  fold_left (fun s e => handler env e s) es s.

End AppView.

(** ** More sample inputs *)

Module Screens.
Import GraphView.

Definition entry : Node :=
  {| id := "n0"; type := Some "circle"; semantic_class := Some "start";
     labels := Some ["Begin"]; confidence := 1 # 2; center := None; area := None |}.

Definition arrow : Edge := {| source := "n0"; target := "n1"; label := Some "Yes" |}.

(** A result with one node and one edge and nothing else. *)
Definition small : Data :=
  {| nodes := Some [entry]; edges := Some [arrow]; logical_graph := None;
     graph := None |}.

Definition node_list : State := {| expandedNode := None; viewMode := nodes_view |}.
Definition edge_list : State := {| expandedNode := None; viewMode := edges_view |}.

(** Stand-ins for the library routines. *)
Definition same (s : string) : string := s.
Definition percent (_ : Q) : string := "50.0".
Definition braces (_ : Data) : string := "{}".

End Screens.

Module Attempts.
Import Js Api Upload UploadEvents.

(** A parent whose handler throws. *)
Definition failing_handler (_ : JsVal) (p : unit) : Outcome unit * unit :=
  (Rejected (mkError Error "render failed"), p).

(** A backend that answers the analysis request with [success: false]. *)
Definition backend_refuses (_ : Request) : FetchResult :=
  Resolved {| ok := true; statusText := "OK";
              body_of := Parsed (JObj [("success", JBool false);
                                       ("message", JStr "No shapes found")]) |}.

(** A backend that reports success and sends no data along. *)
Definition backend_forgets (_ : Request) : FetchResult :=
  Resolved {| ok := true; statusText := "OK";
              body_of := Parsed (JObj [("success", JBool true)]) |}.

Definition chosen : World (P := unit) :=
  mkWorld {| file := Some Samples.diagram; loading := false; error := JStr "";
             preview := "data:image/png" |} tt [].

End Attempts.

(** * Properties *)

(** ** Strings *)

Module StringFacts.
Import JsString.

Lemma prefix_iff (p s : string) :
  String.prefix p s = true <-> exists rest, s = p ++ rest.
Proof.
  revert s; induction p as [|a p IH]; intros s.
  - split; [intros _; now exists s | intros _; now destruct s].
  - destruct s as [|b s]; simpl.
    + split; [discriminate | intros [rest Hr]; discriminate].
    + destruct (ascii_dec a b) as [->|Hab].
      * rewrite IH. split; intros [rest Hr]; exists rest.
        -- now rewrite Hr.
        -- now injection Hr.
      * split; [discriminate | intros [rest Hr]; injection Hr as -> _; contradiction].
Qed.

Lemma append_assoc (a b c : string) : (a ++ b) ++ c = a ++ (b ++ c).
Proof. induction a as [|x a IH]; simpl; [reflexivity | now rewrite IH]. Qed.

Lemma includes_empty (sub : string) :
  includes sub "" = String.prefix sub "" || false.
Proof. reflexivity. Qed.

Lemma includes_cons (sub : string) (c : ascii) (s : string) :
  includes sub (String c s) = String.prefix sub (String c s) || includes sub s.
Proof. reflexivity. Qed.

(** [includes] finds exactly the strings that have [sub] as a substring. *)
Lemma includes_iff (sub s : string) :
  includes sub s = true <-> exists before after, s = before ++ sub ++ after.
Proof.
  induction s as [|c s IH].
  - rewrite includes_empty, orb_false_r, prefix_iff. split.
    + intros [rest ->]. now exists "", rest.
    + intros [before [after Hs]]. destruct before; [now exists after | discriminate].
  - rewrite includes_cons, orb_true_iff, prefix_iff, IH. split.
    + intros [[rest ->] | [before [after ->]]].
      * now exists "", rest.
      * now exists (String c before), after.
    + intros [before [after Hs]]. destruct before as [|b before].
      * left. now exists after.
      * right. simpl in Hs. injection Hs as -> ->. now exists before, after.
Qed.

Lemma includes_app (before sub after : string) :
  includes sub (before ++ sub ++ after) = true.
Proof. apply includes_iff. now exists before, after. Qed.

Lemma split_nonempty (c : ascii) (s : string) : split c s <> [].
Proof.
  induction s as [|a s IH]; simpl; [discriminate|].
  destruct (Ascii.eqb a c); [discriminate|].
  destruct (split c s); [contradiction | discriminate].
Qed.

(** The first piece of [split] is the text before the first separator, or
    the whole string when there is none. *)
Lemma first_split (c : ascii) (s : string) :
  free_of c (first (split c s)) /\
  (s = first (split c s) \/
   exists rest, s = first (split c s) ++ String c rest).
Proof.
  induction s as [|a s [IHfree IHshape]]; simpl.
  - split; [exact I | now left].
  - destruct (Ascii.eqb_spec a c) as [->|Hac]; simpl.
    + split; [exact I | right; now exists s].
    + pose proof (split_nonempty c s) as Hne.
      destruct (split c s) as [|piece pieces]; [contradiction|]. simpl in *.
      split; [now split|].
      destruct IHshape as [->|[rest ->]]; [now left | right; now exists rest].
Qed.

End StringFacts.

(** ** services/api.js *)

Module ApiFacts.
Import Js Api JsString StringFacts.

Section Client.
Variable env : option string.
Variable fetch : Request -> FetchResult.

Lemma analyzeDiagram_resolved (file : File) (r : Response) :
  fetch (analyze_request env file) = Resolved r ->
  analyzeDiagram env fetch file =
    if ok r then json r
    else Rejected (mkError Error ("Analysis failed: " ++ statusText r)).
Proof.
  intros Hf. unfold analyzeDiagram. rewrite Hf. simpl. now destruct (ok r).
Qed.

Lemma analyzeDiagram_network_failure (file : File) (msg : string) :
  fetch (analyze_request env file) = NetworkFailure msg ->
  analyzeDiagram env fetch file = Rejected (mkError TypeError msg).
Proof. intros Hf. unfold analyzeDiagram. now rewrite Hf. Qed.

Lemma json_never_plain_error (r : Response) (msg : string) :
  json r <> Rejected (mkError Error msg).
Proof. unfold json. destruct (body_of r); discriminate. Qed.
End Client.

(** C6: [analyzeDiagram] throws the error "Analysis failed: <statusText>"
    exactly when the /analyze response is not ok, its message carrying both
    the marker and the status text; for an ok response it returns what
    [response.json()] gives, the parsed body; and a response that is not ok
    is never turned into a returned value. *)
Theorem analyzeDiagram_surfaces_failure
    (env : option string) (fetch : Request -> FetchResult) (file : File) :
  let result := analyzeDiagram env fetch file in
  ((exists msg, result = Rejected (mkError Error msg)) <->
   (exists r, fetch (analyze_request env file) = Resolved r /\ ok r = false)) /\
  (forall r, fetch (analyze_request env file) = Resolved r ->
     (ok r = false ->
        exists msg, result = Rejected (mkError Error msg) /\
                    msg = "Analysis failed: " ++ statusText r /\
                    includes "Analysis failed:" msg = true /\
                    includes (statusText r) msg = true) /\
     (ok r = true -> result = json r) /\
     (forall v, ok r = true -> body_of r = Parsed v -> result = Fulfilled v) /\
     (forall v, result = Fulfilled v -> ok r = true /\ body_of r = Parsed v)).
Proof.
  intros result. subst result. split.
  - split.
    + intros [msg Hres].
      destruct (fetch (analyze_request env file)) as [r|m] eqn:Hf.
      * exists r. split; [reflexivity|].
        rewrite (analyzeDiagram_resolved env fetch file r Hf) in Hres.
        destruct (ok r); [|reflexivity].
        now apply json_never_plain_error in Hres.
      * rewrite (analyzeDiagram_network_failure env fetch file m Hf) in Hres.
        discriminate.
    + intros [r [Hf Hok]].
      rewrite (analyzeDiagram_resolved env fetch file r Hf), Hok. eauto.
  - intros r Hf. rewrite (analyzeDiagram_resolved env fetch file r Hf).
    split_and!.
    + intros ->. eexists. split; [reflexivity|]. split; [reflexivity|]. split.
      * apply (includes_app "" "Analysis failed:" (String " " (statusText r))).
      * replace ("Analysis failed: " ++ statusText r)
          with ("Analysis failed: " ++ statusText r ++ "").
        -- apply includes_app.
        -- f_equal. clear. induction (statusText r) as [|a s IH]; simpl; congruence.
    + now intros ->.
    + intros v -> Hb. unfold json. now rewrite Hb.
    + intros v Hres. destruct (ok r); [|discriminate]. split; [reflexivity|].
      unfold json in Hres. destruct (body_of r); congruence.
Qed.

(** C9: [healthCheck] never throws and always yields a boolean, which is
    [true] exactly when the fetch of /health resolved with an ok response;
    a rejected fetch gives [false]. *)
Theorem healthCheck_total (env : option string) (fetch : Request -> FetchResult) :
  exists b : bool,
    healthCheck env fetch = Fulfilled b /\
    (b = true <->
     exists r, fetch (health_request env) = Resolved r /\ ok r = true) /\
    (forall msg, fetch (health_request env) = NetworkFailure msg -> b = false).
Proof.
  unfold healthCheck, try_catch, bind.
  destruct (fetch (health_request env)) as [r|m] eqn:Hf; simpl.
  - exists (ok r). split; [reflexivity|]. split; [|discriminate]. split.
    + intros Hok. now exists r.
    + intros [r' [Hr Hok]]. now injection Hr as ->.
  - exists false. split; [reflexivity|]. split; [|reflexivity]. split.
    + discriminate.
    + intros [r [Hr _]]. discriminate.
Qed.

End ApiFacts.

(** ** components/Upload.jsx *)

Module UploadFacts.
Import Js Api Upload.

Lemma or_else_truthy (a b : JsVal) : truthy b = true -> truthy (or_else a b) = true.
Proof. intros Hb. unfold or_else. now destruct (truthy a) eqn:Ha. Qed.

Lemma app_singleton_neq {A} (l : list A) (x : A) : (l ++ [x])%list <> l.
Proof.
  intros Heq. apply (f_equal length) in Heq. rewrite length_app in Heq.
  simpl in Heq. lia.
Qed.

(** With no file selected nothing is sent: only the error message is set. *)
Lemma handleUpload_no_file {P} (cb : JsVal -> P -> Outcome unit * P)
    (env : option string) (fetch : Request -> FetchResult) (w : World) :
  file (self w) = None ->
  handleUpload cb env fetch w =
    (Fulfilled tt,
     mkWorld {| file := None; loading := loading (self w);
                error := JStr "Please select a file";
                preview := preview (self w) |}
             (parent w) (calls w)).
Proof.
  intros Hfile. unfold handleUpload. rewrite Hfile.
  unfold setError, modify_self. now rewrite Hfile.
Qed.

(** C10: an upload attempt with a file selected, whatever handler the
    parent passes as [onUploadSuccess]. The handler is called, once and
    with [result.data], exactly when the API call succeeds and
    [result.success] is truthy; on every failure no call is made, the
    parent's state (the displayed analysis result) is untouched and only
    the component's error message changes; [loading] ends up [false] in
    every outcome, and [handleUpload] itself never throws. *)
Theorem handleUpload_atomic {P : Type} (onUploadSuccess : JsVal -> P -> Outcome unit * P)
    (env : option string) (fetch : Request -> FetchResult) (w : World) (f : File) :
  file (self w) = Some f ->
  let out := handleUpload onUploadSuccess env fetch w in
  out.1 = Fulfilled tt /\
  loading (self out.2) = false /\
  file (self out.2) = file (self w) /\
  preview (self out.2) = preview (self w) /\
  (forall result data, succeeds env fetch f result data ->
     calls out.2 = (calls w ++ [data])%list /\
     parent out.2 = (onUploadSuccess data (parent w)).2 /\
     ((onUploadSuccess data (parent w)).1 = Fulfilled tt ->
      error (self out.2) = JStr "")) /\
  (calls out.2 <> calls w ->
     exists result data, succeeds env fetch f result data) /\
  ((forall result data, ~ succeeds env fetch f result data) ->
     calls out.2 = calls w /\ parent out.2 = parent w /\
     truthy (error (self out.2)) = true).
Proof.
  intros Hfile out. subst out. unfold handleUpload. rewrite Hfile.
  unfold succeeds.
  destruct (analyzeDiagram env fetch f) as [result|e] eqn:Hcall;
    [destruct (get_prop result "success") as [success|e] eqn:Hsucc;
     [destruct (truthy success) eqn:Htruthy;
      [destruct (get_prop result "data") as [data|e] eqn:Hdata;
       [destruct (onUploadSuccess data (parent w)) as [[[]|e] p'] eqn:Hcb
       |destruct result; simpl in Hsucc, Hdata; discriminate]
      |destruct (get_prop result "message") as [msg|e] eqn:Hmsg;
       [|destruct result; simpl in Hsucc, Hmsg; discriminate]]|]|].
  all: unfold seq, try_finally, try_catch, lift, call_onUploadSuccess,
         setLoading, setError, modify_self; simpl;
       rewrite ?Hsucc; simpl; rewrite ?Htruthy, ?Hdata, ?Hmsg; simpl;
       rewrite ?Hcb; simpl.
  all: split_and!; try done.
  all: try (intros r d (Hr & (s & Hs & Ht) & Hd); try injection Hr as <-;
            first [congruence
                  | assert (d = data) as -> by congruence; rewrite Hcb;
                    split_and!; try done; congruence ]).
  all: try (intros _; exists result, data; split_and!; eauto; done).
  all: try (intros Hnone; exfalso; apply (Hnone result data); split_and!; eauto; done).
  all: try (intros _; split_and!; try done; now apply or_else_truthy).
Qed.

(** The handler App.jsx passes down shows the data it is given. *)
Lemma handleUploadSuccess_shows (data : JsVal) (s : App.State) :
  (App.handleUploadSuccess data s).1 = Fulfilled tt /\
  App.analysisResult (App.handleUploadSuccess data s).2 = data /\
  App.errorMessage (App.handleUploadSuccess data s).2 = "".
Proof. split_and!; reflexivity. Qed.

Lemma handleUpload_atomic_witness :
  file (self Samples.ready) = Some Samples.diagram /\
  loading (self (handleUpload App.handleUploadSuccess None Samples.backend_ok
                   Samples.ready).2) = false /\
  calls (handleUpload App.handleUploadSuccess None Samples.backend_ok
           Samples.ready).2 = [Samples.analysis] /\
  App.analysisResult
    (parent (handleUpload App.handleUploadSuccess None Samples.backend_ok
               Samples.ready).2) = Samples.analysis.
Proof.
  split; [reflexivity|].
  destruct (handleUpload_atomic App.handleUploadSuccess None Samples.backend_ok
              Samples.ready Samples.diagram eq_refl)
    as (_ & Hloading & _ & _ & Hok & _).
  split; [exact Hloading|].
  destruct (Hok (JObj [("success", JBool true); ("data", Samples.analysis)])
                Samples.analysis) as (Hcalls & Hparent & _).
  { repeat split. exists (JBool true). split; reflexivity. }
  split; [exact Hcalls|]. rewrite Hparent. reflexivity.
Defined.

(** A backend answering HTTP 500: the error is shown, nothing else moves. *)
Example upload_against_failing_backend :
  handleUpload App.handleUploadSuccess None Samples.backend_down Samples.ready =
    (Fulfilled tt,
     mkWorld {| file := Some Samples.diagram; loading := false;
                error := JStr "Analysis failed: Internal Server Error";
                preview := "data:image/png" |}
             App.initial []).
Proof. reflexivity. Qed.

End UploadFacts.

(** ** components/GraphView.jsx *)

Module GraphViewFacts.
Import JsString StringFacts GraphView.

(** [select] and [by_tag] collect over the children with [flat_map]. *)
Lemma select_elem (c tag cn : string) (st : list (string * string)) (kids : list Html) :
  select c (Elem tag cn st kids) =
    ((if has_class c (Elem tag cn st kids) then [Elem tag cn st kids] else []) ++
     flat_map (select c) kids)%list.
Proof. reflexivity. Qed.

Lemma by_tag_elem (t tag cn : string) (st : list (string * string)) (kids : list Html) :
  by_tag t (Elem tag cn st kids) =
    ((if String.eqb t tag then [Elem tag cn st kids] else []) ++
     flat_map (by_tag t) kids)%list.
Proof. reflexivity. Qed.

Lemma flat_map_singletons {A B} (f : A -> B) (g : B -> list B) (l : list A) :
  (forall x, g (f x) = [f x]) -> flat_map g (f <$> l) = f <$> l.
Proof.
  intros Hg. induction l as [|a l IH]; [reflexivity|].
  cbn. now rewrite Hg, IH.
Qed.

Lemma flat_map_fmap_nil {A B C} (g : B -> list C) (f : A -> B) (l : list A) :
  (forall x, g (f x) = []) -> flat_map g (f <$> l) = [].
Proof.
  intros Hg. induction l as [|a l IH]; [reflexivity|]. cbn. now rewrite Hg, IH.
Qed.

Lemma flat_map_imap_nil {A B C} (g : B -> list C) (f : nat -> A -> B) (l : list A) :
  (forall i x, g (f i x) = []) -> flat_map g (imap f l) = [].
Proof.
  revert f. induction l as [|a l IH]; intros f Hg; [reflexivity|].
  cbn. rewrite Hg, IH; [reflexivity|]. intros i x. apply Hg.
Qed.

Lemma select_text c s : select c (Text s) = []. Proof. reflexivity. Qed.
Lemma select_num c q : select c (Num q) = []. Proof. reflexivity. Qed.
Lemma select_inner c s : select c (Inner s) = []. Proof. reflexivity. Qed.
Lemma select_foreign c s : select c (Foreign s) = []. Proof. reflexivity. Qed.
Lemma by_tag_text c s : by_tag c (Text s) = []. Proof. reflexivity. Qed.
Lemma by_tag_num c q : by_tag c (Num q) = []. Proof. reflexivity. Qed.
Lemma by_tag_inner c s : by_tag c (Inner s) = []. Proof. reflexivity. Qed.
Lemma by_tag_foreign c s : by_tag c (Foreign s) = []. Proof. reflexivity. Qed.

(** Decide a class or tag test whose operands are literals. *)
Ltac decide_test :=
  match goal with
  | |- context [has_class ?c (Elem ?t ?cn ?st ?kids)] =>
      let b := eval vm_compute in (existsb (String.eqb c) (class_list cn)) in
      match b with
      | true => change (has_class c (Elem t cn st kids)) with true
      | false => change (has_class c (Elem t cn st kids)) with false
      end
  | |- context [String.eqb ?a ?b] =>
      let r := eval vm_compute in (String.eqb a b) in
      match r with
      | true => change (String.eqb a b) with true
      | false => change (String.eqb a b) with false
      end
  end.

Lemma select_opt_text c o : flat_map (select c) (opt_text o) = [].
Proof. now destruct o. Qed.
Lemma select_opt_num c o : flat_map (select c) (opt_num o) = [].
Proof. now destruct o. Qed.
Lemma by_tag_opt_text t o : flat_map (by_tag t) (opt_text o) = [].
Proof. now destruct o. Qed.
Lemma by_tag_opt_num t o : flat_map (by_tag t) (opt_num o) = [].
Proof. now destruct o. Qed.

(** Unfold [select] / [by_tag] through the fixed part of a tree. *)
Ltac walk :=
  repeat first
    [ rewrite select_elem | rewrite by_tag_elem | rewrite flat_map_app
    | rewrite select_text | rewrite select_num | rewrite select_inner
    | rewrite select_foreign | rewrite by_tag_text | rewrite by_tag_num
    | rewrite by_tag_inner | rewrite by_tag_foreign
    | rewrite select_opt_text | rewrite select_opt_num
    | rewrite by_tag_opt_text | rewrite by_tag_opt_num
    | decide_test
    | progress unfold el, when
    | progress cbn [flat_map app] ].

Section Render.
Variable highlight : string -> string.
Variable trim : string -> string.
Variable toFixed1 : Q -> string.
Variable stringify : Data -> string.

(** *** The pieces of the tree, one query at a time *)

Lemma narrative_item_selected (step : string) :
  select "narrative-item" (narrative_item highlight trim step) =
    [narrative_item highlight trim step].
Proof.
  unfold narrative_item, highlightText.
  destruct (includes "↳" step); walk; reflexivity.
Qed.

Lemma narrative_item_quiet (step : string) :
  select "no-items" (narrative_item highlight trim step) = [] /\
  select "sanity-check-area" (narrative_item highlight trim step) = [] /\
  by_tag "li" (narrative_item highlight trim step) = [].
Proof.
  unfold narrative_item, highlightText.
  destruct (includes "↳" step); walk; auto.
Qed.

Lemma node_item_quiet (st : State) (idx : nat) (node : Node) :
  select "sanity-check-area" (node_item toFixed1 st idx node) = [] /\
  by_tag "li" (node_item toFixed1 st idx node) = [].
Proof.
  unfold node_item, renderNodeDetails.
  destruct (is_expanded st idx); walk; auto.
Qed.

Lemma edge_item_quiet (edge : Edge) :
  select "sanity-check-area" (edge_item edge) = [] /\
  by_tag "li" (edge_item edge) = [].
Proof.
  unfold edge_item. destruct (or_str (label edge) None); walk; auto.
Qed.

Lemma view_controls_quiet (d : Data) (st : State) :
  select "no-items" (view_controls d st) = [] /\
  select "narrative-item" (view_controls d st) = [] /\
  select "sanity-check-area" (view_controls d st) = [] /\
  by_tag "li" (view_controls d st) = [].
Proof.
  unfold view_controls, control_button.
  destruct (viewMode st); cbn [ViewMode_eqb]; walk; auto.
Qed.

Lemma graph_content_quiet (d : Data) (st : State) :
  select "sanity-check-area" (graph_content highlight trim toFixed1 stringify d st) = [] /\
  by_tag "li" (graph_content highlight trim toFixed1 stringify d st) = [].
Proof.
  unfold graph_content.
  destruct (viewMode st).
  - unfold graph_section. walk. auto.
  - unfold steps_section. destruct (length (narrative_of d) =? 0)%nat; walk.
    + auto.
    + rewrite !flat_map_fmap_nil by (intros; apply narrative_item_quiet). auto.
  - unfold nodes_section. destruct (length (nodes_of d) =? 0)%nat; walk.
    + auto.
    + rewrite !flat_map_imap_nil by (intros; apply node_item_quiet). auto.
  - unfold edges_section. destruct (length (edges_of d) =? 0)%nat; walk.
    + auto.
    + rewrite !flat_map_fmap_nil by (intros; apply edge_item_quiet). auto.
  - unfold raw_section. walk. auto.
Qed.

Lemma violation_item_facts (v : string) :
  by_tag "li" (violation_item v) = [violation_item v] /\
  select "no-items" (violation_item v) = [] /\
  select "narrative-item" (violation_item v) = [] /\
  select "sanity-check-area" (violation_item v) = [].
Proof. unfold violation_item. walk. auto. Qed.

Lemma graph_metadata_quiet (m : Metadata) :
  select "no-items" (graph_metadata m) = [] /\
  select "narrative-item" (graph_metadata m) = [].
Proof.
  unfold graph_metadata, sanity_check_area.
  destruct (sanity_violations m) as [vs|]; [destruct (0 <? length vs)%nat|];
    walk; rewrite ?flat_map_fmap_nil by (intros; apply violation_item_facts);
    auto.
Qed.

(** What the metadata panel contributes to the two warning queries. *)
Lemma graph_metadata_warnings (m : Metadata) :
  select "sanity-check-area" (graph_metadata m) = sanity_check_area m /\
  by_tag "li" (graph_metadata m) =
    match sanity_violations m with
    | Some vs => violation_item <$> vs
    | None => []
    end.
Proof.
  unfold graph_metadata, sanity_check_area.
  destruct (sanity_violations m) as [[|v vs]|]; cbn [length Nat.ltb Nat.leb];
    walk; auto.
  rewrite !flat_map_fmap_nil by (intros; apply violation_item_facts).
  rewrite (flat_map_singletons violation_item (by_tag "li"))
    by (intros; apply violation_item_facts).
  rewrite !app_nil_r. split; reflexivity.
Qed.

Lemma GraphView_children (d : Data) (st : State) :
  children_of (GraphView highlight trim toFixed1 stringify (Some d) st) =
    [ view_controls d st;
      graph_content highlight trim toFixed1 stringify d st;
      graph_metadata (graphMetadata_of d) ].
Proof. reflexivity. Qed.

(** The steps view shows the "no logic" message exactly when the
    narrative is empty, and otherwise one item per step. *)
Lemma steps_view_message (d : Data) (st : State) :
  viewMode st = steps_view ->
  let view := GraphView highlight trim toFixed1 stringify (Some d) st in
  let message :=
    el "p" "no-items" [Text "No logic could be interpreted from this graph."] in
  (select "no-items" view = [message] <-> length (narrative_of d) = 0%nat) /\
  (length (narrative_of d) <> 0%nat -> select "no-items" view = []) /\
  select "narrative-item" view = narrative_item highlight trim <$> narrative_of d.
Proof.
  intros Hmode view message. subst view message.
  unfold GraphView, graph_content, steps_section. rewrite Hmode.
  destruct (view_controls_quiet d st) as (Hc1 & Hc2 & _).
  destruct (graph_metadata_quiet (graphMetadata_of d)) as (Hm1 & Hm2).
  destruct (narrative_of d) as [|step steps] eqn:Hn; cbn [length Nat.eqb];
    walk; rewrite ?Hc1, ?Hc2, ?Hm1, ?Hm2; cbn [app].
  - split_and!; [split; reflexivity | intros Hne; now contradiction Hne | reflexivity].
  - rewrite (flat_map_fmap_nil (select "no-items"))
      by (intros; apply narrative_item_quiet).
    rewrite (flat_map_singletons (narrative_item highlight trim)
               (select "narrative-item")) by apply narrative_item_selected.
    rewrite !app_nil_r. cbn [app].
    split_and!; [split; discriminate | reflexivity | reflexivity].
Qed.
End Render.

(** C8: a narrative step is rendered as an indented branch continuation
    (class [indent-branch]) exactly when it contains the marker "↳"; its
    marker is the text before the first colon when it starts with "Step",
    and the bullet "•" otherwise; and the steps view renders one such item
    per step, in order. *)
Theorem narrative_item_classified
    (highlight trim : string -> string) (toFixed1 : Q -> string)
    (stringify : Data -> string) (step : string) :
  let item := narrative_item highlight trim step in
  (has_class "indent-branch" item = true <-> includes "↳" step = true) /\
  (includes "↳" step = true <-> exists before after, step = before ++ "↳" ++ after) /\
  (startsWith "Step" step = true <-> exists rest, step = "Step" ++ rest) /\
  (exists marker,
     select "step-marker" item = [el "span" "step-marker" [Text marker]] /\
     (startsWith "Step" step = true ->
        free_of ":" marker /\
        (step = marker \/ exists rest, step = marker ++ ":" ++ rest)) /\
     (startsWith "Step" step = false -> marker = "•")) /\
  (forall d st, viewMode st = steps_view ->
     select "narrative-item"
       (GraphView highlight trim toFixed1 stringify (Some d) st) =
     narrative_item highlight trim <$> narrative_of d).
Proof.
  intros item. subst item. split_and!.
  - unfold narrative_item. destruct (includes "↳" step); split; auto; discriminate.
  - apply includes_iff.
  - apply prefix_iff.
  - exists (if startsWith "Step" step then first (split ":" step) else "•").
    split_and!.
    + unfold narrative_item, highlightText.
      destruct (includes "↳" step); walk; reflexivity.
    + intros ->. apply (first_split ":" step).
    + now intros ->.
  - intros d st Hmode. now apply steps_view_message.
Qed.

End GraphViewFacts.

(** ** Graph Builder *)

Module GraphBuilderFacts.
Import Detector GraphBuilder.
Local Open Scope Q_scope.

Lemma clamp_bounds (lo hi x : Q) : lo <= hi -> lo <= clamp lo hi x /\ clamp lo hi x <= hi.
Proof.
  intros Hlh. unfold clamp. split.
  - apply Q.le_max_l.
  - apply Q.max_lub; [exact Hlh | apply Q.le_min_l].
Qed.

Lemma clamp_inside (lo hi x : Q) : lo <= x -> x <= hi -> clamp lo hi x == x.
Proof.
  intros Hl Hh. unfold clamp. rewrite (Q.min_r hi x Hh). now apply Q.max_r.
Qed.

Lemma clamp_below (lo hi x : Q) : lo <= hi -> x <= lo -> clamp lo hi x == lo.
Proof.
  intros Hlh Hx. unfold clamp. apply Q.max_l.
  apply Q.min_le_iff. now right.
Qed.

Lemma count_pos (n : nat) : n <> 0%nat -> 0 < count n.
Proof.
  intros Hn. unfold count. change 0 with (inject_Z 0). rewrite <- Zlt_Qlt. lia.
Qed.

Lemma count_le (a b : nat) : (a <= b)%nat -> count a <= count b.
Proof. intros Hab. unfold count. rewrite <- Zle_Qle. lia. Qed.

Lemma reduction_in_range (raw final : nat) :
  raw <> 0%nat -> (final <= raw)%nat ->
  0 <= (count raw - count final) / count raw * 100 /\
  (count raw - count final) / count raw * 100 <= 100.
Proof.
  intros Hraw Hle. pose proof (count_pos raw Hraw) as Hpos.
  pose proof (count_le final raw Hle) as Hfr.
  assert (Hf0 : 0 <= count final) by (apply (count_le 0 final); lia).
  split.
  - apply Qmult_le_0_compat; [|discriminate].
    apply Qle_shift_div_l; [exact Hpos|]. lra.
  - apply (Qle_trans _ (1 * 100)); [|discriminate].
    apply Qmult_le_compat_r; [|discriminate].
    apply Qle_shift_div_r; [exact Hpos|]. lra.
Qed.

(** C4: [node_reduction_pct] is (raw - final) / raw * 100 clamped to
    [0,100]; the clamp is idle whenever final <= raw; and the value is 0
    when there are no raw shapes and when nothing was filtered or merged
    (final = raw). *)
Theorem node_reduction_pct_bounds (raw_shape_count final_node_count : nat) :
  let pct := compute_node_reduction_pct raw_shape_count final_node_count in
  let formula :=
    (count raw_shape_count - count final_node_count) / count raw_shape_count * 100 in
  (0 <= pct /\ pct <= 100) /\
  (raw_shape_count <> 0%nat -> pct == clamp 0 100 formula) /\
  (raw_shape_count <> 0%nat -> (final_node_count <= raw_shape_count)%nat ->
     pct == formula) /\
  (raw_shape_count = 0%nat -> pct == 0) /\
  (final_node_count = raw_shape_count -> pct == 0).
Proof.
  intros pct formula. subst pct formula. unfold compute_node_reduction_pct.
  destruct (Nat.eqb_spec raw_shape_count 0) as [->|Hraw].
  - split_and!; try done. 
  - split_and!.
    + apply clamp_bounds. discriminate.
    + apply clamp_bounds. discriminate.
    + reflexivity.
    + intros _ Hle. apply clamp_inside; now apply reduction_in_range.
    + contradiction.
    + intros ->. rewrite clamp_inside.
      * field. pose proof (count_pos raw_shape_count Hraw). lra.
      * now apply reduction_in_range.
      * now apply reduction_in_range.
Qed.
End GraphBuilderFacts.

(** ** Shape Detector & Merger *)

Module DetectorFacts.
Import Detector.
Local Open Scope list_scope.

Lemma filter_all {B} (P : B -> Prop) `{forall x, Decision (P x)} (l : list B) :
  Forall P l -> filter P l = l.
Proof.
  induction 1 as [|x l Hx _ IH]; [reflexivity|].
  rewrite filter_cons_True by assumption. now rewrite IH.
Qed.

Section Merger.
Context {A : Type} `{Detection A}.
Variable cfg : Config.

Lemma absorb_confidence_grows (acc : Best) (rest : list A) :
  (b_conf acc <= b_conf (foldl absorb acc rest))%Q.
Proof.
  revert acc. induction rest as [|s rest IH]; intros acc; cbn [foldl].
  - apply Qle_refl.
  - eapply Qle_trans; [|apply IH]. cbn. apply Q.le_max_l.
Qed.

Lemma members_from_input (shapes : list A) (parent : list nat) (r : nat) (s : A) :
  s ∈ members shapes parent r -> s ∈ shapes.
Proof.
  unfold members. rewrite list_elem_of_omap. intros (i & _ & Hi).
  destruct (find parent i =? r)%nat; [|discriminate].
  now apply list_elem_of_lookup_2 in Hi.
Qed.

(** Every merged node stems from a non-empty cluster of input shapes and
    is at least as confident as the first of them. *)
Lemma merge_step_origin (shapes : list A) (m : Merged) :
  m ∈ merge_step cfg shapes ->
  exists s, s ∈ shapes /\ (confidence_of s <= m_confidence m)%Q /\
            m_area m = inject_Z (box_area (m_bbox m)).
Proof.
  unfold merge_step. rewrite list_elem_of_omap. intros (r & _ & Hr).
  unfold collapse in Hr.
  destruct (members shapes (connect cfg shapes) r) as [|s rest] eqn:Hm;
    [discriminate|].
  injection Hr as <-. exists s. split_and!.
  - apply (members_from_input shapes (connect cfg shapes) r). rewrite Hm. left.
  - cbn. apply (absorb_confidence_grows (single s) rest).
  - reflexivity.
Qed.

Lemma confidence_guard_passes (shapes : list A) (s : A) :
  s ∈ confidence_guard cfg shapes ->
  (guard_threshold cfg <= confidence_of s)%Q.
Proof.
  unfold confidence_guard. rewrite list_elem_of_filter. intros [Hs _].
  now apply Qle_bool_iff.
Qed.

Lemma detect_thresholds (shapes : list A) (n : LogicalNode) :
  n ∈ detect cfg shapes ->
  (guard_threshold cfg <= confidence n)%Q /\ (noise_threshold cfg <= area n)%Q.
Proof.
  unfold detect, noise_flush. rewrite list_elem_of_filter. intros [Harea Hn].
  split; [|now apply Qle_bool_iff].
  apply elem_of_lookup_imap_1 in Hn as (i & m & -> & Hm).
  apply list_elem_of_lookup_2, merge_step_origin in Hm as (s & Hs & Hconf & _).
  cbn. eapply Qle_trans; [|exact Hconf]. now apply confidence_guard_passes in Hs.
Qed.

(** *** Union-find: the fuel of [find] is enough *)

Lemma find_root_reaches_root (parent : list nat) (fuel i : nat) :
  descending parent -> i < fuel -> i < length parent ->
  parent !! find_root fuel parent i = Some (find_root fuel parent i) /\
  find_root fuel parent i <= i.
Proof.
  intros Hdesc. revert i. induction fuel as [|fuel IH]; intros i Hfuel Hlen; [lia|].
  cbn [find_root]. destruct (parent !! i) as [p|] eqn:Hp.
  - destruct (Nat.eqb_spec p i) as [->|Hne]; [split; [exact Hp | lia]|].
    pose proof (Hdesc i p Hp) as Hle.
    destruct (IH p) as [Hroot Hdown]; [lia | lia |]. split; [exact Hroot | lia].
  - apply lookup_ge_None in Hp. lia.
Qed.

Lemma find_reaches_root (parent : list nat) (i : nat) :
  descending parent -> i < length parent ->
  parent !! find parent i = Some (find parent i) /\ find parent i <= i.
Proof. intros Hdesc Hlen. now apply find_root_reaches_root. Qed.

Lemma descending_seq (n : nat) : descending (seq 0 n).
Proof.
  intros i p Hp. apply lookup_seq in Hp. lia.
Qed.

Lemma descending_union (parent : list nat) (i j : nat) :
  descending parent -> descending (union parent i j).
Proof.
  intros Hdesc. unfold union.
  destruct (find parent i =? find parent j)%nat; [exact Hdesc|].
  intros k p Hk.
  destruct (decide (k = Nat.max (find parent i) (find parent j))) as [->|Hne].
  - destruct (decide (Nat.max (find parent i) (find parent j) < length parent)).
    + rewrite list_lookup_insert_eq in Hk by assumption. injection Hk as <-. lia.
    + rewrite list_insert_ge in Hk by lia. now apply Hdesc.
  - rewrite list_lookup_insert_ne in Hk by congruence. now apply Hdesc.
Qed.

Lemma length_union (parent : list nat) (i j : nat) :
  length (union parent i j) = length parent.
Proof.
  unfold union. destruct (find parent i =? find parent j)%nat; [reflexivity|].
  apply length_insert.
Qed.

Lemma connect_invariant (shapes : list A) :
  descending (connect cfg shapes) /\ length (connect cfg shapes) = length shapes.
Proof.
  unfold connect. generalize (index_pairs (length shapes)) as pairs.
  assert (Hstart : descending (seq 0 (length shapes)) /\
                   length (seq 0 (length shapes)) = length shapes)
    by (split; [apply descending_seq | apply length_seq]).
  revert Hstart. generalize (seq 0 (length shapes)) as parent.
  intros parent Hstart pairs. revert parent Hstart.
  induction pairs as [|ij pairs IH]; intros parent [Hdesc Hlen]; [now split|].
  cbn [foldl]. apply IH. unfold link_if_mergeable.
  destruct (shapes !! ij.1), (shapes !! ij.2); try (now split).
  destruct (mergeable cfg a a0); [|now split].
  split; [now apply descending_union | now rewrite length_union].
Qed.

(** In the forest [connect] builds, [find] always ends on a root. *)
Lemma connect_find_root (shapes : list A) (i : nat) :
  i < length shapes ->
  connect cfg shapes !! find (connect cfg shapes) i
    = Some (find (connect cfg shapes) i).
Proof.
  intros Hi. destruct (connect_invariant shapes) as [Hdesc Hlen].
  apply find_reaches_root; [exact Hdesc | lia].
Qed.

(** *** Union-find: mergeable shapes share a root *)

Lemma find_root_fuel (parent : list nat) (fuel1 fuel2 i : nat) :
  descending parent -> i < fuel1 -> i < fuel2 ->
  find_root fuel1 parent i = find_root fuel2 parent i.
Proof.
  intros Hdesc. revert fuel2 i.
  induction fuel1 as [|fuel1 IH]; intros fuel2 i H1 H2; [lia|].
  destruct fuel2 as [|fuel2]; [lia|]. cbn [find_root].
  destruct (parent !! i) as [p|] eqn:Hp; [|reflexivity].
  destruct (Nat.eqb_spec p i) as [_|Hne]; [reflexivity|].
  pose proof (Hdesc i p Hp). apply IH; lia.
Qed.

(** [find] one step at a time. *)
Lemma find_step (parent : list nat) (i p : nat) :
  descending parent -> i < length parent -> parent !! i = Some p ->
  find parent i = if (p =? i)%nat then i else find parent p.
Proof.
  intros Hdesc Hi Hp. unfold find.
  destruct (length parent) as [|n] eqn:Hn; [lia|].
  remember (find_root (S n) parent p) as via_parent eqn:Hvia.
  cbn [find_root]. rewrite Hp. destruct (Nat.eqb_spec p i) as [_|Hne]; [reflexivity|].
  pose proof (Hdesc i p Hp). subst via_parent.
  apply find_root_fuel; [exact Hdesc | lia | lia].
Qed.

(** Hanging the root [hi] under the root [lo] moves exactly the members of
    [hi]'s tree. *)
Lemma find_after_link (parent : list nat) (hi lo k : nat) :
  descending parent -> lo < hi -> hi < length parent ->
  parent !! hi = Some hi -> parent !! lo = Some lo -> k < length parent ->
  find (<[hi := lo]> parent) k =
    if decide (find parent k = hi) then lo else find parent k.
Proof.
  intros Hdesc Hlt Hhi Hrh Hrl.
  assert (Hdesc' : descending (<[hi := lo]> parent)).
  { intros i p Hp. destruct (decide (i = hi)) as [->|Hne].
    - rewrite list_lookup_insert_eq in Hp by assumption. injection Hp as <-. lia.
    - rewrite list_lookup_insert_ne in Hp by congruence. now apply Hdesc. }
  assert (Hlo : find (<[hi := lo]> parent) lo = lo).
  { rewrite (find_step _ lo lo Hdesc'); [now rewrite Nat.eqb_refl | |].
    - rewrite length_insert. lia.
    - rewrite list_lookup_insert_ne by lia. exact Hrl. }
  induction k as [k IH] using lt_wf_ind. intros Hk.
  destruct (parent !! k) as [p|] eqn:Hp; [|apply lookup_ge_None in Hp; lia].
  pose proof (Hdesc k p Hp) as Hle.
  rewrite (find_step parent k p Hdesc Hk Hp).
  destruct (decide (k = hi)) as [->|Hne].
  - assert (p = hi) as -> by congruence. rewrite Nat.eqb_refl.
    rewrite (find_step _ hi lo Hdesc');
      [| rewrite length_insert; lia | now apply list_lookup_insert_eq].
    destruct (Nat.eqb_spec lo hi); [lia|]. rewrite Hlo.
    now destruct (decide (hi = hi)).
  - rewrite (find_step _ k p Hdesc');
      [| rewrite length_insert; lia | now rewrite list_lookup_insert_ne by congruence].
    destruct (Nat.eqb_spec p k) as [->|Hpk].
    + now destruct (decide (k = hi)).
    + apply IH; lia.
Qed.

(** After [union] the two indices share a root, and indices that shared a
    root still do. *)
Lemma union_joins (parent : list nat) (i j : nat) :
  descending parent -> i < length parent -> j < length parent ->
  find (union parent i j) i = find (union parent i j) j /\
  (forall a b, a < length parent -> b < length parent ->
     find parent a = find parent b ->
     find (union parent i j) a = find (union parent i j) b).
Proof.
  intros Hdesc Hi Hj. unfold union.
  destruct (find_reaches_root parent i Hdesc Hi) as [Hri Hlei].
  destruct (find_reaches_root parent j Hdesc Hj) as [Hrj Hlej].
  destruct (Nat.eqb_spec (find parent i) (find parent j)) as [Heq|Hne];
    [split; [exact Heq | auto]|].
  set (hi := Nat.max (find parent i) (find parent j)).
  set (lo := Nat.min (find parent i) (find parent j)).
  assert (Hlt : lo < hi) by (subst hi lo; lia).
  assert (Hhi : hi < length parent) by (subst hi; lia).
  assert (Hrh : parent !! hi = Some hi)
    by (subst hi; destruct (Nat.max_spec (find parent i) (find parent j))
          as [[_ ->]|[_ ->]]; assumption).
  assert (Hrl : parent !! lo = Some lo)
    by (subst lo; destruct (Nat.min_spec (find parent i) (find parent j))
          as [[_ ->]|[_ ->]]; assumption).
  pose proof (find_after_link parent hi lo) as Hlink.
  split.
  - rewrite (Hlink i), (Hlink j) by assumption.
    repeat destruct (decide _); subst hi lo; lia.
  - intros a b Ha Hb Hab. rewrite (Hlink a), (Hlink b) by assumption.
    rewrite Hab. reflexivity.
Qed.

Lemma link_keeps (shapes : list A) (parent : list nat) (ij : nat * nat) :
  descending parent -> length parent = length shapes ->
  descending (link_if_mergeable cfg shapes parent ij) /\
  length (link_if_mergeable cfg shapes parent ij) = length shapes /\
  (forall a b, a < length shapes -> b < length shapes ->
     find parent a = find parent b ->
     find (link_if_mergeable cfg shapes parent ij) a =
     find (link_if_mergeable cfg shapes parent ij) b).
Proof.
  intros Hdesc Hlen. unfold link_if_mergeable.
  destruct (shapes !! ij.1) as [x|] eqn:H1; [|now split_and!].
  destruct (shapes !! ij.2) as [y|] eqn:H2; [|now split_and!].
  destruct (mergeable cfg x y); [|now split_and!].
  apply lookup_lt_Some in H1, H2. split_and!.
  - now apply descending_union.
  - now rewrite length_union.
  - intros a b Ha Hb. apply union_joins; try assumption; lia.
Qed.

Lemma links_keep (shapes : list A) (pairs : list (nat * nat)) (parent : list nat)
    (a b : nat) :
  descending parent -> length parent = length shapes ->
  a < length shapes -> b < length shapes ->
  find parent a = find parent b ->
  find (foldl (link_if_mergeable cfg shapes) parent pairs) a =
  find (foldl (link_if_mergeable cfg shapes) parent pairs) b.
Proof.
  revert parent. induction pairs as [|ij pairs IH]; intros parent Hdesc Hlen Ha Hb Hab;
    [exact Hab|].
  cbn [foldl]. destruct (link_keeps shapes parent ij Hdesc Hlen) as (Hd & Hl & Hk).
  apply IH; auto.
Qed.

Lemma links_join (shapes : list A) (pairs : list (nat * nat)) (parent : list nat)
    (i j : nat) (x y : A) :
  descending parent -> length parent = length shapes ->
  (i, j) ∈ pairs -> shapes !! i = Some x -> shapes !! j = Some y ->
  mergeable cfg x y = true ->
  find (foldl (link_if_mergeable cfg shapes) parent pairs) i =
  find (foldl (link_if_mergeable cfg shapes) parent pairs) j.
Proof.
  revert parent. induction pairs as [|ij pairs IH];
    intros parent Hdesc Hlen Hin Hx Hy Hm; [inversion Hin|].
  cbn [foldl]. destruct (link_keeps shapes parent ij Hdesc Hlen) as (Hd & Hl & Hk).
  apply elem_of_cons in Hin as [<-|Hin]; [|now apply IH].
  pose proof (lookup_lt_Some _ _ _ Hx). pose proof (lookup_lt_Some _ _ _ Hy).
  apply links_keep; auto.
  unfold link_if_mergeable. cbn [fst snd]. rewrite Hx, Hy, Hm.
  assert (Hi : i < length parent) by lia. assert (Hj : j < length parent) by lia.
  exact (proj1 (union_joins parent i j Hdesc Hi Hj)).
Qed.

Lemma elem_of_index_pairs (n i j : nat) :
  i < j -> j < n -> (i, j) ∈ index_pairs n.
Proof.
  intros Hij Hj. unfold index_pairs. apply list_elem_of_bind. exists i.
  split; [|apply elem_of_seq; lia].
  apply list_elem_of_fmap. exists j. split; [reflexivity|]. apply elem_of_seq. lia.
Qed.

(** Two mergeable shapes end up in one cluster. *)
Lemma mergeable_share_root (shapes : list A) (i j : nat) (x y : A) :
  i < j -> shapes !! i = Some x -> shapes !! j = Some y ->
  mergeable cfg x y = true ->
  find (connect cfg shapes) i = find (connect cfg shapes) j.
Proof.
  intros Hij Hx Hy Hm. unfold connect.
  apply (links_join shapes _ _ i j x y); auto using descending_seq, length_seq.
  apply elem_of_index_pairs; [exact Hij | now apply lookup_lt_Some in Hy].
Qed.

(** *** What a cluster collapses into *)

Lemma Qmax_picks (a b : Q) : Qmax a b = a \/ Qmax a b = b.
Proof.
  unfold Qmax, GenericMinMax.gmax. destruct (a ?= b)%Q; auto.
Qed.

Lemma absorb_all (acc : Best) (rest : list A) :
  let final := foldl absorb acc rest in
  (b_conf acc <= b_conf final)%Q /\
  inside (b_bbox acc) (b_bbox final) /\
  (forall x, x ∈ rest ->
     (confidence_of x <= b_conf final)%Q /\ inside (bbox_of x) (b_bbox final)) /\
  (b_conf final = b_conf acc \/ exists x, x ∈ rest /\ b_conf final = confidence_of x).
Proof.
  revert acc. induction rest as [|s rest IH]; intros acc; cbn [foldl].
  - split_and!; [apply Qle_refl | unfold inside; lia | intros x Hx; inversion Hx | now left].
  - destruct (IH (absorb acc s)) as (Hconf & Hbox & Hall & Hpick). cbn zeta.
    assert (Hin : inside (b_bbox acc) (b_bbox (absorb acc s)) /\
                  inside (bbox_of s) (b_bbox (absorb acc s)))
      by (unfold inside, absorb, box_union; cbn; lia).
    split_and!.
    + eapply Qle_trans; [|exact Hconf]. cbn. apply Q.le_max_l.
    + unfold inside in *. lia.
    + intros x Hx. apply elem_of_cons in Hx as [->|Hx].
      * split; [eapply Qle_trans; [|exact Hconf]; cbn; apply Q.le_max_r|].
        unfold inside in *. lia.
      * now apply Hall.
    + destruct Hpick as [Heq|(x & Hx & Heq)].
      * rewrite Heq. cbn. destruct (Qmax_picks (b_conf acc) (confidence_of s)) as [->| ->].
        -- now left.
        -- right. exists s. split; [left | reflexivity].
      * right. exists x. split; [now right | exact Heq].
Qed.

(** The merged confidence is the largest confidence in the cluster, and the
    merged box holds the box of every member. *)
Lemma collapse_best (s : A) (rest : list A) (m : Merged) :
  collapse (s :: rest) = Some m ->
  (forall x, x ∈ s :: rest ->
     (confidence_of x <= m_confidence m)%Q /\ inside (bbox_of x) (m_bbox m)) /\
  (exists x, x ∈ s :: rest /\ m_confidence m = confidence_of x) /\
  m_area m = inject_Z (box_area (m_bbox m)).
Proof.
  intros Hm. injection Hm as <-.
  destruct (absorb_all (single s) rest) as (Hconf & Hbox & Hall & Hpick).
  cbn zeta in *. split_and!; [| |reflexivity].
  - intros x Hx. apply elem_of_cons in Hx as [->|Hx]; [split; assumption | now apply Hall].
  - destruct Hpick as [Heq|(x & Hx & Heq)].
    + exists s. split; [left | exact Heq].
    + exists x. split; [now right | exact Heq].
Qed.
(** *** Nothing to merge *)

Lemma connect_none_mergeable (shapes : list A) :
  none_mergeable cfg shapes = true ->
  connect cfg shapes = seq 0 (length shapes).
Proof.
  unfold none_mergeable, connect.
  generalize (index_pairs (length shapes)) as pairs.
  generalize (seq 0 (length shapes)) as parent.
  intros parent pairs. revert parent.
  induction pairs as [|ij pairs IH]; intros parent Hnone; [reflexivity|].
  cbn [forallb] in Hnone. apply andb_true_iff in Hnone as [Hij Hrest].
  cbn [foldl]. rewrite <- (IH parent Hrest) at 2. f_equal.
  unfold link_if_mergeable.
  destruct (shapes !! ij.1), (shapes !! ij.2); try reflexivity.
  apply negb_true_iff in Hij. now rewrite Hij.
Qed.

Lemma find_identity (n i : nat) : find (seq 0 n) i = i.
Proof.
  unfold find. rewrite length_seq. destruct n as [|n]; [reflexivity|].
  cbn [find_root]. destruct (seq 0 (S n) !! i) as [p|] eqn:Hp; [|reflexivity].
  apply lookup_seq in Hp as [-> _]. now rewrite Nat.eqb_refl.
Qed.

Lemma roots_identity (n : nat) : roots (seq 0 n) = seq 0 n.
Proof.
  unfold roots. rewrite length_seq. apply filter_all.
  apply Forall_forall. intros i _. apply find_identity.
Qed.

Lemma pick_one {B} (f : nat -> option B) (r a n : nat) :
  omap (fun i => if (i =? r)%nat then f i else None) (seq a n) =
    if decide (a <= r < a + n) then option_list (f r) else [].
Proof.
  revert a. induction n as [|n IH]; intros a; cbn [seq].
  - now destruct (decide _); [lia|].
  - change (omap ?g (a :: ?l)) with
      (match g a with Some y => y :: omap g l | None => omap g l end).
    rewrite IH. destruct (Nat.eqb_spec a r) as [->|Hne].
    + destruct (decide (r <= r < r + S n)) as [_|Hn]; [|lia].
      destruct (decide (S r <= r < S r + n)) as [Hn|_]; [lia|].
      destruct (f r); cbn; [reflexivity | reflexivity].
    + repeat destruct (decide _); try lia; reflexivity.
Qed.

Lemma members_identity (shapes : list A) (r : nat) :
  members shapes (seq 0 (length shapes)) r = option_list (shapes !! r).
Proof.
  unfold members.
  rewrite (list_omap_ext _ (fun i => if (i =? r)%nat then shapes !! i else None)
             (seq 0 (length shapes)) (seq 0 (length shapes))).
  - rewrite pick_one. destruct (decide _) as [_|Hr]; [reflexivity|].
    rewrite (lookup_ge_None_2 shapes r) by lia. reflexivity.
  - apply Forall2_same_length_lookup. split; [reflexivity|].
    intros i x y Hx Hy. rewrite find_identity.
    assert (x = y) as -> by congruence. reflexivity.
Qed.

Lemma omap_lookup_all {B} (g : A -> option B) (h : A -> B)
    (before shapes : list A) :
  (forall s, s ∈ shapes -> g s = Some (h s)) ->
  omap (fun r => (before ++ shapes) !! r ≫= g)
       (seq (length before) (length shapes)) = h <$> shapes.
Proof.
  revert before. induction shapes as [|s shapes IH]; intros before Hg;
    [reflexivity|].
  cbn [length seq fmap list_fmap].
  change (omap ?g (?a :: ?l)) with
    (match g a with Some y => y :: omap g l | None => omap g l end).
  cbn beta.
  rewrite lookup_app_r, Nat.sub_diag by lia. cbn.
  rewrite (Hg s) by left. f_equal.
  specialize (IH (before ++ [s])). rewrite <- app_assoc, length_app in IH.
  cbn in IH. rewrite Nat.add_1_r in IH. apply IH.
  intros s' Hs'. apply Hg. now right.
Qed.

(** With no mergeable pair every cluster is a single detection, and the
    second run gives every node back. *)
Lemma merge_step_none_mergeable (shapes : list A) :
  none_mergeable cfg shapes = true ->
  Forall (fun s => area_of s = inject_Z (box_area (bbox_of s))) shapes ->
  merge_step cfg shapes = read_back <$> shapes.
Proof.
  intros Hnone Harea. unfold merge_step.
  rewrite (connect_none_mergeable shapes Hnone), roots_identity.
  rewrite (list_omap_ext _ (fun r => ([] ++ shapes) !! r ≫= (fun s => collapse [s]))
             (seq 0 (length shapes)) (seq 0 (length shapes))).
  - apply (omap_lookup_all (fun s => collapse [s]) read_back [] shapes).
    intros s Hs. rewrite Forall_forall in Harea. specialize (Harea s Hs).
    unfold collapse, finish, single, read_back. cbn. now rewrite <- Harea.
  - apply Forall2_same_length_lookup. split; [reflexivity|].
    intros i x y Hx Hy. assert (x = y) as -> by congruence.
    rewrite members_identity. cbn [app]. now destruct (shapes !! y).
Qed.
End Merger.

Lemma detect_area_is_box_area {A} `{Detection A} (cfg : Config) (shapes : list A) :
  Forall (fun n : LogicalNode => area_of n = inject_Z (box_area (bbox_of n)))
         (detect cfg shapes).
Proof.
  apply Forall_forall. intros n Hn. unfold detect, noise_flush in Hn.
  apply list_elem_of_filter in Hn as [_ Hn].
  apply elem_of_lookup_imap_1 in Hn as (i & m & -> & Hm).
  apply list_elem_of_lookup_2, merge_step_origin in Hm as (_ & _ & _ & Harea).
  exact Harea.
Qed.

(** C1: every node the detector yields, and so every node handed to the
    Graph Builder and returned to the caller, has confidence at least the
    guard threshold and area at least the noise threshold, whatever the
    thresholds; with the defaults, at least 0.4 and 500. *)
Theorem output_nodes_within_thresholds
    (cfg : Config) (labels_for : LogicalNode -> list string)
    (class_for : LogicalNode -> SemanticClass) (shapes : list RawShape) :
  Forall (fun n => (guard_threshold cfg <= confidence n)%Q /\
                   (noise_threshold cfg <= area n)%Q)
         (detect cfg shapes) /\
  Forall (fun n => (guard_threshold cfg <= confidence n)%Q /\
                   (noise_threshold cfg <= area n)%Q)
         (output_nodes cfg labels_for class_for shapes) /\
  Forall (fun n => (4 # 10 <= confidence n)%Q /\ (500 <= area n)%Q)
         (output_nodes (default_thresholds (overlap_fraction cfg) (centre_factor cfg))
                       labels_for class_for shapes).
Proof.
  assert (Hall : forall cfg', Forall (fun n => (guard_threshold cfg' <= confidence n)%Q /\
                   (noise_threshold cfg' <= area n)%Q)
         (output_nodes cfg' labels_for class_for shapes)).
  { intros cfg'. unfold output_nodes. rewrite Forall_fmap. apply Forall_forall.
    intros n Hn. cbn. now apply (detect_thresholds cfg' shapes). }
  split_and!.
  - apply Forall_forall. intros n Hn. now apply (detect_thresholds cfg shapes).
  - apply Hall.
  - apply (Hall (default_thresholds (overlap_fraction cfg) (centre_factor cfg))).
Qed.

(** When no two nodes of the detector's output are mergeable, running
    the merge step on that output puts every node in a cluster of its
    own, with the node's confidence, type, box and area, none fewer.
    Ids are not compared: a second run numbers its clusters afresh. *)
Theorem merge_step_stable_when_apart (cfg : Config) (shapes : list RawShape) :
  none_mergeable cfg (detect cfg shapes) = true ->
  merge_step cfg (detect cfg shapes) = as_merged <$> detect cfg shapes /\
  length (merge_step cfg (detect cfg shapes)) = length (detect cfg shapes).
Proof.
  intros Hnone.
  pose proof (merge_step_none_mergeable cfg (detect cfg shapes) Hnone
                (detect_area_is_box_area cfg shapes)) as Hfix.
  split; [exact Hfix|]. rewrite Hfix. apply length_fmap.
Qed.

Lemma merge_step_stable_when_apart_witness :
  none_mergeable Shapes.thresholds
    (detect Shapes.thresholds Shapes.apart_shapes) = true /\
  merge_step Shapes.thresholds (detect Shapes.thresholds Shapes.apart_shapes)
    = as_merged <$> detect Shapes.thresholds Shapes.apart_shapes.
Proof.
  split; [vm_compute; reflexivity|].
  apply (merge_step_stable_when_apart Shapes.thresholds Shapes.apart_shapes).
  vm_compute. reflexivity.
Defined.

(** With an overlap fraction of 1/10 and a centre factor of 1/2: of
    three detections, two overlap and merge; the union box of the pair
    then swallows the third, which overlapped neither, so a second run
    merges the two remaining nodes into one. *)
Lemma merge_step_not_idempotent :
  let nodes := detect Shapes.thresholds Shapes.corner_shapes in
  length nodes = 2 /\
  length (merge_step Shapes.thresholds nodes) = 1 /\
  merge_step Shapes.thresholds nodes <> as_merged <$> nodes.
Proof.
  vm_compute. split; [reflexivity|]. split; [reflexivity|]. discriminate.
Qed.

(** The same happens through the centre criterion alone: the centres of
    the two bars of an L are close, the centre of a small square in the
    free corner is close to neither, but it is close to the centre of the
    box around the L. *)
Lemma merge_step_not_idempotent_by_centres :
  let nodes := detect Shapes.centre_only Shapes.ell_shapes in
  (a ← Shapes.ell_shapes; overlaps Shapes.centre_only a <$> Shapes.ell_shapes)
    = replicate 9 false /\
  length nodes = 2 /\
  length (merge_step Shapes.centre_only nodes) = 1.
Proof. vm_compute. split_and!; reflexivity. Qed.

(** The verdicts on that sample are the same when the overlap fraction is
    taken of the union of the boxes instead of the smaller box. *)
Lemma corner_sample_either_reading :
  let nodes := detect Shapes.thresholds Shapes.corner_shapes in
  (a ← Shapes.corner_shapes; overlaps Shapes.thresholds a <$> Shapes.corner_shapes) =
  (a ← Shapes.corner_shapes;
   overlaps_of_union Shapes.thresholds a <$> Shapes.corner_shapes) /\
  (a ← nodes; overlaps Shapes.thresholds a <$> nodes) =
  (a ← nodes; overlaps_of_union Shapes.thresholds a <$> nodes).
Proof. vm_compute. split; reflexivity. Qed.

End DetectorFacts.

(** ** Detector and Graph Builder together *)

Module PipelineFacts.
Import Detector GraphBuilder DetectorFacts GraphBuilderFacts.
Local Open Scope list_scope.

Lemma length_omap_le {A B} (f : A -> option B) (l : list A) :
  length (omap f l) <= length l.
Proof.
  induction l as [|a l IH]; [reflexivity|].
  change (omap f (a :: l)) with
    (match f a with Some y => y :: omap f l | None => omap f l end).
  destruct (f a); cbn [length]; lia.
Qed.

(** Merging and filtering never add nodes. *)
Lemma detect_length {A} `{Detection A} (cfg : Config) (shapes : list A) :
  length (detect cfg shapes) <= length shapes.
Proof.
  unfold detect, noise_flush, merge_step, roots.
  etrans; [apply length_filter|]. rewrite length_imap.
  etrans; [apply length_omap_le|]. etrans; [apply length_filter|].
  rewrite length_seq.
  destruct (connect_invariant cfg (confidence_guard cfg shapes)) as [_ ->].
  apply length_filter.
Qed.

(** On the counts the pipeline itself produces the clamp is idle. *)
Lemma pipeline_reduction_pct (cfg : Config) (shapes : list RawShape) :
  shapes <> [] ->
  (compute_node_reduction_pct (length shapes) (length (detect cfg shapes)) ==
   (count (length shapes) - count (length (detect cfg shapes)))
     / count (length shapes) * 100)%Q.
Proof.
  intros Hne. unfold compute_node_reduction_pct.
  destruct (Nat.eqb_spec (length shapes) 0) as [Hz|Hnz].
  - destruct shapes; [contradiction | discriminate].
  - apply clamp_inside; apply reduction_in_range; auto using detect_length.
Qed.
End PipelineFacts.

(** ** Narrative Generator *)

Module NarrativeFacts.
Import Detector GraphBuilder Narrative JsString StringFacts.
Local Open Scope list_scope.

(** *** The polarity order *)

Lemma rank_below_three (e : Edge) : rank e < 3.
Proof. unfold rank. destruct (polarity e); cbn; lia. Qed.

Lemma by_polarity_sorted (es : list Edge) :
  StronglySorted (fun a b => rank a <= rank b) (by_polarity es).
Proof.
  assert (Hflat : forall k, StronglySorted (fun a b => rank a <= rank b)
                              (filter (fun e => rank e = k) es)).
  { intros k. induction es as [|e es IH]; [constructor|].
    rewrite filter_cons. destruct (decide (rank e = k)) as [Hk|_]; [|exact IH].
    constructor; [exact IH|]. apply Forall_forall. intros e' He'.
    apply list_elem_of_filter in He' as [He' _]. lia. }
  unfold by_polarity. apply StronglySorted_app_2; [| apply Hflat |].
  - intros a b Ha Hb. apply list_elem_of_filter in Ha as [Ha _]. lia.
  - apply StronglySorted_app_2; [| apply Hflat | apply Hflat].
    intros a b Ha Hb. apply list_elem_of_filter in Ha as [Ha _].
    apply list_elem_of_filter in Hb as [Hb _]. lia.
Qed.

Lemma by_polarity_permutation (es : list Edge) : by_polarity es ≡ₚ es.
Proof.
  unfold by_polarity. induction es as [|e es IH]; [reflexivity|].
  rewrite !filter_cons. pose proof (rank_below_three e) as Hr.
  destruct (decide (rank e = 0)), (decide (rank e = 1)), (decide (rank e = 2));
    try lia; cbn [app].
  - now rewrite IH.
  - rewrite <- Permutation_middle. now rewrite IH.
  - rewrite app_assoc, <- Permutation_middle, <- app_assoc. now rewrite IH.
Qed.

(** *** Walking the outgoing edges *)

Lemma expand_lines (emitted visited : gset nat) (outs : list Edge) :
  branch_edge <$> (expand emitted visited outs).2 = Some <$> outs.
Proof.
  revert visited. induction outs as [|e outs IH]; intros visited; [reflexivity|].
  cbn [expand]. destruct (decide (target e ∈ visited)).
  - specialize (IH visited). destruct (expand emitted visited outs) as [[v q] ls].
    cbn in *. now rewrite IH.
  - specialize (IH ({[target e]} ∪ visited)).
    destruct (expand emitted ({[target e]} ∪ visited) outs) as [[v q] ls].
    cbn in *. now rewrite IH.
Qed.

Lemma expand_queued (emitted visited : gset nat) (outs : list Edge) :
  visited ⊆ fst (fst (expand emitted visited outs)) /\
  NoDup (snd (fst (expand emitted visited outs))) /\
  (forall t, t ∈ snd (fst (expand emitted visited outs)) ->
     (t ∉ visited) /\ t ∈ fst (fst (expand emitted visited outs)) /\
     t ∈ (target <$> outs)).
Proof.
  revert visited. induction outs as [|e outs IH]; intros visited.
  - cbn. split_and!; [done | constructor | intros t Ht; inversion Ht].
  - cbn [expand]. destruct (decide (target e ∈ visited)) as [Hin|Hout].
    + specialize (IH visited). destruct (expand emitted visited outs) as [[v q] ls].
      cbn [fst snd] in *.
      destruct IH as (Hsub & Hnd & Hq). split_and!; [exact Hsub | exact Hnd |].
      intros t Ht. destruct (Hq t Ht) as (H1 & H2 & H3).
      split_and!; [exact H1 | exact H2 | rewrite fmap_cons; now right].
    + specialize (IH ({[target e]} ∪ visited)).
      destruct (expand emitted ({[target e]} ∪ visited) outs) as [[v q] ls].
      cbn [fst snd] in *.
      destruct IH as (Hsub & Hnd & Hq).
      assert (Hmono : visited ⊆ v).
      { intros x Hx. apply Hsub, elem_of_union. now right. }
      assert (He : target e ∈ v).
      { apply Hsub, elem_of_union. left. now apply elem_of_singleton. }
      split_and!; [exact Hmono | |].
      * constructor; [|exact Hnd]. intros Hin. apply Hq in Hin as [Hin _].
        apply Hin, elem_of_union. left. now apply elem_of_singleton.
      * intros t Ht. apply elem_of_cons in Ht as [->|Ht].
        -- split_and!; [exact Hout | exact He | rewrite fmap_cons; left].
        -- destruct (Hq t Ht) as (H1 & H2 & H3).
           split_and!; [|exact H2 | rewrite fmap_cons; now right].
           intros Hv. apply H1, elem_of_union. now right.
Qed.

(** *** The walk *)

Lemma bfs_unfold (fuel : nat) (g : Graph) (i : nat) (queue : list nat)
    (visited emitted : gset nat) (n : nat) :
  bfs (S fuel) g (i :: queue) visited emitted n =
    match lookup_node g i with
    | None => bfs fuel g queue visited emitted n
    | Some v =>
        Linear n v ::
        (if is_decision v
         then (expand ({[i]} ∪ emitted) visited (ordered_out_edges g v)).2
         else []) ++
        bfs fuel g (queue ++ (expand ({[i]} ∪ emitted) visited (ordered_out_edges g v)).1.2)
            (expand ({[i]} ∪ emitted) visited (ordered_out_edges g v)).1.1
            ({[i]} ∪ emitted) (S n)
    end.
Proof.
  cbn [bfs]. destruct (lookup_node g i) as [v|]; [|reflexivity].
  now destruct (expand ({[i]} ∪ emitted) visited (ordered_out_edges g v))
    as [[v' q] ls].
Qed.

(** The walk opens with a linear step, if it yields anything. *)
Lemma bfs_head (fuel : nat) (g : Graph) (queue : list nat)
    (visited emitted : gset nat) (n : nat) :
  head (bfs fuel g queue visited emitted n) = None \/
  exists n' v, head (bfs fuel g queue visited emitted n) = Some (Linear n' v).
Proof.
  revert queue visited emitted n.
  induction fuel as [|fuel IH]; intros queue visited emitted n; [now left|].
  destruct queue as [|i queue]; [now left|]. rewrite bfs_unfold.
  destruct (lookup_node g i) as [v|]; [right; now exists n, v | apply IH].
Qed.

Lemma lookup_node_id (g : Graph) (i : nat) (v : LogicalNode) :
  lookup_node g i = Some v -> id v = i /\ v ∈ nodes g.
Proof.
  unfold lookup_node. intros Hf. apply find_some in Hf as [Hin Hid].
  split; [now apply Nat.eqb_eq | now apply list_elem_of_In].
Qed.

(** Every linear step about a decision node is followed by one
    continuation line per outgoing edge, in polarity order, and then by
    the next linear step or the end of the narrative. *)
Lemma bfs_decision_block (fuel : nat) (g : Graph) (queue : list nat)
    (visited emitted : gset nat) (n k : nat) (d : LogicalNode) :
  Linear k d ∈ bfs fuel g queue visited emitted n -> is_decision d = true ->
  exists before branches after,
    bfs fuel g queue visited emitted n = before ++ Linear k d :: branches ++ after /\
    branch_edge <$> branches = Some <$> by_polarity (out_edges g d) /\
    (head after = None \/ exists n' v, head after = Some (Linear n' v)).
Proof.
  revert queue visited emitted n.
  induction fuel as [|fuel IH]; intros queue visited emitted n Hin Hdec.
  { cbn in Hin. inversion Hin. }
  destruct queue as [|i queue]; [cbn in Hin; inversion Hin|].
  rewrite bfs_unfold in *. destruct (lookup_node g i) as [v|] eqn:Hv; [|now apply IH].
  apply elem_of_cons in Hin as [Heq|Hin].
  - injection Heq as <- <-. rewrite Hdec.
    exists [], (expand ({[i]} ∪ emitted) visited (ordered_out_edges g d)).2,
      (bfs fuel g (queue ++ (expand ({[i]} ∪ emitted) visited (ordered_out_edges g d)).1.2)
         (expand ({[i]} ∪ emitted) visited (ordered_out_edges g d)).1.1
         ({[i]} ∪ emitted) (S k)).
    split_and!; [reflexivity | | apply bfs_head].
    rewrite expand_lines. unfold ordered_out_edges. now rewrite Hdec.
  - apply elem_of_app in Hin as [Hin|Hin].
    + exfalso. destruct (is_decision v); [|inversion Hin].
      apply (list_elem_of_fmap_2 branch_edge) in Hin.
      rewrite expand_lines in Hin. apply list_elem_of_fmap in Hin as (e & He & _).
      discriminate.
    + destruct (IH _ _ _ _ Hin Hdec) as (before & branches & after & Heq & Hbr & Hafter).
      exists (Linear n v ::
              (if is_decision v
               then (expand ({[i]} ∪ emitted) visited (ordered_out_edges g v)).2
               else [])
              ++ before), branches, after.
      split_and!; [|exact Hbr | exact Hafter].
      rewrite Heq. cbn [app]. now rewrite <- app_assoc.
Qed.

(** Each node is dequeued, and so emitted, at most once. *)
Lemma bfs_linear_ids (fuel : nat) (g : Graph) (queue : list nat)
    (visited emitted : gset nat) (n : nat) :
  NoDup queue -> (forall i, i ∈ queue -> i ∈ visited) ->
  NoDup (omap linear_id (bfs fuel g queue visited emitted n)) /\
  (forall i, i ∈ omap linear_id (bfs fuel g queue visited emitted n) ->
             i ∈ queue \/ i ∉ visited).
Proof.
  revert queue visited emitted n.
  induction fuel as [|fuel IH]; intros queue visited emitted n Hnd Hsub.
  { cbn. split; [constructor | intros i Hi; inversion Hi]. }
  destruct queue as [|i queue]; [cbn; split; [constructor | intros j Hj; inversion Hj]|].
  rewrite bfs_unfold. apply NoDup_cons in Hnd as [Hi Hnd].
  destruct (lookup_node g i) as [v|] eqn:Hv.
  - apply lookup_node_id in Hv as [Hid _].
    pose proof (expand_queued ({[i]} ∪ emitted) visited (ordered_out_edges g v)) as Hexp.
    destruct (expand ({[i]} ∪ emitted) visited (ordered_out_edges g v))
      as [[visited' queued] lines] eqn:He.
    cbn [fst snd] in *. destruct Hexp as (Hvis & Hq & Hnew).
    assert (Hbranches : omap linear_id (if is_decision v then lines else []) = []).
    { destruct (is_decision v); [|reflexivity].
      pose proof (expand_lines ({[i]} ∪ emitted) visited (ordered_out_edges g v)) as Hl.
      rewrite He in Hl. cbn in Hl. clear -Hl.
      revert Hl. generalize (ordered_out_edges g v) as outs.
      induction lines as [|l lines IHl]; intros outs Hl; [reflexivity|].
      destruct outs as [|e outs]; [discriminate|]. cbn in Hl.
      injection Hl as Hl1 Hl2. destruct l; [discriminate|].
      cbn. now apply (IHl outs). }
    destruct (IH (queue ++ queued) visited' ({[i]} ∪ emitted) (S n)) as [IHnd IHin].
    { apply NoDup_app. split_and!; [exact Hnd | | exact Hq].
      intros j Hj Hj'. apply Hnew in Hj'. destruct Hj' as [Hj' _].
      apply Hj'. apply Hsub. now right. }
    { intros j Hj. apply elem_of_app in Hj as [Hj|Hj].
      - apply Hvis, Hsub. now right.
      - now apply Hnew in Hj. }
    cbn [omap list_omap linear_id]. change (list_omap _ _ linear_id) with (omap linear_id).
    rewrite omap_app, Hbranches. cbn [app]. rewrite Hid. split.
    + constructor; [|exact IHnd]. intros Hin. apply IHin in Hin as [Hin|Hin].
      * apply elem_of_app in Hin as [Hin|Hin]; [contradiction|].
        apply Hnew in Hin as [Hin _]. apply Hin, Hsub. left.
      * apply Hin, Hvis, Hsub. left.
    + intros j Hj. apply elem_of_cons in Hj as [->|Hj]; [left; left|].
      apply IHin in Hj as [Hj|Hj].
      * apply elem_of_app in Hj as [Hj|Hj]; [left; now right|].
        right. now apply Hnew in Hj.
      * right. intros Hjv. apply Hj, Hvis, Hjv.
  - destruct (IH queue visited emitted n Hnd) as [IHnd IHin].
    { intros j Hj. apply Hsub. now right. }
    split; [exact IHnd|]. intros j Hj. apply IHin in Hj as [Hj|Hj]; [left; now right | now right].
Qed.

Lemma branches_are_no_steps (lines : list Line) (es : list Edge) :
  branch_edge <$> lines = Some <$> es -> omap step_number lines = [].
Proof.
  revert es. induction lines as [|l lines IH]; intros [|e es] Heq;
    try discriminate; [reflexivity|].
  cbn in Heq. injection Heq as Hl Hrest. destruct l; [discriminate|].
  cbn. now apply (IH es).
Qed.

(** The step numbers count up by one from the first. *)
Lemma bfs_numbers (fuel : nat) (g : Graph) (queue : list nat)
    (visited emitted : gset nat) (n : nat) :
  omap step_number (bfs fuel g queue visited emitted n) =
    seq n (length (omap step_number (bfs fuel g queue visited emitted n))).
Proof.
  revert queue visited emitted n.
  induction fuel as [|fuel IH]; intros queue visited emitted n; [reflexivity|].
  destruct queue as [|i queue]; [reflexivity|]. rewrite bfs_unfold.
  destruct (lookup_node g i) as [v|]; [|apply IH].
  change (omap step_number (Linear n v :: ?rest)) with (n :: omap step_number rest).
  rewrite omap_app.
  assert (Hnone : omap step_number
            (if is_decision v
             then (expand ({[i]} ∪ emitted) visited (ordered_out_edges g v)).2
             else []) = []).
  { destruct (is_decision v); [|reflexivity].
    apply (branches_are_no_steps _ (ordered_out_edges g v)), expand_lines. }
  rewrite Hnone. cbn [app length seq]. f_equal. apply IH.
Qed.

Lemma generate_numbers (g : Graph) :
  omap step_number (generate g) = seq 1 (length (omap step_number (generate g))).
Proof.
  unfold generate. destruct (start_node g); [apply bfs_numbers | reflexivity].
Qed.
(** *** The fuel is enough *)

Lemma size_list_to_set_le (l : list nat) :
  size (list_to_set l : gset nat) <= length l.
Proof.
  induction l as [|x l IH]; [cbn [list_to_set length]; now rewrite size_empty|].
  cbn [list_to_set length]. rewrite size_union_alt, size_singleton.
  pose proof (subseteq_size (list_to_set l ∖ {[x]}) (list_to_set l : gset nat)) as Hs.
  assert (list_to_set l ∖ {[x]} ⊆ (list_to_set l : gset nat)) as Hsub
    by (intros y Hy; now apply elem_of_difference in Hy as [Hy _]).
  specialize (Hs Hsub). lia.
Qed.

Lemma expand_potential (g : Graph) (emitted visited : gset nat) (outs : list Edge) :
  (forall e, e ∈ outs -> target e ∈ targets g) ->
  length (expand emitted visited outs).1.2 + size (targets g ∖ (expand emitted visited outs).1.1)
    = size (targets g ∖ visited).
Proof.
  revert visited. induction outs as [|e outs IH]; intros visited Hout; [reflexivity|].
  assert (Hrest : forall e', e' ∈ outs -> target e' ∈ targets g)
    by (intros e' He'; apply Hout; now right).
  cbn [expand]. destruct (decide (target e ∈ visited)) as [Hin|Hnew].
  - specialize (IH visited Hrest). destruct (expand emitted visited outs) as [[v q] ls].
    exact IH.
  - specialize (IH ({[target e]} ∪ visited) Hrest).
    destruct (expand emitted ({[target e]} ∪ visited) outs) as [[v q] ls].
    cbn [fst snd length] in *. rewrite Nat.add_succ_l, IH.
    assert (Hsplit : targets g ∖ visited =
                     {[target e]} ∪ targets g ∖ ({[target e]} ∪ visited)).
    { apply set_eq. intros x.
      rewrite elem_of_union, !elem_of_difference, elem_of_union, elem_of_singleton.
      split.
      - intros [Hx Hv]. destruct (decide (x = target e)) as [->|Hne]; [now left|].
        right. split; [exact Hx|]. intros [?|?]; contradiction.
      - intros [->|[Hx Hv]]; [split; [apply Hout; left | exact Hnew]|].
        split; [exact Hx|]. intros Hxv. apply Hv. now right. }
    rewrite Hsplit.
    pose proof (size_union ({[target e]} : gset nat)
                  (targets g ∖ ({[target e]} ∪ visited))) as Hu.
    rewrite Hu, size_singleton; [lia|].
    intros x Hx Hx'. apply elem_of_singleton in Hx as ->.
    apply elem_of_difference in Hx' as [_ Hx']. apply Hx'.
    apply elem_of_union. left. now apply elem_of_singleton.
Qed.

Lemma out_edges_targets (g : Graph) (v : LogicalNode) (e : Edge) :
  e ∈ ordered_out_edges g v -> target e ∈ targets g.
Proof.
  intros He. unfold targets. apply elem_of_list_to_set, list_elem_of_fmap.
  exists e. split; [reflexivity|]. unfold ordered_out_edges in He.
  destruct (is_decision v).
  - rewrite by_polarity_permutation in He. now apply list_elem_of_filter in He as [_ He].
  - now apply list_elem_of_filter in He as [_ He].
Qed.

(** Once the fuel covers the potential, more fuel changes nothing: the walk
    stops because the queue is empty. *)
Lemma bfs_fuel_irrelevant (g : Graph) (fuel extra : nat) (queue : list nat)
    (visited emitted : gset nat) (n : nat) :
  potential g queue visited <= fuel ->
  bfs (fuel + extra) g queue visited emitted n = bfs fuel g queue visited emitted n.
Proof.
  revert queue visited emitted n.
  induction fuel as [|fuel IH]; intros queue visited emitted n Hpot.
  - unfold potential in Hpot. destruct queue; [|cbn in Hpot; lia].
    now destruct extra.
  - destruct queue as [|i queue]; [reflexivity|].
    cbn [Nat.add]. rewrite !bfs_unfold.
    unfold potential in Hpot. cbn [length] in Hpot.
    destruct (lookup_node g i) as [v|].
    + f_equal. f_equal. apply IH. unfold potential. rewrite length_app.
      pose proof (expand_potential g ({[i]} ∪ emitted) visited (ordered_out_edges g v)
                    (out_edges_targets g v)) as Hexp. lia.
    + apply IH. unfold potential. lia.
Qed.

Lemma generate_fuel_enough (g : Graph) (s : LogicalNode) (extra : nat) :
  bfs (enough_fuel g + extra) g [id s] {[id s]} ∅ 1 =
  bfs (enough_fuel g) g [id s] {[id s]} ∅ 1.
Proof.
  apply bfs_fuel_irrelevant. unfold potential, enough_fuel. cbn [length].
  pose proof (subseteq_size (targets g ∖ {[id s]}) (targets g)) as Hs.
  assert (targets g ∖ {[id s]} ⊆ targets g) as Hsub
    by (intros y Hy; now apply elem_of_difference in Hy as [Hy _]).
  specialize (Hs Hsub). pose proof (size_list_to_set_le (target <$> edges g)) as Hl.
  rewrite length_fmap in Hl. unfold targets in *. lia.
Qed.

(** *** The generator *)

Lemma start_node_none (g : Graph) :
  start_node g = None <->
  forall v, v ∈ nodes g -> semantic_class v <> start_class.
Proof.
  unfold start_node. split.
  - intros Hnone v Hv Hclass.
    assert (Hin : v ∈ filter (fun v => is_start v = true) (nodes g)).
    { apply list_elem_of_filter. split; [|exact Hv].
      unfold is_start. now rewrite Hclass. }
    destruct (filter _ (nodes g)); [inversion Hin | discriminate].
  - intros Hall.
    destruct (filter _ (nodes g)) as [|v rest] eqn:Hf; [reflexivity|].
    assert (Hin : v ∈ filter (fun v => is_start v = true) (nodes g))
      by (rewrite Hf; left).
    apply list_elem_of_filter in Hin as [Hstart Hin].
    exfalso. apply (Hall v Hin). unfold is_start in Hstart.
    now destruct (semantic_class v).
Qed.

Lemma generate_decision_block (g : Graph) (k : nat) (d : LogicalNode) :
  Linear k d ∈ generate g -> is_decision d = true ->
  exists before branches after,
    generate g = before ++ Linear k d :: branches ++ after /\
    branch_edge <$> branches = Some <$> by_polarity (out_edges g d) /\
    (head after = None \/ exists n' v, head after = Some (Linear n' v)).
Proof.
  unfold generate. destruct (start_node g) as [s|]; [|intros Hin; inversion Hin].
  apply bfs_decision_block.
Qed.

Lemma once_in_omap {B} (f : Line -> option B) `{EqDecision B}
    (lines : list Line) (l : Line) (b : B) :
  NoDup (omap f lines) -> l ∈ lines -> f l = Some b ->
  length (filter (fun x => f x = Some b) lines) = 1.
Proof.
  induction lines as [|x lines IH]; intros Hnd Hin Hl; [inversion Hin|].
  change (omap f (x :: lines)) with
    (match f x with Some y => y :: omap f lines | None => omap f lines end) in Hnd.
  rewrite filter_cons. destruct (decide (f x = Some b)) as [Hx|Hx].
  - rewrite Hx in Hnd. apply NoDup_cons in Hnd as [Hfresh Hnd]. cbn [length].
    f_equal. apply length_zero_iff_nil.
    destruct (filter _ lines) as [|y ys] eqn:Hf; [reflexivity|]. exfalso.
    assert (Hy : y ∈ filter (fun x => f x = Some b) lines) by (rewrite Hf; left).
    apply list_elem_of_filter in Hy as [Hy Hyin]. apply Hfresh.
    apply list_elem_of_omap. now exists y.
  - apply elem_of_cons in Hin as [->|Hin]; [congruence|].
    apply IH; [|exact Hin | exact Hl]. destruct (f x); [|exact Hnd].
    now apply NoDup_cons in Hnd as [_ Hnd].
Qed.

(** A node gets one linear step, however many edges lead to it. *)
Lemma generate_once (g : Graph) (k : nat) (d : LogicalNode) :
  Linear k d ∈ generate g -> length (steps_of (id d) (generate g)) = 1.
Proof.
  intros Hin. unfold steps_of. apply (once_in_omap linear_id _ (Linear k d));
    [|exact Hin | reflexivity].
  unfold generate. destruct (start_node g) as [s|]; [|constructor].
  apply bfs_linear_ids; [apply NoDup_singleton|].
  intros i Hi. apply list_elem_of_singleton in Hi as ->. now apply elem_of_singleton.
Qed.

(** *** How the lines read *)

Lemma render_branch (g : Graph) (e : Edge) (revisit : bool) :
  includes "↳" (render g (Branch e revisit)) = true /\
  startsWith "Step" (render g (Branch e revisit)) = false /\
  startsWith "  " (render g (Branch e revisit)) = true.
Proof.
  split_and!; [|reflexivity | reflexivity].
  cbn [render].
  apply (includes_app "  " "↳"
           (" " ++ match label e with Some text => text ++ ": " | None => "" end
            ++ target_phrase g e ++ (if revisit then " (see above)" else ""))%string).
Qed.

Lemma render_linear (g : Graph) (n : nat) (v : LogicalNode) :
  startsWith "Step" (render g (Linear n v)) = true.
Proof. reflexivity. Qed.

Lemma branches_of_edges (branches : list Line) (es : list Edge) :
  branch_edge <$> branches = Some <$> es ->
  Forall (fun l => is_branch l = true) branches /\
  length branches = length es /\
  Forall2 (fun l e => exists revisit, l = Branch e revisit) branches es.
Proof.
  revert es. induction branches as [|l branches IH]; intros [|e es] Heq;
    try discriminate.
  - split_and!; constructor.
  - cbn in Heq. injection Heq as Hl Hrest. destruct (IH es Hrest) as (H1 & H2 & H3).
    destruct l as [|e' r]; [discriminate|]. injection Hl as ->.
    split_and!; [now constructor | cbn; now rewrite H2 |].
    constructor; [now exists r | exact H3].
Qed.

Lemma yes_before_no (yes no : Edge) (es : list Edge) :
  label yes = Some "Yes" -> label no = Some "No" ->
  es ≡ₚ [yes; no] -> by_polarity es = [yes; no].
Proof.
  intros Hyes Hno Hperm.
  assert (Hry : rank yes = 0) by (unfold rank, polarity; now rewrite Hyes).
  assert (Hrn : rank no = 1) by (unfold rank, polarity; now rewrite Hno).
  assert (Hes : es = [yes; no] \/ es = [no; yes]).
  { pose proof (Permutation_length Hperm) as Hlen.
    destruct es as [|a [|b [|c es]]]; try discriminate.
    apply Permutation_length_2_inv in Hperm as [Hp|Hp]; injection Hp as -> ->; auto. }
  unfold by_polarity.
  destruct Hes as [-> | ->]; rewrite !filter_cons, !filter_nil;
    repeat (destruct (decide _) as [?|?]; try lia); reflexivity.
Qed.

Lemma polarity_vocabulary :
  polarity_of_text "Yes" = affirmative /\ polarity_of_text "True" = affirmative /\
  polarity_of_text "No" = negative /\ polarity_of_text "False" = negative /\
  priority affirmative < priority negative < priority unlabeled.
Proof. cbn. split_and!; try reflexivity; lia. Qed.

(** C3: a decision node reached by the walk gets exactly one linear step,
    directly followed by one continuation line per outgoing edge, the
    edges taken in polarity order (Yes/True, then No/False, then the rest);
    the continuation lines carry the "↳" marker and are no "Step" lines;
    after them comes the next linear step or the end. With exactly two
    outgoing edges labeled "Yes" and "No", in either order, that is one
    linear step and two branch lines, "Yes" first. *)
Theorem decision_branches_in_polarity_order (g : Graph) (k : nat) (d : LogicalNode) :
  Linear k d ∈ generate g -> is_decision d = true ->
  length (steps_of (id d) (generate g)) = 1 /\
  StronglySorted (fun a b => rank a <= rank b) (by_polarity (out_edges g d)) /\
  by_polarity (out_edges g d) ≡ₚ out_edges g d /\
  exists before branches after,
    generate g = before ++ Linear k d :: branches ++ after /\
    Forall2 (fun l e => exists revisit, l = Branch e revisit)
            branches (by_polarity (out_edges g d)) /\
    (head after = None \/ exists n' v, head after = Some (Linear n' v)) /\
    startsWith "Step" (render g (Linear k d)) = true /\
    Forall (fun l => includes "↳" (render g l) = true /\
                     startsWith "Step" (render g l) = false) branches /\
    (forall yes no, label yes = Some "Yes" -> label no = Some "No" ->
       out_edges g d ≡ₚ [yes; no] ->
       exists r1 r2, branches = [Branch yes r1; Branch no r2]).
Proof.
  intros Hin Hdec. split_and!.
  - now apply (generate_once g k d).
  - apply by_polarity_sorted.
  - apply by_polarity_permutation.
  - destruct (generate_decision_block g k d Hin Hdec)
      as (before & branches & after & Heq & Hbr & Hafter).
    destruct (branches_of_edges _ _ Hbr) as (Hall & Hlen & Hpair).
    exists before, branches, after.
    split_and!; [exact Heq | exact Hpair | exact Hafter | reflexivity | |].
    + apply Forall_forall. intros l Hl. rewrite Forall_forall in Hall.
      specialize (Hall l Hl). destruct l as [|e r]; [discriminate|].
      split; apply render_branch.
    + intros yes no Hyes Hno Hperm.
      rewrite (yes_before_no yes no _ Hyes Hno Hperm) in Hpair.
      inversion Hpair as [|l1 e1 ls1 es1 [r1 ->] Hrest]; subst.
      inversion Hrest as [|l2 e2 ls2 es2 [r2 ->] Hnil]; subst.
      inversion Hnil; subst. now exists r1, r2.
Qed.

Lemma decision_branches_in_polarity_order_witness :
  Linear 2 Shapes.check ∈ generate Shapes.flow /\
  is_decision Shapes.check = true /\
  length (steps_of (id Shapes.check) (generate Shapes.flow)) = 1.
Proof.
  assert (Hin : Linear 2 Shapes.check ∈ generate Shapes.flow).
  { apply list_elem_of_In. vm_compute. right. left. reflexivity. }
  split; [exact Hin|]. split; [reflexivity|].
  exact (proj1 (decision_branches_in_polarity_order Shapes.flow 2 Shapes.check
                  Hin eq_refl)).
Defined.

Example straight_narrative :
  narrative Shapes.straight = ["Step 1: Start"; "Step 2: Process A"; "Step 3: End"].
Proof. vm_compute. reflexivity. Qed.

Example flow_narrative :
  narrative Shapes.flow =
    [ "Step 1: Start"; "Step 2: Valid?"; "  ↳ Yes: Accept"; "  ↳ No: Reject";
      "Step 3: Accept"; "Step 4: Reject"; "Step 5: End" ].
Proof. vm_compute. reflexivity. Qed.

(** C2: with no node classified [start] the generator returns the empty
    narrative, an ordinary result; and the steps view of the component
    shows "No logic could be interpreted from this graph." exactly when the
    narrative it is given is empty, so in particular for that result. *)
Theorem no_start_empty_narrative
    (highlight trim : string -> string) (toFixed1 : Q -> string)
    (stringify : GraphView.Data -> string) (g : Graph) :
  (forall v, v ∈ nodes g -> semantic_class v <> start_class) ->
  generate g = [] /\ narrative g = [] /\
  forall (d : GraphView.Data) (st : GraphView.State),
    GraphView.viewMode st = GraphView.steps_view ->
    let view := GraphView.GraphView highlight trim toFixed1 stringify (Some d) st in
    let message :=
      GraphView.el "p" "no-items"
        [GraphView.Text "No logic could be interpreted from this graph."] in
    (GraphView.select "no-items" view = [message] <->
     length (GraphView.narrative_of d) = 0) /\
    (GraphView.narrative_of d = narrative g ->
     GraphView.select "no-items" view = [message] /\
     GraphView.select "narrative-item" view = []).
Proof.
  intros Hnone. apply start_node_none in Hnone.
  assert (Hgen : generate g = []) by (unfold generate; now rewrite Hnone).
  assert (Hnar : narrative g = []) by (unfold narrative; now rewrite Hgen).
  split_and!; [exact Hgen | exact Hnar |].
  intros d st Hmode view message.
  destruct (GraphViewFacts.steps_view_message highlight trim toFixed1 stringify
              d st Hmode) as (Hiff & _ & Hitems).
  split; [exact Hiff|]. intros Hd. subst view. rewrite Hitems, Hd, Hnar.
  split; [|reflexivity]. apply Hiff. now rewrite Hd, Hnar.
Qed.

Lemma no_start_empty_narrative_witness :
  (forall v, v ∈ nodes Shapes.headless -> semantic_class v <> start_class) /\
  narrative Shapes.headless = [].
Proof.
  assert (Hnone : forall v, v ∈ nodes Shapes.headless ->
                            semantic_class v <> start_class).
  { intros v Hv. apply list_elem_of_In in Hv. cbn in Hv.
    destruct Hv as [<-|[<-|[<-|[]]]]; discriminate. }
  split; [exact Hnone|].
  exact (proj1 (proj2 (no_start_empty_narrative (fun s => s) (fun s => s)
                         (fun _ => "") (fun _ => "")
                         Shapes.headless Hnone))).
Defined.
End NarrativeFacts.

(** ** services/api.js: requests and failures *)

Module ClientFacts.
Import Js Api JsString StringFacts.

(** X1: a failure that does not come from the HTTP status is passed on by
    [analyzeDiagram] as it is: the network error of [fetch], or the error
    of [response.json()] on an ok response. For a response that is not ok
    the body is never read, so the outcome depends on the status text
    alone. Every rejection is of one of these kinds. *)
Theorem analyzeDiagram_passes_failures_on
    (env : option string) (fetch : Request -> FetchResult) (file : File) :
  let result := analyzeDiagram env fetch file in
  (forall msg, fetch (analyze_request env file) = NetworkFailure msg ->
     result = Rejected (mkError TypeError msg)) /\
  (forall r, fetch (analyze_request env file) = Resolved r -> ok r = true ->
     (forall msg, body_of r = Malformed msg ->
        result = Rejected (mkError SyntaxError msg)) /\
     (forall msg, body_of r = ReadFailed msg ->
        result = Rejected (mkError TypeError msg))) /\
  (forall r fetch' r',
     fetch (analyze_request env file) = Resolved r -> ok r = false ->
     fetch' (analyze_request env file) = Resolved r' -> ok r' = false ->
     statusText r' = statusText r ->
     analyzeDiagram env fetch' file = result) /\
  (forall e, result = Rejected e ->
     match name e with
     | Error => exists r, fetch (analyze_request env file) = Resolved r /\ ok r = false
     | SyntaxError =>
         exists r, fetch (analyze_request env file) = Resolved r /\ ok r = true /\
                   body_of r = Malformed (message e)
     | TypeError =>
         fetch (analyze_request env file) = NetworkFailure (message e) \/
         exists r, fetch (analyze_request env file) = Resolved r /\ ok r = true /\
                   body_of r = ReadFailed (message e)
     end).
Proof.
  intros result. subst result. unfold analyzeDiagram, json, settle, bind.
  split_and!.
  - now intros msg ->.
  - intros r -> Hok. rewrite Hok. split; now intros msg ->.
  - intros r fetch' r' -> Hok -> Hok' Hst. now rewrite Hok, Hok', Hst.
  - intros e. destruct (fetch (analyze_request env file)) as [r|msg].
    + destruct (ok r) eqn:Hok; cbn [negb].
      * destruct (body_of r) as [v|msg|msg] eqn:Hb; [discriminate| |];
          intros [= <-]; cbn [name message]; [|right]; exists r; auto.
      * intros [= <-]. cbn [name]. now exists r.
    + intros [= <-]. cbn [name message]. now left.
Qed.

(** X2: both requests go to one base URL, which is never empty:
    [VITE_API_URL] when it is set and not empty, the local default
    otherwise. The analysis request is a POST carrying the one file under
    the key "file"; the health check is a GET without a body. *)
Theorem requests_share_one_base (env : option string) (file : File) :
  API_BASE env <> "" /\
  (forall u, env = Some u -> u <> "" -> API_BASE env = u) /\
  (env = None \/ env = Some "" -> API_BASE env = "http://127.0.0.1:8000") /\
  analyze_request env file =
    {| url := API_BASE env ++ "/analyze"; method := "POST";
       body := Some [("file", file)] |} /\
  health_request env =
    {| url := API_BASE env ++ "/health"; method := "GET"; body := None |} /\
  startsWith (API_BASE env) (url (analyze_request env file)) = true /\
  startsWith (API_BASE env) (url (health_request env)) = true.
Proof.
  unfold API_BASE. split_and!.
  - destruct env as [u|]; [|discriminate].
    destruct (String.eqb_spec u ""); [discriminate|assumption].
  - intros u -> Hu. now destruct (String.eqb_spec u "").
  - intros [-> | ->]; reflexivity.
  - reflexivity.
  - reflexivity.
  - apply prefix_iff. now eexists.
  - apply prefix_iff. now eexists.
Qed.

End ClientFacts.

(** ** App.jsx *)

Module AppFacts.
Import Js Api GraphView App AppView.
Local Open Scope list_scope.

Lemma after_snoc (env : option string) (es : list Event) (e : Event) (s : State) :
  after env (es ++ [e]) s = handler env e (after env es s).
Proof. unfold after. now rewrite fold_left_app. Qed.

(** X3: once the health check run on mount has settled, the status is
    "connected" when the fetch of /health resolved with an ok response and
    "disconnected" in every other case, never "checking"; the pill carries
    the status as a class and the one matching label; nothing else of the
    state moves. *)
Theorem api_status_follows_health (env : option string)
    (fetch : Request -> FetchResult) (s : State) :
  let s' := checkApiHealth env fetch s in
  let healthy := exists r, fetch (health_request env) = Resolved r /\ ok r = true in
  (healthy ->
     apiStatus s' = "connected" /\
     status_pill s' =
       el "div" "status-pill connected"
         [el "span" "status-dot" []; Text "System Ready"]) /\
  (~ healthy ->
     apiStatus s' = "disconnected" /\
     status_pill s' =
       el "div" "status-pill disconnected"
         [el "span" "status-dot" []; Text "Offline"]) /\
  analysisResult s' = analysisResult s /\ errorMessage s' = errorMessage s /\
  status_pill initial =
    el "div" "status-pill checking" [el "span" "status-dot" []; Text "Connecting..."].
Proof.
  intros s' healthy. subst s' healthy.
  unfold checkApiHealth, healthCheck, Js.try_catch, Js.bind, settle.
  destruct (fetch (health_request env)) as [r|msg] eqn:Hf.
  - destruct (ok r) eqn:Hok; split_and!; try done.
    + intros Hno. contradiction Hno. now exists r.
    + intros (r' & Hr & Hok'). injection Hr as <-. congruence.
  - split_and!; try done. intros (r & Hr & _). discriminate.
Qed.

(** X4: no handler of the root component ever sets a non-empty
    [errorMessage]: after any sequence of health checks, successful
    uploads and resets the message is empty, the critical alert is not
    rendered, and the status is one of the three the pill has a label
    for. *)
Theorem app_never_raises_alert (env : option string) (es : list Event)
    (upload : Html) (graph_view : JsVal -> Html) :
  let s := after env es initial in
  errorMessage s = "" /\
  critical_alert s = [] /\
  children_of (workspace upload graph_view s) =
    [el "div" "grid-layout" [tool_panel upload; viewport_panel graph_view s]] /\
  (apiStatus s = "checking" \/ apiStatus s = "connected" \/
   apiStatus s = "disconnected").
Proof.
  intros s. subst s.
  assert (Hinv : errorMessage (after env es initial) = "" /\
                 (apiStatus (after env es initial) = "checking" \/
                  apiStatus (after env es initial) = "connected" \/
                  apiStatus (after env es initial) = "disconnected")).
  { induction es as [|e es IH] using rev_ind; [split; [reflexivity | now left]|].
    rewrite after_snoc. destruct IH as [IHe IHs].
    destruct e as [fetch|data|]; cbn [handler].
    - split; [exact IHe|]. unfold checkApiHealth. cbn [apiStatus].
      destruct (healthCheck env fetch) as [[]|]; auto.
    - split; [reflexivity | exact IHs].
    - split; [exact IHe | exact IHs]. }
  destruct Hinv as [He Hs]. unfold workspace, critical_alert. rewrite He.
  split_and!; done.
Qed.

(** X5: the root component hands [GraphView] truthy data only: what the
    child would render for a falsy value never shows. A truthy result is
    shown in the result container; a falsy one, and any state after
    Reset, shows the same empty state as at the start. *)
Theorem graph_view_gets_truthy_data_only
    (year : Q) (upload : Html) (graph_view graph_view' : JsVal -> Html) (s : State) :
  ((forall v, truthy v = true -> graph_view v = graph_view' v) ->
   App year upload graph_view s = App year upload graph_view' s) /\
  (truthy (analysisResult s) = true ->
   exists header,
     children_of (viewport_panel graph_view s) =
       [el "div" "result-container"
          [header; el "div" "canvas-wrapper" [graph_view (analysisResult s)]]]) /\
  (truthy (analysisResult s) = false ->
   viewport_panel graph_view s = viewport_panel graph_view initial) /\
  viewport_panel graph_view (handleClearResults s) = viewport_panel graph_view initial /\
  (forall data,
     analysisResult (handleUploadSuccess data s).2 = data /\
     analysisResult (handleClearResults (handleUploadSuccess data s).2) = JNull).
Proof.
  split_and!.
  - intros Hsame. unfold App, workspace, viewport_panel.
    destruct (truthy (analysisResult s)) eqn:Ht; [|reflexivity].
    now rewrite (Hsame _ Ht).
  - intros Ht. unfold viewport_panel. rewrite Ht. eexists. reflexivity.
  - intros Ht. unfold viewport_panel. now rewrite Ht.
  - reflexivity.
  - intros data. split; reflexivity.
Qed.

End AppFacts.

(** ** Upload.jsx inside App.jsx *)

Module EndToEndFacts.
Import Js Api GraphView App AppView Upload UploadFacts.
Local Open Scope list_scope.

(** X6: a response that reports success and carries no (or falsy) data
    is taken as a success: the handler of the root component is called
    with that value, no error shows in either component, and the viewport
    keeps showing the empty state. *)
Theorem upload_without_data_is_silent
    (env : option string) (fetch : Request -> FetchResult)
    (w : World (P := App.State)) (f : File) (result data : JsVal)
    (graph_view : JsVal -> Html) :
  Upload.file (self w) = Some f ->
  succeeds env fetch f result data ->
  truthy data = false ->
  let w' := (handleUpload handleUploadSuccess env fetch w).2 in
  Upload.error (self w') = JStr "" /\
  Upload.loading (self w') = false /\
  calls w' = calls w ++ [data] /\
  errorMessage (parent w') = "" /\
  critical_alert (parent w') = [] /\
  viewport_panel graph_view (parent w') = viewport_panel graph_view App.initial.
Proof.
  intros Hfile (Hres & (success & Hs & Ht) & Hd) Hdata w'. subst w'.
  unfold handleUpload. rewrite Hfile.
  unfold Upload.seq, try_finally, Upload.try_catch, lift, call_onUploadSuccess,
    setLoading, setError, modify_self. cbn [self parent calls].
  rewrite Hres, Hs, Ht, Hd. cbn.
  unfold viewport_panel. cbn. now rewrite Hdata.
Qed.

Lemma upload_without_data_is_silent_witness :
  Upload.error
    (self (handleUpload handleUploadSuccess None Attempts.backend_forgets
             Samples.ready).2) = JStr "" /\
  calls (handleUpload handleUploadSuccess None Attempts.backend_forgets
           Samples.ready).2 = [JUndefined].
Proof.
  destruct (upload_without_data_is_silent None Attempts.backend_forgets Samples.ready
              Samples.diagram (JObj [("success", JBool true)]) JUndefined
              (fun _ => Text "") eq_refl)
    as (Herr & _ & Hcalls & _).
  - repeat split. exists (JBool true). split; reflexivity.
  - reflexivity.
  - split; [exact Herr | exact Hcalls].
Defined.

End EndToEndFacts.

(** ** components/Upload.jsx: selecting, removing, uploading *)

Module UploadFlowFacts.
Import Js Api Upload UploadEvents UploadFacts.
Local Open Scope list_scope.

(** [processFile] of the component is its synchronous part followed by
    the reader's answer. *)
Lemma processFile_in_two_steps {P} (f : File) (url : string) (w : World (P := P)) :
  processFile f url w = seq (processFile_started f) (fun _ => reader_onload url) w.
Proof. reflexivity. Qed.

Section Component.
Context {P : Type}.
Variable cb : JsVal -> P -> Outcome unit * P.
Variable env : option string.

(** [handleUpload] with a file selected, outcome by outcome. *)
Lemma handleUpload_cases (fetch : Request -> FetchResult) (w : World) (f : File) :
  file (self w) = Some f ->
  handleUpload cb env fetch w =
    (Fulfilled tt,
     match analyzeDiagram env fetch f with
     | Rejected e => settled w (shown e) (parent w) (calls w)
     | Fulfilled result =>
         match get_prop result "success" with
         | Rejected e => settled w (shown e) (parent w) (calls w)
         | Fulfilled success =>
             if truthy success
             then match get_prop result "data" with
                  | Rejected e => settled w (shown e) (parent w) (calls w)
                  | Fulfilled data =>
                      match cb data (parent w) with
                      | (Fulfilled _, p) => settled w (JStr "") p (calls w ++ [data])
                      | (Rejected e, p) => settled w (shown e) p (calls w ++ [data])
                      end
                  end
             else match get_prop result "message" with
                  | Rejected e => settled w (shown e) (parent w) (calls w)
                  | Fulfilled msg =>
                      settled w (or_else msg (JStr "Upload failed")) (parent w) (calls w)
                  end
         end
     end).
Proof.
  intros Hfile. unfold handleUpload. rewrite Hfile.
  unfold seq, try_finally, try_catch, lift, call_onUploadSuccess, setLoading,
    setError, modify_self, settled; cbn [self parent calls file loading error preview].
  destruct (analyzeDiagram env fetch f) as [result|e]; [|reflexivity].
  destruct (get_prop result "success") as [success|e]; [|reflexivity].
  destruct (truthy success).
  - destruct (get_prop result "data") as [data|e]; [|reflexivity].
    cbn [self parent calls].
    destruct (cb data (parent w)) as [[[]|e] p]; reflexivity.
  - destruct (get_prop result "message") as [msg|e]; reflexivity.
Qed.

Lemma shown_truthy (e : JsError) : shown e = JStr "" \/ truthy (shown e) = true.
Proof. right. unfold shown. now apply or_else_truthy. Qed.

Lemma handleUpload_rest (fetch : Request -> FetchResult) (w : World) :
  let w' := (handleUpload cb env fetch w).2 in
  (loading (self w) = false -> loading (self w') = false) /\
  (error (self w') = JStr "" \/ truthy (error (self w')) = true) /\
  (calls w' = calls w \/ exists data, calls w' = calls w ++ [data]).
Proof.
  intros w'. subst w'. destruct (file (self w)) as [f|] eqn:Hf.
  - rewrite (handleUpload_cases fetch w f Hf). cbn [snd].
    destruct (analyzeDiagram env fetch f) as [result|e].
    2:{ cbn. split_and!; auto using shown_truthy. }
    destruct (get_prop result "success") as [success|e].
    2:{ cbn. split_and!; auto using shown_truthy. }
    destruct (truthy success).
    + destruct (get_prop result "data") as [data|e].
      2:{ cbn. split_and!; auto using shown_truthy. }
      destruct (cb data (parent w)) as [[[]|e] p]; cbn;
        split_and!; eauto using shown_truthy.
    + destruct (get_prop result "message") as [msg|e]; cbn;
        split_and!; auto using shown_truthy.
      right. now apply or_else_truthy.
  - rewrite (handleUpload_no_file cb env fetch w Hf). cbn.
    split_and!; auto.
Qed.

Lemma handler_rest (e : Event) (w : World (P := P)) :
  let w' := (handler cb env e w).2 in
  (loading (self w) = false -> loading (self w') = false) /\
  (error (self w) = JStr "" \/ truthy (error (self w)) = true ->
   error (self w') = JStr "" \/ truthy (error (self w')) = true) /\
  (calls w' = calls w \/
   is_attempt e = true /\ exists data, calls w' = calls w ++ [data]).
Proof.
  intros w'. subst w'.
  destruct e as [files|files|result| |fetch]; cbn [handler is_attempt].
  - destruct files; cbn; auto.
  - unfold handleDrop. cbn [snd]. destruct files; cbn; auto.
  - cbn; auto.
  - cbn; auto.
  - destruct (handleUpload_rest fetch w) as (Hl & He & Hc).
    split_and!; [exact Hl | intros _; exact He |].
    destruct Hc as [Hc|Hc]; [now left | right; now split].
Qed.

Lemma states_at_rest (es : list Event) (w0 : World (P := P)) :
  loading (self w0) = false ->
  (error (self w0) = JStr "" \/ truthy (error (self w0)) = true) ->
  let w := after cb env es w0 in
  loading (self w) = false /\
  (error (self w) = JStr "" \/ truthy (error (self w)) = true) /\
  (length (calls w) <= length (calls w0) + attempts es)%nat.
Proof.
  unfold after. revert w0. induction es as [|e es IH]; intros w0 Hl He.
  - cbn. split_and!; auto. unfold attempts. cbn. lia.
  - cbn [fold_left].
    destruct (handler_rest e w0) as (Hl' & He' & Hc').
    destruct (IH _ (Hl' Hl) (He' He)) as (IHl & IHe & IHc).
    split_and!; [exact IHl | exact IHe |].
    unfold attempts in *. cbn [List.filter].
    destruct Hc' as [Hc'|[Hatt [data Hc']]]; rewrite Hc' in IHc.
    + destruct (is_attempt e); cbn [length]; lia.
    + rewrite Hatt. rewrite length_app in IHc. cbn [length] in *. lia.
Qed.
End Component.

(** X7: an upload attempt with no file selected sends nothing: whatever
    the network would answer, only the error "Please select a file" is
    set; [loading], the preview, the parent and the call log stay as they
    were. *)
Theorem upload_without_file_sends_nothing {P : Type}
    (cb : JsVal -> P -> Outcome unit * P) (env : option string)
    (fetch : Request -> FetchResult) (w : World (P := P)) :
  file (self w) = None ->
  let out := handleUpload cb env fetch w in
  out.1 = Fulfilled tt /\
  error (self out.2) = JStr "Please select a file" /\
  loading (self out.2) = loading (self w) /\
  file (self out.2) = None /\ preview (self out.2) = preview (self w) /\
  parent out.2 = parent w /\ calls out.2 = calls w /\
  (forall fetch', handleUpload cb env fetch' w = out).
Proof.
  intros Hfile out. subst out.
  rewrite (handleUpload_no_file cb env fetch w Hfile). cbn.
  split_and!; try done.
  intros fetch'. apply (handleUpload_no_file cb env fetch' w Hfile).
Qed.

Lemma upload_without_file_sends_nothing_witness :
  error (self (handleUpload App.handleUploadSuccess None Samples.backend_ok
                 (mounted App.initial)).2) = JStr "Please select a file".
Proof.
  exact (proj1 (proj2 (upload_without_file_sends_nothing App.handleUploadSuccess None
                         Samples.backend_ok (mounted App.initial) eq_refl))).
Defined.

(** X8: the error a failed upload shows. A response that is not ok shows
    "Analysis failed: <statusText>"; a network failure shows the message
    of the error [fetch] rejected with, or the fallback text when that
    message is empty; a body whose [success] is falsy shows its [message]
    when that is truthy and "Upload failed" otherwise. In each case the
    file and the preview stay, [loading] ends [false], and neither the
    parent nor the call log is touched. *)
Theorem upload_failure_message {P : Type}
    (cb : JsVal -> P -> Outcome unit * P) (env : option string)
    (fetch : Request -> FetchResult) (w : World (P := P)) (f : File) :
  file (self w) = Some f ->
  let w' := (handleUpload cb env fetch w).2 in
  (forall r, fetch (analyze_request env f) = Resolved r -> ok r = false ->
     w' = settled w (JStr ("Analysis failed: " ++ statusText r)) (parent w) (calls w)) /\
  (forall msg, fetch (analyze_request env f) = NetworkFailure msg ->
     w' = settled w (JStr (if String.eqb msg "" then "An error occurred during analysis"
                           else msg)) (parent w) (calls w)) /\
  (forall result success msg,
     analyzeDiagram env fetch f = Fulfilled result ->
     get_prop result "success" = Fulfilled success -> truthy success = false ->
     get_prop result "message" = Fulfilled msg ->
     w' = settled w (if truthy msg then msg else JStr "Upload failed")
            (parent w) (calls w)).
Proof.
  intros Hfile w'. subst w'. rewrite (handleUpload_cases cb env fetch w f Hfile).
  cbn [snd]. split_and!.
  - intros r Hr Hok. unfold analyzeDiagram. rewrite Hr. cbn. rewrite Hok. reflexivity.
  - intros msg Hr. unfold analyzeDiagram. rewrite Hr. cbn.
    unfold shown, or_else. cbn. now destruct (String.eqb msg "").
  - intros result success msg -> -> Hs ->. rewrite Hs. reflexivity.
Qed.

Lemma upload_failure_message_witness :
  (handleUpload App.handleUploadSuccess None Attempts.backend_refuses Samples.ready).2 =
    settled Samples.ready (JStr "No shapes found") App.initial [].
Proof.
  exact (proj2 (proj2 (upload_failure_message App.handleUploadSuccess None
                         Attempts.backend_refuses Samples.ready Samples.diagram eq_refl))
           _ (JBool false) (JStr "No shapes found") eq_refl eq_refl eq_refl eq_refl).
Defined.

(** X9: when the handler passed as [onUploadSuccess] throws, the upload
    attempt catches it: the handler has been called once with
    [result.data], its error message (or the fallback text when the
    message is empty) is shown as the upload error, [loading] ends
    [false], and [handleUpload] itself does not throw. *)
Theorem upload_reports_failing_handler {P : Type}
    (cb : JsVal -> P -> Outcome unit * P) (env : option string)
    (fetch : Request -> FetchResult) (w : World (P := P)) (f : File)
    (result data : JsVal) (e : JsError) (p : P) :
  file (self w) = Some f ->
  succeeds env fetch f result data ->
  cb data (parent w) = (Rejected e, p) ->
  handleUpload cb env fetch w =
    (Fulfilled tt,
     settled w (JStr (if String.eqb (message e) ""
                      then "An error occurred during analysis" else message e))
       p (calls w ++ [data])).
Proof.
  intros Hfile (Hres & (success & Hs & Ht) & Hd) Hcb.
  rewrite (handleUpload_cases cb env fetch w f Hfile), Hres, Hs, Ht, Hd, Hcb.
  unfold shown, or_else. cbn. now destruct (String.eqb (message e) "").
Qed.

Lemma upload_reports_failing_handler_witness :
  handleUpload Attempts.failing_handler None Samples.backend_ok Attempts.chosen =
    (Fulfilled tt,
     settled Attempts.chosen (JStr "render failed") tt [Samples.analysis]).
Proof.
  apply (upload_reports_failing_handler Attempts.failing_handler None
           Samples.backend_ok Attempts.chosen Samples.diagram
           (JObj [("success", JBool true); ("data", Samples.analysis)])
           Samples.analysis (mkError Error "render failed") tt eq_refl).
  - repeat split. exists (JBool true). split; reflexivity.
  - reflexivity.
Defined.

(** X10: the component at rest. After any sequence of file selections,
    drops, reader answers, removals and upload attempts, starting from
    the mounted component, [loading] is [false], the error is the empty
    string or a truthy value (so [error && ...] never renders a stray
    falsy value), and [onUploadSuccess] has been called at most once per
    upload attempt. *)
Theorem upload_state_at_rest {P : Type}
    (cb : JsVal -> P -> Outcome unit * P) (env : option string)
    (p : P) (es : list Event) :
  let w := after cb env es (mounted p) in
  loading (self w) = false /\
  (error (self w) = JStr "" \/ truthy (error (self w)) = true) /\
  (length (calls w) <= attempts es)%nat.
Proof.
  intros w. subst w.
  apply (states_at_rest cb env es (mounted p)); [reflexivity | now left].
Qed.

(** X11: Remove puts the component back to what it is on mount: whatever
    selections, drops, reader answers and upload attempts came before, its
    own state after Remove is the mounted one (no file, no preview, no
    error, not loading); the parent and the call log are not touched by
    Remove, and removing twice is removing once. *)
Theorem remove_resets_selection {P : Type}
    (cb : JsVal -> P -> Outcome unit * P) (env : option string)
    (p : P) (es : list Event) :
  let before := after cb env es (mounted p) in
  let cleared := after cb env (es ++ [RemoveClicked]) (mounted p) in
  self cleared = self (mounted p) /\
  parent cleared = parent before /\ calls cleared = calls before /\
  after cb env (es ++ [RemoveClicked; RemoveClicked]) (mounted p) = cleared.
Proof.
  intros before cleared. subst before cleared.
  destruct (states_at_rest cb env es (mounted p) eq_refl (or_introl eq_refl))
    as (Hl & _ & _).
  unfold after in *. rewrite !fold_left_app. cbn [fold_left handler].
  unfold clearSelection, seq, setFile, setPreview, setError, modify_self.
  cbn [snd self parent calls file loading error preview]. rewrite Hl.
  split_and!; reflexivity.
Qed.

(** X12: selecting and dropping files agree, and both take the first
    file only: it becomes the selection and the error is cleared, while
    the preview stays what it was until the reader answers; an empty
    selection or an empty drop changes nothing. *)
Theorem selection_takes_first_file {P : Type}
    (w : World (P := P)) (classList : list string) (files : list File) :
  (handleDrop classList files).2 w = handleFileSelect files w /\
  handleFileSelect files w = handleFileSelect (take 1 files) w /\
  (files = [] -> handleFileSelect files w = (Fulfilled tt, w)) /\
  (forall f rest, files = f :: rest ->
     handleFileSelect files w =
       (Fulfilled tt,
        mkWorld {| file := Some f; loading := loading (self w);
                   error := JStr ""; preview := preview (self w) |}
                (parent w) (calls w)) /\
     forall url, (reader_onload url (handleFileSelect files w).2).2 =
                 (processFile f url w).2).
Proof.
  destruct files as [|f rest]; split_and!; try reflexivity.
  - intros f rest Hnil. discriminate.
  - intros Hcons. discriminate.
  - intros f' rest' Hcons. injection Hcons as <- <-. split; reflexivity.
Qed.

(** X13: the preview is set by whichever reader answers last, the file by
    whichever selection came last, and nothing ties the two together. A
    reader that answers after Remove leaves a preview with no file
    selected, in which state an upload attempt only asks for a file; of
    two files dropped one after the other, the second is the one
    uploaded while the preview is that of the first when its reader
    answers last. *)
Theorem preview_can_outlive_its_file {P : Type}
    (cb : JsVal -> P -> Outcome unit * P) (env : option string)
    (w : World (P := P)) (f f' : File) (url url' : string) :
  let removed := after cb env [FilesDropped [f]; RemoveClicked; ReaderLoaded url] w in
  let swapped := after cb env [FilesDropped [f]; FilesDropped [f'];
                               ReaderLoaded url'; ReaderLoaded url] w in
  (file (self removed) = None /\ preview (self removed) = url /\
   forall fetch,
     error (self (handleUpload cb env fetch removed).2) = JStr "Please select a file" /\
     calls (handleUpload cb env fetch removed).2 = calls w) /\
  (file (self swapped) = Some f' /\ preview (self swapped) = url).
Proof.
  intros removed swapped. subst removed swapped.
  split; [split_and!; [reflexivity | reflexivity |] | split; reflexivity].
  intros fetch. split; reflexivity.
Qed.

Lemma elem_of_classList_remove (token t : string) (classList : list string) :
  t ∈ classList_remove token classList <-> t ∈ classList /\ t <> token.
Proof.
  unfold classList_remove. rewrite list_elem_of_filter. tauto.
Qed.

Lemma elem_of_classList_add (token t : string) (classList : list string) :
  t ∈ classList_add token classList <-> t ∈ classList \/ t = token.
Proof.
  unfold classList_add. destruct (bool_decide_reflect (token ∈ classList)) as [Hin|Hout].
  - split; [now left | intros [?| ->]; assumption].
  - rewrite elem_of_app, list_elem_of_singleton. tauto.
Qed.

Lemma classList_remove_absent (token : string) (classList : list string) :
  token ∉ classList -> classList_remove token classList = classList.
Proof.
  intros Hout. unfold classList_remove.
  induction classList as [|t l IH]; [reflexivity|].
  apply not_elem_of_cons in Hout as [Hne Hout].
  rewrite filter_cons_True by congruence. now rewrite IH.
Qed.

(** X14: the drop zone carries the class "drag-active" after
    [handleDragOver] and no longer after [handleDragLeave] or
    [handleDrop]; the other classes of the zone are left alone; dragging
    over twice is dragging over once; and leaving or dropping after
    dragging over gives back the class list the drag started with. *)
Theorem drag_marker_follows_the_drag {P : Type} (classList : list string)
    (files : list File) :
  ("drag-active" ∈ handleDragOver classList) /\
  ("drag-active" ∉ handleDragLeave classList) /\
  ("drag-active" ∉ (handleDrop (P := P) classList files).1) /\
  (forall t, t <> "drag-active" ->
     (t ∈ handleDragOver classList <-> t ∈ classList) /\
     (t ∈ handleDragLeave classList <-> t ∈ classList) /\
     (t ∈ (handleDrop (P := P) classList files).1 <-> t ∈ classList)) /\
  handleDragOver (handleDragOver classList) = handleDragOver classList /\
  ("drag-active" ∉ classList ->
     handleDragLeave (handleDragOver classList) = classList /\
     (handleDrop (P := P) (handleDragOver classList) files).1 = classList).
Proof.
  unfold handleDragOver, handleDragLeave, handleDrop. cbn [fst].
  split_and!.
  - apply elem_of_classList_add. now right.
  - rewrite elem_of_classList_remove. tauto.
  - rewrite elem_of_classList_remove. tauto.
  - intros t Ht. rewrite elem_of_classList_add, !elem_of_classList_remove. tauto.
  - unfold classList_add at 1.
    rewrite bool_decide_eq_true_2; [reflexivity|].
    apply elem_of_classList_add. now right.
  - intros Hout.
    assert (Hback : classList_remove "drag-active"
                      (classList_add "drag-active" classList) = classList).
    { unfold classList_add. rewrite bool_decide_eq_false_2 by exact Hout.
      unfold classList_remove. rewrite filter_app.
      fold (classList_remove "drag-active" classList).
      rewrite classList_remove_absent by exact Hout.
      rewrite filter_cons_False, filter_nil by (intros Hne; now apply Hne).
      apply app_nil_r. }
    now rewrite Hback.
Qed.

End UploadFlowFacts.

(** ** components/GraphView.jsx: the text of a step and of the clipboard *)

Module TextFacts.
Import JsString StringFacts GraphView GraphViewFacts Dom.
Local Open Scope list_scope.

Lemma split_cons_sep (c : ascii) (s : string) :
  split c (String c s) = EmptyString :: split c s.
Proof. cbn [split]. now rewrite Ascii.eqb_refl. Qed.

Lemma split_cons_other (c a : ascii) (s : string) :
  a <> c ->
  split c (String a s) =
    match split c s with
    | piece :: pieces => String a piece :: pieces
    | [] => [String a EmptyString]
    end.
Proof. intros Hac. cbn [split]. now destruct (Ascii.eqb_spec a c). Qed.

(** Splitting at the first separator. *)
Lemma split_app (c : ascii) (before after : string) :
  free_of c before ->
  split c (before +:+ String c after) = before :: split c after.
Proof.
  induction before as [|a before IH]; intros Hfree.
  - apply split_cons_sep.
  - destruct Hfree as [Hac Hfree]. cbn [String.append].
    rewrite split_cons_other by exact Hac. now rewrite (IH Hfree).
Qed.

Lemma split_free (c : ascii) (s : string) : free_of c s -> split c s = [s].
Proof.
  induction s as [|a s IH]; intros Hfree; [reflexivity|].
  destruct Hfree as [Hac Hfree].
  rewrite split_cons_other by exact Hac. now rewrite (IH Hfree).
Qed.

Lemma join_cons (sep p : string) (rest : list string) :
  rest <> [] -> join sep (p :: rest) = p +:+ sep +:+ join sep rest.
Proof. destruct rest; [contradiction|reflexivity]. Qed.

(** [s.split(c).join(c)] gives [s] back. *)
Lemma join_split (c : ascii) (s : string) : join (String c "") (split c s) = s.
Proof.
  induction s as [|a s IH]; [reflexivity|].
  destruct (Ascii.eqb_spec a c) as [->|Hac].
  - rewrite split_cons_sep, join_cons by apply split_nonempty.
    now rewrite IH.
  - rewrite split_cons_other by exact Hac.
    pose proof (split_nonempty c s) as Hne.
    destruct (split c s) as [|piece pieces]; [contradiction|].
    destruct pieces as [|q pieces].
    + cbn [join] in *. now rewrite IH.
    + rewrite join_cons by discriminate. rewrite join_cons in IH by discriminate.
      rewrite <- IH. reflexivity.
Qed.

(** [pieces.join(c).split(c)] gives the pieces back when none of them
    holds the separator and there is at least one. *)
Lemma split_join (c : ascii) (pieces : list string) :
  pieces <> [] -> Forall (free_of c) pieces ->
  split c (join (String c "") pieces) = pieces.
Proof.
  induction pieces as [|p rest IH]; intros Hne Hfree; [contradiction|].
  apply Forall_cons in Hfree as [Hp Hrest].
  destruct rest as [|q rest].
  - cbn [join]. now apply split_free.
  - rewrite join_cons by discriminate. cbn [String.append].
    rewrite split_app by exact Hp. f_equal. now apply IH.
Qed.

Lemma free_of_includes (c : ascii) (s : string) :
  free_of c s -> includes (String c "") s = false.
Proof.
  induction s as [|a s IH]; intros Hfree; [reflexivity|].
  destruct Hfree as [Hac Hfree]. rewrite includes_cons, (IH Hfree), orb_false_r.
  cbn [String.prefix]. destruct (ascii_dec c a) as [->|]; [contradiction|reflexivity].
Qed.

(** X22: the text "Copy to Clipboard" writes holds the narrative one step
    per line: splitting it at the line breaks gives the steps back, in
    order, as long as no step holds a line break itself; an empty
    narrative is copied as the empty text, which reads back as one empty
    line. *)
Theorem clipboard_text_lines (d : Data) :
  (narrative_of d = [] ->
   clipboard_text d = "" /\ split newline (clipboard_text d) = [""]) /\
  (narrative_of d <> [] -> Forall (free_of newline) (narrative_of d) ->
   split newline (clipboard_text d) = narrative_of d) /\
  join (String newline "") (split newline (clipboard_text d)) = clipboard_text d.
Proof.
  unfold clipboard_text. split_and!.
  - now intros ->.
  - intros Hne Hfree. now apply split_join.
  - apply join_split.
Qed.

(** X23: what a narrative item shows as its content. For a step with a
    colon it is the text after the first colon, later colons included,
    trimmed and then highlighted; for a step without a colon it is the
    whole step, highlighted and not trimmed. *)
Theorem narrative_item_content (highlight trim : string -> string) (step : string) :
  let item := narrative_item highlight trim step in
  (forall before after, free_of ":" before -> step = before +:+ ":" +:+ after ->
     select "step-content" item =
       [el "span" "step-content" [Inner (highlight (trim after))]]) /\
  (free_of ":" step ->
     select "step-content" item = [el "span" "step-content" [Inner (highlight step)]]).
Proof.
  intros item. subst item. unfold narrative_item, highlightText. split.
  - intros before after Hfree ->.
    rewrite (includes_app before ":" after).
    change (before +:+ ":" +:+ after) with (before +:+ String ":" after).
    rewrite split_app by exact Hfree. cbn [slice1 tl]. rewrite join_split.
    destruct (includes "↳" _); reflexivity.
  - intros Hfree. rewrite (free_of_includes ":" step Hfree).
    destruct (includes "↳" _); reflexivity.
Qed.

End TextFacts.

(** ** components/GraphView.jsx: [highlightText] *)

Module HighlightFacts.
Import JsString StringFacts Highlight.

Lemma append_nil_r (s : string) : s ++ "" = s.
Proof. induction s as [|a s IH]; cbn; congruence. Qed.

Lemma replace_from_run (word run w rest : string) :
  all_word_chars w = true ->
  replace_from word run (w ++ rest) = replace_from word (run ++ w) rest.
Proof.
  revert run. induction w as [|a w IH]; intros run Hw.
  - now rewrite append_nil_r.
  - cbn [all_word_chars] in Hw. apply andb_true_iff in Hw as [Ha Hw].
    cbn [String.append replace_from]. rewrite Ha, (IH _ Hw).
    now rewrite append_assoc.
Qed.

Lemma replace_from_sep (word run a : string) (c : ascii) (b : string) :
  is_word_char c = false ->
  replace_from word run (a ++ String c b) =
    replace_from word run a ++ String c (replace_word word b).
Proof.
  intros Hc. revert run. induction a as [|x a IH]; intros run.
  - cbn [String.append replace_from]. now rewrite Hc.
  - cbn [String.append replace_from]. destruct (is_word_char x).
    + apply IH.
    + rewrite IH. unfold replace_word. now rewrite append_assoc.
Qed.

Lemma replace_word_sep (word a : string) (c : ascii) (b : string) :
  is_word_char c = false ->
  replace_word word (a ++ String c b) =
    replace_word word a ++ String c (replace_word word b).
Proof. apply replace_from_sep. Qed.

Lemma replace_word_run (word w : string) :
  all_word_chars w = true -> replace_word word w = close word w.
Proof.
  intros Hw. unfold replace_word.
  rewrite <- (append_nil_r w) at 1. rewrite replace_from_run by exact Hw.
  reflexivity.
Qed.

Lemma matches_exclusive (word0 word w : string) :
  String.eqb (toLowerCase word0) (toLowerCase word) = false ->
  matches word0 w = true -> matches word w = false.
Proof.
  unfold matches. intros Hne Hw. apply String.eqb_eq in Hw. now rewrite Hw.
Qed.

(** A later pass leaves the markup an earlier pass put around a word
    alone. *)
Lemma replace_word_mark (word0 word w : string) :
  all_word_chars w = true -> matches word w = false ->
  replace_word word ("<span class=" ++ quote ++ "hl-" ++ toLowerCase word0 ++ quote) =
    "<span class=" ++ quote ++ "hl-" ++ toLowerCase word0 ++ quote ->
  replace_word word "/span>" = "/span>" ->
  replace_word word (mark word0 w) = mark word0 w.
Proof.
  intros Hw Hno Hprefix Hsuffix.
  assert (Hshape : mark word0 w =
            ("<span class=" ++ quote ++ "hl-" ++ toLowerCase word0 ++ quote) ++
            String ">" (w ++ String "<" "/span>")).
  { unfold mark. rewrite !append_assoc. reflexivity. }
  rewrite Hshape, !replace_word_sep by reflexivity.
  rewrite Hprefix, Hsuffix, replace_word_run by exact Hw.
  unfold close. now rewrite Hno.
Qed.

Lemma toLowerCase_app (a b : string) :
  toLowerCase (a ++ b) = toLowerCase a ++ toLowerCase b.
Proof. induction a as [|x a IH]; cbn; congruence. Qed.

Lemma includes_suffix (sub p s : string) :
  includes sub s = true -> includes sub (p ++ s) = true.
Proof.
  rewrite !includes_iff. intros (before & after & ->).
  exists (p ++ before), after. now rewrite append_assoc.
Qed.

Lemma replace_from_absent (word run s : string) :
  includes (toLowerCase word) (toLowerCase (run ++ s)) = false ->
  replace_from word run s = run ++ s.
Proof.
  assert (Hclose : forall run rest,
            includes (toLowerCase word) (toLowerCase (run ++ rest)) = false ->
            close word run = run).
  { intros r rest Hno. unfold close, matches.
    destruct (String.eqb_spec (toLowerCase r) (toLowerCase word)) as [Heq|]; [|done].
    rewrite toLowerCase_app, Heq in Hno.
    pose proof (includes_app "" (toLowerCase word) (toLowerCase rest)) as Hyes.
    cbn [String.append] in Hyes. congruence. }
  revert run. induction s as [|a s IH]; intros run Hno.
  - cbn [replace_from]. rewrite append_nil_r. apply (Hclose run ""), Hno.
  - cbn [replace_from]. destruct (is_word_char a).
    + rewrite IH; rewrite append_assoc; [reflexivity | exact Hno].
    + rewrite (Hclose run _ Hno). f_equal. f_equal. apply (IH ""). cbn [String.append].
      destruct (includes (toLowerCase word) (toLowerCase s)) eqn:Hs; [|reflexivity].
      rewrite <- Hno. symmetry.
      change (run ++ String a s) with (run ++ String a "" ++ s).
      rewrite <- append_assoc, toLowerCase_app. now apply includes_suffix.
Qed.

Lemma replace_word_absent (word text : string) :
  includes (toLowerCase word) (toLowerCase text) = false ->
  replace_word word text = text.
Proof. intros Hno. unfold replace_word. now rewrite replace_from_absent. Qed.

(** X25: a whole word that spells Start, End, Decision or action in any
    letter case is wrapped in a span of class [hl-] followed by the
    lower-case word, its own spelling kept inside; the later passes do
    not touch the markup of an earlier one; any other whole word is left
    as it is. *)
Theorem highlight_wraps_listed_words (w : string) :
  all_word_chars w = true ->
  highlight w =
    match find (fun word => matches word w) words with
    | Some word => mark word w
    | None => w
    end.
Proof.
  intros Hw. unfold highlight, words. cbn [fold_left find].
  rewrite (replace_word_run "Start") by exact Hw. unfold close at 1.
  destruct (matches "Start" w) eqn:H1.
  { rewrite !replace_word_mark; try reflexivity; try exact Hw;
      now apply (matches_exclusive "Start"). }
  rewrite (replace_word_run "End") by exact Hw. unfold close at 1.
  destruct (matches "End" w) eqn:H2.
  { rewrite !replace_word_mark; try reflexivity; try exact Hw;
      now apply (matches_exclusive "End"). }
  rewrite (replace_word_run "Decision") by exact Hw. unfold close at 1.
  destruct (matches "Decision" w) eqn:H3.
  { rewrite !replace_word_mark; try reflexivity; try exact Hw;
      now apply (matches_exclusive "Decision"). }
  rewrite (replace_word_run "action") by exact Hw. unfold close.
  now destruct (matches "action" w).
Qed.

Lemma highlight_wraps_listed_words_witness :
  highlight "DECISION" =
    "<span class=" ++ quote ++ "hl-decision" ++ quote ++ ">DECISION</span>".
Proof. exact (highlight_wraps_listed_words "DECISION" eq_refl). Defined.

(** X26: highlighting works word by word: around a character that is
    no word character (a space, a colon, a byte of the arrow "↳", a
    bracket of markup) the text before it and the text after it are
    highlighted on their own, and the character itself is kept. *)
Theorem highlight_is_local (a : string) (c : ascii) (b : string) :
  is_word_char c = false ->
  highlight (a ++ String c b) = highlight a ++ String c (highlight b).
Proof.
  intros Hc. unfold highlight, words. cbn [fold_left].
  now rewrite !replace_word_sep by exact Hc.
Qed.

Lemma highlight_is_local_witness :
  highlight "Start here" = highlight "Start" ++ String " " (highlight "here").
Proof. exact (highlight_is_local "Start" " " "here" eq_refl). Defined.

(** X27: a text in which none of the four words occurs, in any letter
    case, reaches [dangerouslySetInnerHTML] exactly as it is: nothing in
    it is escaped, markup included. *)
Theorem highlight_passes_other_text_through (text : string) :
  Forall (fun word => includes (toLowerCase word) (toLowerCase text) = false) words ->
  highlight text = text.
Proof.
  intros Hno. unfold highlight, words in *. cbn [fold_left].
  apply Forall_cons in Hno as [H1 Hno]. apply Forall_cons in Hno as [H2 Hno].
  apply Forall_cons in Hno as [H3 Hno]. apply Forall_cons in Hno as [H4 _].
  rewrite (replace_word_absent "Start") by exact H1.
  rewrite (replace_word_absent "End") by exact H2.
  rewrite (replace_word_absent "Decision") by exact H3.
  now rewrite (replace_word_absent "action") by exact H4.
Qed.

Lemma highlight_passes_other_text_through_witness :
  highlight "<img src=x>" = "<img src=x>".
Proof.
  apply highlight_passes_other_text_through.
  repeat constructor.
Defined.

End HighlightFacts.

(** ** components/GraphView.jsx: the views *)

Module ViewFacts.
Import JsString StringFacts GraphView GraphViewFacts Dom.
Local Open Scope list_scope.

Lemma classes_elem (tag cn : string) (st : list (string * string)) (kids : list Html) :
  classes (Elem tag cn st kids) = class_list cn ++ flat_map classes kids.
Proof. reflexivity. Qed.

Lemma has_class_elem (c tag cn : string) (st : list (string * string)) (kids : list Html) :
  has_class c (Elem tag cn st kids) = true <-> c ∈ class_list cn.
Proof.
  unfold has_class. rewrite existsb_exists. split.
  - intros (x & Hin & Heq). apply String.eqb_eq in Heq as ->. now apply list_elem_of_In.
  - intros Hin. exists c. split; [now apply list_elem_of_In | apply String.eqb_refl].
Qed.

(** A class that occurs nowhere in a tree selects nothing. *)
Lemma select_absent (c : string) : forall h, c ∉ classes h -> select c h = [].
Proof.
  fix IH 1. intros [tag cn st kids| | | |] Hc; try reflexivity.
  rewrite select_elem. rewrite classes_elem in Hc.
  apply not_elem_of_app in Hc as [Hcn Hkids].
  destruct (has_class c (Elem tag cn st kids)) eqn:Hhas.
  - apply has_class_elem in Hhas. contradiction.
  - cbn [app]. clear Hhas Hcn. revert kids Hkids.
    fix IHk 1. intros [|k kids] Hkids; [reflexivity|].
    cbn [flat_map] in *. apply not_elem_of_app in Hkids as [Hk Hrest].
    rewrite (IH k Hk), (IHk kids Hrest). reflexivity.
Qed.

Lemma select_absent_among (c : string) (kids : list Html) :
  c ∉ flat_map classes kids -> flat_map (select c) kids = [].
Proof.
  induction kids as [|k kids IH]; [reflexivity|]. cbn [flat_map].
  intros Hc. apply not_elem_of_app in Hc as [Hk Hrest].
  now rewrite (select_absent c k Hk), IH.
Qed.

(** An element whose descendants do not carry its class is the only one
    selected by it. *)
Lemma select_only_root (c tag cn : string) (st : list (string * string))
    (kids : list Html) :
  c ∈ class_list cn -> c ∉ flat_map classes kids ->
  select c (Elem tag cn st kids) = [Elem tag cn st kids].
Proof.
  intros Hroot Hkids. rewrite select_elem, select_absent_among by exact Hkids.
  apply has_class_elem with (tag := tag) (st := st) (kids := kids) in Hroot.
  now rewrite Hroot.
Qed.

Lemma classes_fmap {A} (f : A -> Html) (L : list string) (l : list A) :
  (forall x, classes (f x) ⊆ L) -> flat_map classes (f <$> l) ⊆ L.
Proof.
  intros Hf. induction l as [|a l IH]; cbn; [apply list_subseteq_nil|].
  intros x Hx. apply elem_of_app in Hx as [Hx|Hx]; [now apply (Hf a) | now apply IH].
Qed.

Lemma classes_imap {A} (f : nat -> A -> Html) (L : list string) (l : list A) :
  (forall i x, classes (f i x) ⊆ L) -> flat_map classes (imap f l) ⊆ L.
Proof.
  revert f. induction l as [|a l IH]; intros f Hf; cbn; [apply list_subseteq_nil|].
  intros x Hx. apply elem_of_app in Hx as [Hx|Hx]; [now apply (Hf 0%nat a)|].
  apply (IH (f ∘ S)); [intros i y; apply Hf | exact Hx].
Qed.

Lemma classes_opt_text o : flat_map classes (opt_text o) = [].
Proof. now destruct o. Qed.
Lemma classes_opt_num o : flat_map classes (opt_num o) = [].
Proof. now destruct o. Qed.
Lemma classes_text s : classes (Text s) = []. Proof. reflexivity. Qed.
Lemma classes_num q : classes (Num q) = []. Proof. reflexivity. Qed.
Lemma classes_inner s : classes (Inner s) = []. Proof. reflexivity. Qed.
Lemma classes_foreign s : classes (Foreign s) = []. Proof. reflexivity. Qed.

Lemma app_subseteq (l1 l2 L : list string) : l1 ⊆ L -> l2 ⊆ L -> l1 ++ l2 ⊆ L.
Proof. intros H1 H2 x Hx. apply elem_of_app in Hx as [Hx|Hx]; auto. Qed.

Lemma flat_map_imap_singletons {A B} (f : nat -> A -> B) (g : B -> list B) (l : list A) :
  (forall i x, g (f i x) = [f i x]) -> flat_map g (imap f l) = imap f l.
Proof.
  revert f. induction l as [|a l IH]; intros f Hg; [reflexivity|].
  cbn. rewrite Hg, IH; [reflexivity|]. intros i x. apply Hg.
Qed.

(** Flatten [classes] through the fixed part of a tree. *)
Ltac tokens :=
  repeat first
    [ rewrite classes_elem | rewrite flat_map_app
    | rewrite classes_text | rewrite classes_num | rewrite classes_inner
    | rewrite classes_foreign
    | rewrite classes_opt_text | rewrite classes_opt_num
    | progress unfold el, when
    | progress cbn [flat_map app] ].

(** Decide a statement about literal lists of strings. *)
Ltac decide_it := apply (bool_decide_unpack _); vm_compute; exact I.

Section Render.
Variable highlight : string -> string.
Variable trim : string -> string.
Variable toFixed1 : Q -> string.
Variable stringify : Data -> string.

Lemma renderNodeDetails_classes (node : Node) :
  classes (renderNodeDetails toFixed1 node) ⊆ details_classes.
Proof. unfold renderNodeDetails. tokens. decide_it. Qed.

Lemma view_controls_classes (d : Data) (st : State) :
  classes (view_controls d st) ⊆ controls_classes.
Proof.
  unfold view_controls, control_button.
  destruct (viewMode st); cbn [ViewMode_eqb]; tokens; decide_it.
Qed.

Lemma narrative_item_classes_ok (step : string) :
  classes (narrative_item highlight trim step) ⊆ narrative_item_classes.
Proof.
  unfold narrative_item, highlightText.
  destruct (includes "↳" step); tokens; decide_it.
Qed.

Lemma node_item_classes_ok (st : State) (idx : nat) (node : Node) :
  classes (node_item toFixed1 st idx node) ⊆ node_item_classes.
Proof.
  unfold node_item, renderNodeDetails.
  destruct (is_expanded st idx); tokens; decide_it.
Qed.

Lemma edge_item_classes_ok (edge : Edge) :
  classes (edge_item edge) ⊆ edge_item_classes.
Proof.
  unfold edge_item. destruct (or_str (label edge) None); tokens; decide_it.
Qed.

Lemma violation_item_classes (v : string) : classes (violation_item v) ⊆ [""].
Proof. unfold violation_item. tokens. decide_it. Qed.

Ltac subs :=
  repeat match goal with
  | |- (_ ++ _) ⊆ _ => apply app_subseteq
  | |- flat_map classes (_ <$> _) ⊆ _ =>
      apply classes_fmap; intros; etransitivity;
      [first [apply narrative_item_classes_ok | apply edge_item_classes_ok
             | apply violation_item_classes] | decide_it]
  | |- flat_map classes (imap _ _) ⊆ _ =>
      apply classes_imap; intros; etransitivity;
      [apply node_item_classes_ok | decide_it]
  | |- _ ⊆ _ => decide_it
  end.

Lemma section_inside (d : Data) (st : State) :
  flat_map classes
    (children_of (current_section highlight trim toFixed1 stringify d st)) ⊆
  inner_classes (viewMode st).
Proof.
  unfold current_section. destruct (viewMode st); cbn [inner_classes].
  - unfold graph_section. cbn [children_of]. tokens. decide_it.
  - unfold steps_section, el at 1. cbn [children_of].
    destruct (length (narrative_of d) =? 0)%nat; tokens; subs.
  - unfold nodes_section, el at 1. cbn [children_of].
    destruct (length (nodes_of d) =? 0)%nat; tokens; subs.
  - unfold edges_section, el at 1. cbn [children_of].
    destruct (length (edges_of d) =? 0)%nat; tokens; subs.
  - unfold raw_section, el at 1. cbn [children_of]. tokens. decide_it.
Qed.

Lemma section_shape (d : Data) (st : State) :
  exists tag style kids,
    current_section highlight trim toFixed1 stringify d st =
      Elem tag (section_class (viewMode st)) style kids.
Proof.
  unfold current_section. destruct (viewMode st); do 3 eexists; reflexivity.
Qed.

Lemma graph_content_classes (d : Data) (st : State) :
  classes (graph_content highlight trim toFixed1 stringify d st) ⊆
    content_classes (viewMode st).
Proof.
  pose proof (section_inside d st) as Hin.
  destruct (section_shape d st) as (tag & style & kids & Hshape).
  change (graph_content highlight trim toFixed1 stringify d st)
    with (Elem "div" "graph-content" []
            [current_section highlight trim toFixed1 stringify d st]).
  rewrite Hshape in *. cbn [children_of] in Hin.
  rewrite classes_elem. cbn [flat_map]. rewrite classes_elem, app_nil_r.
  unfold content_classes.
  apply app_subseteq; [decide_it|]. apply app_subseteq.
  - destruct (viewMode st); decide_it.
  - intros x Hx. do 2 right. now apply Hin.
Qed.

Lemma sanity_check_area_classes (m : Metadata) :
  flat_map classes (sanity_check_area m) ⊆
    ["sanity-check-area"; "warning-title"; "violations-list"; ""].
Proof.
  unfold sanity_check_area.
  destruct (sanity_violations m) as [vs|]; [destruct (0 <? length vs)%nat|];
    tokens; subs.
Qed.

Lemma graph_metadata_shape (m : Metadata) :
  graph_metadata m = Elem "div" "graph-metadata" [] (children_of (graph_metadata m)).
Proof. reflexivity. Qed.

Lemma graph_metadata_classes_inner (m : Metadata) :
  flat_map classes (children_of (graph_metadata m)) ⊆ metadata_inner_classes.
Proof.
  unfold graph_metadata, sanity_check_area, el at 1. cbn [children_of].
  destruct (sanity_violations m) as [vs|]; [destruct (0 <? length vs)%nat|];
    tokens; subs.
Qed.

Lemma graph_metadata_classes (m : Metadata) :
  classes (graph_metadata m) ⊆ metadata_classes.
Proof.
  pose proof (graph_metadata_classes_inner m) as Hin.
  rewrite graph_metadata_shape, classes_elem.
  apply app_subseteq; [decide_it|].
  intros x Hx. right. now apply Hin.
Qed.

Lemma node_item_selected (st : State) (idx : nat) (node : Node) :
  select "node-item" (node_item toFixed1 st idx node) = [node_item toFixed1 st idx node].
Proof.
  unfold node_item, el at 1.
  rewrite select_elem.
  replace (has_class "node-item" _) with true
    by (destruct (is_expanded st idx); reflexivity).
  rewrite flat_map_app.
  replace (flat_map (select "node-item") (when _ _)) with (@nil Html).
  2:{ destruct (is_expanded st idx); [|reflexivity]. cbn [when flat_map].
      rewrite select_absent; [reflexivity|].
      intros Hin. apply renderNodeDetails_classes in Hin. revert Hin. decide_it. }
  walk. reflexivity.
Qed.

Lemma node_item_details (st : State) (idx : nat) (node : Node) :
  select "node-details" (node_item toFixed1 st idx node) =
    when (is_expanded st idx) (renderNodeDetails toFixed1 node).
Proof.
  unfold node_item. destruct (is_expanded st idx).
  - walk. unfold renderNodeDetails. walk. reflexivity.
  - walk. reflexivity.
Qed.

Lemma node_item_no_message (st : State) (idx : nat) (node : Node) :
  select "no-items" (node_item toFixed1 st idx node) = [].
Proof.
  apply select_absent. intros Hin. apply node_item_classes_ok in Hin.
  revert Hin. decide_it.
Qed.

(** Of the items of a list only the expanded one contributes details. *)
Lemma details_of_items (st : State) (l : list Node) (k : nat) :
  flat_map (select "node-details")
    (imap (fun i => node_item toFixed1 st (k + i)) l) =
  match expandedNode st with
  | Some e =>
      if (k <=? e)%nat
      then match l !! (e - k)%nat with
           | Some node => [renderNodeDetails toFixed1 node]
           | None => []
           end
      else []
  | None => []
  end.
Proof.
  revert k. induction l as [|a l IH]; intros k.
  - cbn. destruct (expandedNode st) as [e|]; [|reflexivity].
    now destruct (k <=? e)%nat.
  - cbn [imap flat_map]. rewrite node_item_details.
    rewrite (imap_ext _ (fun i => node_item toFixed1 st (S k + i)))
      by (intros i x _; cbn; f_equal; lia).
    rewrite IH. unfold is_expanded.
    destruct (expandedNode st) as [e|]; [|reflexivity].
    rewrite Nat.add_0_r.
    destruct (Nat.eqb_spec e k) as [->|Hne].
    + rewrite Nat.leb_refl, Nat.sub_diag. cbn [when lookup list_lookup].
      destruct (Nat.leb_spec (S k) k); [lia|]. now rewrite app_nil_r.
    + cbn [when app].
      destruct (Nat.leb_spec k e) as [Hle|Hgt].
      * destruct (Nat.leb_spec (S k) e); [|lia].
        replace (e - k)%nat with (S (e - S k)) by lia. reflexivity.
      * destruct (Nat.leb_spec (S k) e); [lia|reflexivity].
Qed.

Lemma nodes_section_items (d : Data) (st : State) :
  select "node-item" (nodes_section toFixed1 d st) =
    imap (node_item toFixed1 st) (nodes_of d).
Proof.
  unfold nodes_section.
  destruct (nodes_of d) as [|n ns] eqn:Hn; cbn [length Nat.eqb]; walk; [reflexivity|].
  rewrite flat_map_imap_singletons by apply node_item_selected.
  now rewrite !app_nil_r.
Qed.

Lemma nodes_section_message (d : Data) (st : State) :
  select "no-items" (nodes_section toFixed1 d st) =
    if (length (nodes_of d) =? 0)%nat
    then [el "p" "no-items" [Text "No nodes detected"]] else [].
Proof.
  unfold nodes_section.
  destruct (nodes_of d) as [|n ns] eqn:Hn; cbn [length Nat.eqb]; walk; [reflexivity|].
  now rewrite (flat_map_imap_nil (select "no-items"))
    by (intros; apply node_item_no_message).
Qed.

Lemma nodes_section_details (d : Data) (st : State) :
  select "node-details" (nodes_section toFixed1 d st) =
    match expandedNode st ≫= (fun e => nodes_of d !! e) with
    | Some node => [renderNodeDetails toFixed1 node]
    | None => []
    end.
Proof.
  unfold nodes_section.
  destruct (nodes_of d) as [|n ns] eqn:Hn; cbn [length Nat.eqb]; walk.
  - now destruct (expandedNode st).
  - pose proof (details_of_items st (n :: ns) 0) as Hd.
    cbn [Nat.add] in Hd. rewrite !app_nil_r.
    etransitivity; [exact Hd|].
    destruct (expandedNode st) as [e|]; [|reflexivity].
    cbn [mbind option_bind Nat.leb]. now rewrite Nat.sub_0_r.
Qed.

(** Queries on the whole view split over its three parts. *)
Lemma select_view (c : string) (d : Data) (st : State) :
  String.eqb c "graph-view-container" = false ->
  select c (GraphView highlight trim toFixed1 stringify (Some d) st) =
    select c (view_controls d st) ++
    select c (graph_content highlight trim toFixed1 stringify d st) ++
    select c (graph_metadata (graphMetadata_of d)).
Proof.
  intros Hroot. unfold GraphView, el.
  rewrite select_elem. cbn [flat_map]. unfold has_class.
  change (class_list "graph-view-container") with ["graph-view-container"].
  cbn [existsb]. rewrite Hroot. cbn [orb app]. now rewrite !app_nil_r.
Qed.

Lemma select_content (c : string) (d : Data) (st : State) :
  String.eqb c "graph-content" = false ->
  select c (graph_content highlight trim toFixed1 stringify d st) =
    select c (current_section highlight trim toFixed1 stringify d st).
Proof.
  intros Hcontent. unfold graph_content, current_section, el.
  rewrite select_elem. cbn [flat_map]. unfold has_class.
  change (class_list "graph-content") with ["graph-content"].
  cbn [existsb]. rewrite Hcontent. cbn [orb app]. now rewrite !app_nil_r.
Qed.

Lemma select_root (c : string) (d : Data) (st : State) :
  String.eqb c "graph-view-container" = false ->
  String.eqb c "graph-content" = false ->
  select c (GraphView highlight trim toFixed1 stringify (Some d) st) =
    select c (view_controls d st) ++
    select c (current_section highlight trim toFixed1 stringify d st) ++
    select c (graph_metadata (graphMetadata_of d)).
Proof.
  intros Hroot Hcontent. now rewrite select_view, select_content.
Qed.

Lemma content_quiet (c : string) (d : Data) (st : State) :
  (forall mode, c ∉ content_classes mode) ->
  select c (graph_content highlight trim toFixed1 stringify d st) = [].
Proof.
  intros Hc. apply select_absent. intros Hin.
  apply graph_content_classes in Hin. now apply (Hc (viewMode st)).
Qed.
End Render.

Ltac quiet_controls c d st :=
  rewrite (select_absent c (view_controls d st))
    by (let H := fresh in intros H; apply view_controls_classes in H; revert H; decide_it).
Ltac quiet_metadata c d :=
  rewrite (select_absent c (graph_metadata (graphMetadata_of d)))
    by (let H := fresh in intros H; apply graph_metadata_classes in H; revert H; decide_it).
Ltac quiet_content c :=
  rewrite (content_quiet _ _ _ _ c) by (intros []; decide_it).

(** X15: in the nodes view every node of the result is listed once, in
    order; the message "No nodes detected" shows exactly when there is
    none; and details are rendered for at most one node, the one whose
    index is expanded, and for none when that index is beyond the list. *)
Theorem nodes_view_lists_every_node
    (highlight trim : string -> string) (toFixed1 : Q -> string)
    (stringify : Data -> string) (d : Data) (st : State) :
  viewMode st = nodes_view ->
  let view := GraphView highlight trim toFixed1 stringify (Some d) st in
  select "node-item" view = imap (node_item toFixed1 st) (nodes_of d) /\
  (select "no-items" view = [el "p" "no-items" [Text "No nodes detected"]] <->
   nodes_of d = []) /\
  (nodes_of d <> [] -> select "no-items" view = []) /\
  select "node-details" view =
    match expandedNode st ≫= (fun e => nodes_of d !! e) with
    | Some node => [renderNodeDetails toFixed1 node]
    | None => []
    end.
Proof.
  intros Hmode view. subst view.
  rewrite !select_root by reflexivity. unfold current_section. rewrite Hmode.
  quiet_controls "node-item" d st. quiet_controls "no-items" d st.
  quiet_controls "node-details" d st.
  quiet_metadata "node-item" d. quiet_metadata "no-items" d.
  quiet_metadata "node-details" d.
  rewrite nodes_section_items, nodes_section_message, nodes_section_details.
  rewrite !app_nil_r. cbn [app].
  destruct (nodes_of d) as [|n ns]; cbn [length Nat.eqb]; split_and!; done.
Qed.

Lemma nodes_view_lists_every_node_witness :
  select "node-item"
    (GraphView Screens.same Screens.same Screens.percent Screens.braces
       (Some Screens.small) Screens.node_list) =
  [node_item Screens.percent Screens.node_list 0 Screens.entry].
Proof.
  exact (proj1 (nodes_view_lists_every_node Screens.same Screens.same Screens.percent
                  Screens.braces Screens.small Screens.node_list eq_refl)).
Defined.

(** X16: a click on the header of a listed node shows its details when
    they were hidden and hides them when they were shown; either way the
    details of every other node are hidden. *)
Theorem header_click_toggles_details
    (highlight trim : string -> string) (toFixed1 : Q -> string)
    (stringify : Data -> string) (d : Data) (st : State) (idx : nat) (node : Node) :
  viewMode st = nodes_view ->
  nodes_of d !! idx = Some node ->
  select "node-details"
    (GraphView highlight trim toFixed1 stringify (Some d) (toggleExpanded idx st)) =
  if is_expanded st idx then [] else [renderNodeDetails toFixed1 node].
Proof.
  intros Hmode Hnode.
  rewrite select_root by reflexivity. unfold current_section.
  replace (viewMode (toggleExpanded idx st)) with nodes_view by now rewrite <- Hmode.
  quiet_controls "node-details" d (toggleExpanded idx st).
  quiet_metadata "node-details" d.
  rewrite nodes_section_details, app_nil_r. cbn [app].
  unfold toggleExpanded, is_expanded. cbn [expandedNode].
  destruct (expandedNode st) as [e|]; [destruct (e =? idx)%nat|];
    cbn [mbind option_bind]; now rewrite ?Hnode.
Qed.

Lemma header_click_toggles_details_witness :
  select "node-details"
    (GraphView Screens.same Screens.same Screens.percent Screens.braces
       (Some Screens.small) (toggleExpanded 0 Screens.node_list)) =
  [renderNodeDetails Screens.percent Screens.entry].
Proof.
  exact (header_click_toggles_details Screens.same Screens.same Screens.percent
           Screens.braces Screens.small Screens.node_list 0 Screens.entry
           eq_refl eq_refl).
Defined.

Lemma view_controls_active (d : Data) (st : State) :
  select "active" (view_controls d st) =
    [el "button" "control-btn active" (caption d (viewMode st))].
Proof. unfold view_controls. destruct (viewMode st); reflexivity. Qed.

Lemma view_controls_buttons (d : Data) (st : State) :
  select "control-btn" (view_controls d st) = children_of (view_controls d st).
Proof. unfold view_controls. destruct (viewMode st); reflexivity. Qed.

Lemma active_control (highlight trim : string -> string) (toFixed1 : Q -> string)
    (stringify : Data -> string) (d : Data) (st : State) :
  select "active" (GraphView highlight trim toFixed1 stringify (Some d) st) =
    [el "button" "control-btn active" (caption d (viewMode st))].
Proof.
  rewrite select_view by reflexivity.
  quiet_metadata "active" d. quiet_content "active".
  now rewrite view_controls_active.
Qed.

(** X17: of the five view controls exactly one is marked active, the one
    of the current view mode, and nothing else in the view carries that
    mark; after a click on a control it is that control, and the expanded
    node is kept. *)
Theorem one_control_is_active
    (highlight trim : string -> string) (toFixed1 : Q -> string)
    (stringify : Data -> string) (d : Data) (st : State) :
  let view := GraphView highlight trim toFixed1 stringify (Some d) in
  select "active" (view st) =
    [el "button" "control-btn active" (caption d (viewMode st))] /\
  length (select "control-btn" (view st)) = 5%nat /\
  (forall mode,
     select "active" (view (setViewMode mode st)) =
       [el "button" "control-btn active" (caption d mode)] /\
     expandedNode (setViewMode mode st) = expandedNode st).
Proof.
  intros view. subst view. split_and!.
  - apply active_control.
  - rewrite select_view by reflexivity.
    quiet_metadata "control-btn" d. quiet_content "control-btn".
    now rewrite view_controls_buttons.
  - intros mode. split; [apply active_control | reflexivity].
Qed.

Lemma section_class_literal (mode : ViewMode) :
  String.eqb (section_class mode) "graph-view-container" = false /\
  String.eqb (section_class mode) "graph-content" = false.
Proof. destruct mode; split; reflexivity. Qed.

(** X18: the content area holds exactly one section, the one of the
    current view mode: the class that marks the section of a mode is
    found in the view exactly when that mode is the current one, and then
    once. *)
Theorem one_section_per_mode
    (highlight trim : string -> string) (toFixed1 : Q -> string)
    (stringify : Data -> string) (d : Data) (st : State) (mode : ViewMode) :
  let view := GraphView highlight trim toFixed1 stringify (Some d) st in
  (select (section_class mode) view <> [] <-> viewMode st = mode) /\
  select (section_class (viewMode st)) view =
    [current_section highlight trim toFixed1 stringify d st] /\
  children_of (graph_content highlight trim toFixed1 stringify d st) =
    [current_section highlight trim toFixed1 stringify d st].
Proof.
  intros view. subst view.
  assert (Hsplit : forall m,
            select (section_class m)
              (GraphView highlight trim toFixed1 stringify (Some d) st) =
            select (section_class m)
              (graph_content highlight trim toFixed1 stringify d st)).
  { intros m. destruct (section_class_literal m) as [Hroot _].
    rewrite select_view by exact Hroot.
    rewrite (select_absent _ (view_controls d st)).
    2:{ intros Hin. apply view_controls_classes in Hin. revert Hin.
        destruct m; decide_it. }
    rewrite (select_absent _ (graph_metadata _)).
    2:{ intros Hin. apply graph_metadata_classes in Hin. revert Hin.
        destruct m; decide_it. }
    now rewrite app_nil_r. }
  rewrite !Hsplit.
  assert (Hother : viewMode st <> mode ->
            select (section_class mode)
              (graph_content highlight trim toFixed1 stringify d st) = []).
  { intros Hne. apply select_absent. intros Hin.
    apply graph_content_classes in Hin. revert Hin.
    destruct (viewMode st), mode; try (now contradiction Hne); decide_it. }
  assert (Hsame : select (section_class (viewMode st))
                    (graph_content highlight trim toFixed1 stringify d st) =
                  [current_section highlight trim toFixed1 stringify d st]).
  { rewrite select_content by apply section_class_literal.
    pose proof (section_inside highlight trim toFixed1 stringify d st) as Hin.
    destruct (section_shape highlight trim toFixed1 stringify d st)
      as (tag & style & kids & Hshape).
    rewrite Hshape in *. cbn [children_of] in Hin. apply select_only_root.
    - destruct (viewMode st); decide_it.
    - intros Hc. apply Hin in Hc. revert Hc. destruct (viewMode st); decide_it. }
  split_and!.
  - split.
    + intros Hsel.
      assert (Hdec : viewMode st = mode \/ viewMode st <> mode)
        by (destruct (viewMode st), mode; (now left) || (now right)).
      destruct Hdec as [|Hne]; [done|]. now rewrite Hother in Hsel.
    + intros <-. now rewrite Hsame.
  - exact Hsame.
  - reflexivity.
Qed.

Lemma edge_item_selected (edge : Edge) :
  select "edge-item" (edge_item edge) = [edge_item edge].
Proof. unfold edge_item. destruct (or_str (label edge) None); reflexivity. Qed.

Lemma edge_item_no_message (edge : Edge) : select "no-items" (edge_item edge) = [].
Proof. unfold edge_item. destruct (or_str (label edge) None); reflexivity. Qed.

Lemma edges_section_items (d : Data) :
  select "edge-item" (edges_section d) = edge_item <$> edges_of d.
Proof.
  unfold edges_section.
  destruct (edges_of d) as [|e es] eqn:He; cbn [length Nat.eqb]; walk; [reflexivity|].
  rewrite flat_map_singletons by apply edge_item_selected.
  now rewrite !app_nil_r.
Qed.

Lemma edges_section_message (d : Data) :
  select "no-items" (edges_section d) =
    if (length (edges_of d) =? 0)%nat
    then [el "p" "no-items" [Text "No edges detected"]] else [].
Proof.
  unfold edges_section.
  destruct (edges_of d) as [|e es] eqn:He; cbn [length Nat.eqb]; walk; [reflexivity|].
  now rewrite (flat_map_fmap_nil (select "no-items"))
    by (intros; apply edge_item_no_message).
Qed.

(** X19: in the edges view every edge of the result is listed once, in
    order, with its source and its target; the message "No edges
    detected" shows exactly when there is none; and an edge shows a
    "Label:" line exactly when its label is present and not empty. *)
Theorem edges_view_lists_every_edge
    (highlight trim : string -> string) (toFixed1 : Q -> string)
    (stringify : Data -> string) (d : Data) (st : State) :
  viewMode st = edges_view ->
  let view := GraphView highlight trim toFixed1 stringify (Some d) st in
  select "edge-item" view = edge_item <$> edges_of d /\
  (select "no-items" view = [el "p" "no-items" [Text "No edges detected"]] <->
   edges_of d = []) /\
  (edges_of d <> [] -> select "no-items" view = []) /\
  (forall e,
     by_tag "strong" (edge_item e) =
       [el "strong" "" [Text (source e)]; el "strong" "" [Text (target e)]] /\
     (forall l, label e = Some l -> l <> "" ->
        by_tag "p" (edge_item e) =
          [ el "p" "" [el "strong" "" [Text (source e)]; Text " → ";
                       el "strong" "" [Text (target e)]];
            el "p" "" [Text "Label: "; Text l] ]) /\
     (label e = None \/ label e = Some "" ->
        by_tag "p" (edge_item e) =
          [ el "p" "" [el "strong" "" [Text (source e)]; Text " → ";
                       el "strong" "" [Text (target e)]] ])).
Proof.
  intros Hmode view. subst view.
  rewrite !select_root by reflexivity. unfold current_section. rewrite Hmode.
  quiet_controls "edge-item" d st. quiet_controls "no-items" d st.
  quiet_metadata "edge-item" d. quiet_metadata "no-items" d.
  rewrite edges_section_items, edges_section_message, !app_nil_r. cbn [app].
  split_and!; [done | | |].
  - destruct (edges_of d); cbn [length Nat.eqb]; split; done.
  - destruct (edges_of d); cbn [length Nat.eqb]; done.
  - intros e. unfold edge_item. split_and!.
    + destruct (or_str (label e) None); reflexivity.
    + intros l -> Hl. cbn [or_str].
      destruct (String.eqb_spec l ""); [contradiction|reflexivity].
    + intros [-> | ->]; reflexivity.
Qed.

Lemma edges_view_lists_every_edge_witness :
  select "edge-item"
    (GraphView Screens.same Screens.same Screens.percent Screens.braces
       (Some Screens.small) Screens.edge_list) =
  [edge_item Screens.arrow].
Proof.
  exact (proj1 (edges_view_lists_every_edge Screens.same Screens.same Screens.percent
                  Screens.braces Screens.small Screens.edge_list eq_refl)).
Defined.

Lemma violation_item_quiet (c v : string) :
  String.eqb c "" = false -> select c (violation_item v) = [].
Proof.
  intros Hc. apply select_absent. intros Hin. apply violation_item_classes in Hin.
  apply list_elem_of_singleton in Hin as ->. discriminate.
Qed.

Lemma graph_metadata_selected (m : Metadata) :
  select "graph-metadata" (graph_metadata m) = [graph_metadata m].
Proof.
  rewrite (graph_metadata_shape m) at 1.
  rewrite select_only_root; [now rewrite <- graph_metadata_shape|decide_it|].
  intros Hin. apply graph_metadata_classes_inner in Hin. revert Hin. decide_it.
Qed.

Lemma graph_metadata_values (m : Metadata) :
  select "metric-value" (graph_metadata m) =
    [ el "span" "metric-value" (opt_num (node_count m));
      el "span" "metric-value" (opt_num (node_reduction_pct m) ++ [Text "%"]) ].
Proof.
  unfold graph_metadata, el at 1. rewrite select_elem, flat_map_app.
  rewrite (select_absent_among _ (sanity_check_area m)).
  2:{ intros Hin. apply sanity_check_area_classes in Hin. revert Hin. decide_it. }
  destruct (node_count m), (node_reduction_pct m); reflexivity.
Qed.

(** X20: the message "No data to display. Upload an image first." shows
    exactly when the component is given no data; in that case there are
    no view controls and no metadata panel, and with data there always
    are. *)
Theorem no_data_message_iff_no_data
    (highlight trim : string -> string) (toFixed1 : Q -> string)
    (stringify : Data -> string) (data : option Data) (st : State) :
  let view := GraphView highlight trim toFixed1 stringify data st in
  (select "no-data" view =
     [el "p" "no-data" [Text "No data to display. Upload an image first."]] <->
   data = None) /\
  (data <> None -> select "no-data" view = []) /\
  (select "control-btn" view = [] <-> data = None) /\
  (select "graph-metadata" view = [] <-> data = None).
Proof.
  intros view. subst view. destruct data as [d|].
  - rewrite !select_view by reflexivity.
    quiet_controls "no-data" d st. quiet_controls "graph-metadata" d st.
    quiet_metadata "no-data" d. quiet_metadata "control-btn" d.
    quiet_content "no-data". quiet_content "control-btn".
    quiet_content "graph-metadata".
    rewrite view_controls_buttons, !app_nil_r. cbn [app].
    rewrite graph_metadata_selected.
    split_and!; try done; split; discriminate.
  - split_and!; done.
Qed.

(** X21: with data the metadata panel is always rendered, once, in every
    view mode, with exactly two metric values; when the result carries no
    graph metadata the node count is blank, the noise reduction reads as
    a bare "%", and no warning block is shown. *)
Theorem metadata_panel_always_rendered
    (highlight trim : string -> string) (toFixed1 : Q -> string)
    (stringify : Data -> string) (d : Data) (st : State) :
  let view := GraphView highlight trim toFixed1 stringify (Some d) st in
  let m := graphMetadata_of d in
  select "graph-metadata" view = [graph_metadata m] /\
  select "metric-value" view =
    [ el "span" "metric-value" (opt_num (node_count m));
      el "span" "metric-value" (opt_num (node_reduction_pct m) ++ [Text "%"]) ] /\
  (graph d = None \/ (exists g, graph d = Some g /\ metadata g = None) ->
   select "metric-value" view =
     [ el "span" "metric-value" []; el "span" "metric-value" [Text "%"] ] /\
   select "sanity-check-area" view = []).
Proof.
  intros view m. subst view m.
  rewrite !select_view by reflexivity.
  quiet_controls "graph-metadata" d st. quiet_controls "metric-value" d st.
  quiet_controls "sanity-check-area" d st.
  quiet_content "graph-metadata". quiet_content "metric-value".
  quiet_content "sanity-check-area". cbn [app].
  rewrite graph_metadata_selected, graph_metadata_values.
  split_and!; try done.
  intros Hnone. unfold graphMetadata_of.
  destruct Hnone as [-> | (g & -> & Hg)]; cbn [mbind option_bind]; rewrite ?Hg;
    split; reflexivity.
Qed.

End ViewFacts.

(** ** components/GraphView.jsx: the colour of a node *)

Module ColourFacts.
Import JsString GraphView Dom.

Lemma lower_ascii_idempotent (a : ascii) : lower_ascii (lower_ascii a) = lower_ascii a.
Proof. destruct a as [[] [] [] [] [] [] [] []]; reflexivity. Qed.

Lemma toLowerCase_idempotent (s : string) : toLowerCase (toLowerCase s) = toLowerCase s.
Proof.
  induction s as [|a s IH]; [reflexivity|].
  cbn [toLowerCase]. now rewrite lower_ascii_idempotent, IH.
Qed.

Lemma toLowerCase_nonempty (s : string) : s <> "" -> toLowerCase s <> "".
Proof. destruct s; [contradiction|discriminate]. Qed.

(** X24: the colour of a node is read from its semantic class, and from
    its type only when the class is missing or empty. Letter case does
    not matter; the five known classes have the colours of the switch,
    anything else is grey, and so is a node with neither field. *)
Theorem getNodeColor_reads_class_then_type (node : Node) :
  (forall s, semantic_class node = Some s -> s <> "" ->
     (forall other, semantic_class other = Some s ->
        getNodeColor other = getNodeColor node) /\
     getNodeColor (with_class node (Some (toLowerCase s))) = getNodeColor node /\
     (forall colour, (toLowerCase s, colour) ∈ palette -> getNodeColor node = colour) /\
     (toLowerCase s ∉ palette.*1 -> getNodeColor node = "#607D8B")) /\
  (semantic_class node = None \/ semantic_class node = Some "" ->
     getNodeColor node = getNodeColor (with_class node (type node))) /\
  ((semantic_class node = None \/ semantic_class node = Some "") ->
   (type node = None \/ type node = Some "") ->
     getNodeColor node = "#607D8B").
Proof.
  split_and!.
  - intros s Hs Hne. unfold getNodeColor. rewrite Hs.
    cbn [or_str with_class semantic_class].
    destruct (String.eqb_spec s "") as [|_]; [contradiction|].
    cbn [default from_option]. unfold Datatypes.id.
    split_and!.
    + intros other ->. cbn [or_str].
      destruct (String.eqb_spec s "") as [|_]; [contradiction|]. reflexivity.
    + pose proof (toLowerCase_nonempty s Hne) as Hl.
      destruct (String.eqb_spec (toLowerCase s) "") as [|_]; [contradiction|].
      cbn [default from_option]. unfold Datatypes.id.
      now rewrite toLowerCase_idempotent.
    + intros colour Hin. unfold palette in Hin.
      repeat (apply elem_of_cons in Hin as [Heq|Hin];
              [injection Heq as -> ->; reflexivity|]).
      now apply elem_of_nil in Hin.
    + intros Hout. cbn in Hout.
      repeat (apply not_elem_of_cons in Hout as [Hne' Hout];
              apply String.eqb_neq in Hne'; rewrite Hne'; clear Hne').
      reflexivity.
  - intros [Hs|Hs]; unfold getNodeColor; rewrite Hs;
      cbn [or_str with_class semantic_class type];
      destruct (type node) as [t|]; cbn; try reflexivity;
      destruct (String.eqb t ""); reflexivity.
  - intros [Hs|Hs] [Ht|Ht]; unfold getNodeColor; rewrite Hs, Ht; reflexivity.
Qed.

End ColourFacts.

(** ** components/GraphView.jsx: the sanity warnings *)

Module WarningFacts.
Import JsString StringFacts GraphView GraphViewFacts Dom ViewFacts.
Local Open Scope list_scope.

(** [data.graph?.metadata || {}], then [.sanity_violations]. *)
Lemma violations_of_data (d : Data) :
  sanity_violations (graphMetadata_of d) = (g ← graph d; m ← metadata g; sanity_violations m).
Proof.
  unfold graphMetadata_of. destruct (graph d) as [g|]; [|reflexivity].
  cbn. destruct (metadata g); reflexivity.
Qed.

Lemma flat_map_fmap_each {A B C} (g : B -> list C) (f : A -> B) (h : A -> C)
    (l : list A) :
  (forall x, g (f x) = [h x]) -> flat_map g (f <$> l) = h <$> l.
Proof.
  intros Hg. induction l as [|a l IH]; [reflexivity|]. cbn. now rewrite Hg, IH.
Qed.

Lemma flat_map_imap_each {A B C} (g : B -> list C) (f : nat -> A -> B) (h : A -> C)
    (l : list A) :
  (forall i x, g (f i x) = [h x]) -> flat_map g (imap f l) = h <$> l.
Proof.
  revert f. induction l as [|a l IH]; intros f Hg; [reflexivity|].
  cbn. rewrite Hg, IH; [reflexivity|]. intros i x. apply Hg.
Qed.

Section Render.
Variable highlight : string -> string.
Variable trim : string -> string.
Variable toFixed1 : Q -> string.
Variable stringify : Data -> string.

Lemma warnings_of_view (d : Data) (st : State) :
  select "sanity-check-area"
    (GraphView highlight trim toFixed1 stringify (Some d) st) =
    sanity_check_area (graphMetadata_of d) /\
  by_tag "li" (GraphView highlight trim toFixed1 stringify (Some d) st) =
    violation_item <$> default [] (sanity_violations (graphMetadata_of d)).
Proof.
  split.
  - unfold GraphView. walk.
    destruct (view_controls_quiet d st) as (_ & _ & -> & _).
    destruct (graph_content_quiet highlight trim toFixed1 stringify d st) as (-> & _).
    destruct (graph_metadata_warnings (graphMetadata_of d)) as (-> & _).
    cbn [app]. apply app_nil_r.
  - unfold GraphView. walk.
    destruct (view_controls_quiet d st) as (_ & _ & _ & ->).
    destruct (graph_content_quiet highlight trim toFixed1 stringify d st) as (_ & ->).
    destruct (graph_metadata_warnings (graphMetadata_of d)) as (_ & ->).
    cbn [app]. rewrite app_nil_r.
    now destruct (sanity_violations (graphMetadata_of d)).
Qed.

Lemma node_item_id (st : State) (idx : nat) (node : Node) :
  select "node-id" (node_item toFixed1 st idx node) =
    [Elem "span" "node-id" [] [Text (id node)]].
Proof.
  unfold node_item. destruct (is_expanded st idx).
  - walk. unfold renderNodeDetails. walk. reflexivity.
  - walk. reflexivity.
Qed.

Lemma nodes_section_ids (d : Data) (st : State) :
  select "node-id" (nodes_section toFixed1 d st) =
    (fun n => Elem "span" "node-id" [] [Text (id n)]) <$> nodes_of d.
Proof.
  unfold nodes_section.
  destruct (nodes_of d) as [|n ns] eqn:Hn; cbn [length Nat.eqb]; walk; [reflexivity|].
  rewrite (flat_map_imap_each _ _ (fun n => Elem "span" "node-id" [] [Text (id n)]))
    by apply node_item_id.
  now rewrite !app_nil_r.
Qed.

Lemma edge_item_spelled (e : Edge) :
  edge_item e =
    Elem "div" "edge-item" []
      (Elem "p" "" [] [ Elem "strong" "" [] [Text (source e)]; Text " → ";
                        Elem "strong" "" [] [Text (target e)] ] ::
       match label e with
       | Some l => if String.eqb l "" then [] else [Elem "p" "" [] [Text "Label: "; Text l]]
       | None => []
       end).
Proof.
  unfold edge_item. destruct (label e) as [l|]; cbn [or_str]; [|reflexivity].
  destruct (String.eqb l ""); reflexivity.
Qed.

Lemma narrative_item_step_content (step : string) :
  select "step-content" (narrative_item highlight trim step) =
    [Elem "span" "step-content" []
       [Inner (highlight (if includes ":" step
                          then trim (join ":" (slice1 (split ":" step)))
                          else step))]].
Proof.
  unfold narrative_item, highlightText. destruct (includes "↳" step); reflexivity.
Qed.

Lemma steps_section_contents (d : Data) :
  select "step-content" (steps_section highlight trim d) =
    (fun step =>
       Elem "span" "step-content" []
         [Inner (highlight (if includes ":" step
                            then trim (join ":" (slice1 (split ":" step)))
                            else step))]) <$> narrative_of d.
Proof.
  unfold steps_section.
  destruct (narrative_of d) as [|s ss] eqn:Hn; cbn [length Nat.eqb]; walk; [reflexivity|].
  rewrite (flat_map_fmap_each _ _ _ _ narrative_item_step_content).
  now rewrite !app_nil_r.
Qed.
End Render.

(** C7: whatever view is selected, the component renders the "Logic
    Sanity Warnings" block exactly when [graph.metadata.sanity_violations]
    of the data is a non-empty list; the block holds the title and one
    list item per violation, its string as the item's text, in list
    order, and these are the only list items of the view, so every
    violation string is rendered exactly once. The partial results are
    rendered beside it: in the nodes view the id of every node, in the
    edges view every edge with its source, target and label, in the steps
    view the content of every narrative step. *)
Theorem sanity_warnings_visible
    (highlight trim : string -> string) (toFixed1 : Q -> string)
    (stringify : Data -> string) (d : Data) (st : State) :
  let view := GraphView highlight trim toFixed1 stringify (Some d) st in
  let violations := (g ← graph d; m ← metadata g; sanity_violations m) in
  (select "sanity-check-area" view <> [] <->
   exists v vs, violations = Some (v :: vs)) /\
  (forall v vs, violations = Some (v :: vs) ->
     select "sanity-check-area" view =
       [ Elem "div" "sanity-check-area" []
           [ Elem "h5" "warning-title" [] [Text "⚠️ Logic Sanity Warnings"];
             Elem "ul" "violations-list" []
               ((fun x => Elem "li" "" [] [Text x]) <$> v :: vs) ] ]) /\
  by_tag "li" view = (fun x => Elem "li" "" [] [Text x]) <$> default [] violations /\
  (forall ns, nodes d = Some ns -> viewMode st = nodes_view ->
     select "node-id" view = (fun n => Elem "span" "node-id" [] [Text (id n)]) <$> ns) /\
  (forall es, edges d = Some es -> viewMode st = edges_view ->
     select "edge-item" view =
       (fun e =>
          Elem "div" "edge-item" []
            (Elem "p" "" [] [ Elem "strong" "" [] [Text (source e)]; Text " → ";
                              Elem "strong" "" [] [Text (target e)] ] ::
             match label e with
             | Some l =>
                 if String.eqb l "" then []
                 else [Elem "p" "" [] [Text "Label: "; Text l]]
             | None => []
             end)) <$> es) /\
  (forall lg steps, logical_graph d = Some lg -> narrative lg = Some steps ->
     viewMode st = steps_view ->
     select "step-content" view =
       (fun step =>
          Elem "span" "step-content" []
            [Inner (highlight (if includes ":" step
                               then trim (join ":" (slice1 (split ":" step)))
                               else step))]) <$> steps).
Proof.
  intros view violations. subst view violations.
  destruct (warnings_of_view highlight trim toFixed1 stringify d st) as [Hsel Hli].
  rewrite Hsel, Hli, <- violations_of_data. unfold sanity_check_area.
  split_and!.
  - destruct (sanity_violations (graphMetadata_of d)) as [[|v vs]|];
      cbn [length Nat.ltb Nat.leb when].
    + split; [intros Hne; now contradiction Hne | intros (v & vs & Hv); discriminate].
    + split; [intros _; now exists v, vs | discriminate].
    + split; [intros Hne; now contradiction Hne | intros (v & vs & Hv); discriminate].
  - intros v vs ->. reflexivity.
  - reflexivity.
  - intros ns Hns Hmode. rewrite select_root by reflexivity.
    unfold current_section. rewrite Hmode.
    quiet_controls "node-id" d st. quiet_metadata "node-id" d.
    rewrite nodes_section_ids, app_nil_r. cbn [app].
    unfold nodes_of. now rewrite Hns.
  - intros es Hes Hmode. rewrite select_root by reflexivity.
    unfold current_section. rewrite Hmode.
    quiet_controls "edge-item" d st. quiet_metadata "edge-item" d.
    rewrite edges_section_items, app_nil_r. cbn [app].
    unfold edges_of. rewrite Hes. cbn [default from_option].
    apply list_fmap_ext. intros i e _. apply edge_item_spelled.
  - intros lg steps Hlg Hsteps Hmode. rewrite select_root by reflexivity.
    unfold current_section. rewrite Hmode.
    quiet_controls "step-content" d st. quiet_metadata "step-content" d.
    rewrite steps_section_contents, app_nil_r. cbn [app].
    unfold narrative_of. rewrite Hlg. cbn [mbind option_bind]. now rewrite Hsteps.
Qed.

End WarningFacts.
